(** * Deepseek (aphrodite-engine): a shallow embedding of
      [aphrodite/modeling/models/deepseek.py] and its verified properties.

    Python integers are [Z], floating tensors are idealised to exact
    rationals [Q], strings are [string], dictionaries are [gmap], and the
    torch storage shared by several tensor views is an explicit heap. *)

From Stdlib Require Import ZArith QArith Qround String Ascii List Bool Lia Lqa Permutation Sorted SpecFloat.
From stdpp Require Import base option list gmap strings fin_maps.

Local Open Scope Z_scope.

(* ===================================================================== *)
(** * Python runtime: exceptions, floor division, strings *)
(* ===================================================================== *)

Module Py.

(** The exceptions the module can raise. *)
Inductive exn :=
| ValueError (msg : string)
| AssertionError
| ZeroDivisionError
| AttributeError (attr : string)
| KeyError (key : string)
| IndexError
| TypeError
| RuntimeError (msg : string).

(** A computation that returns or raises. *)
Inductive result (A : Type) :=
| Ok (a : A)
| Raise (e : exn).
Arguments Ok {A} a.
Arguments Raise {A} e.

Definition is_ok {A} (r : result A) : bool :=
  match r with Ok _ => true | Raise _ => false end.

(** [a // b] and [a % b]: floor division, the remainder has the sign of
    the divisor, a zero divisor raises. *)
Definition floordiv (a b : Z) : result Z :=
  if b =? 0 then Raise ZeroDivisionError else Ok (a / b).

Definition pymod (a b : Z) : result Z :=
  if b =? 0 then Raise ZeroDivisionError else Ok (a mod b).

(** [s.startswith(p)] on character lists. *)
Fixpoint startswith (p s : string) : bool :=
  match p with
  | EmptyString => true
  | String c p' =>
      match s with
      | EmptyString => false
      | String d s' => if Ascii.eqb c d then startswith p' s' else false
      end
  end.

(** [p in s]: [p] occurs in [s] as a contiguous substring. *)
Fixpoint contains (p s : string) : bool :=
  if startswith p s then true
  else match s with
       | EmptyString => false
       | String _ s' => contains p s'
       end.

(** Drop the first [n] characters. *)
Fixpoint drop_str (n : nat) (s : string) : string :=
  match n with
  | O => s
  | S n' => match s with
            | EmptyString => EmptyString
            | String _ s' => drop_str n' s'
            end
  end.

(** [s.endswith(p)]. *)
Definition endswith (p s : string) : bool :=
  (String.length p <=? String.length s)%nat
  && String.eqb (drop_str (String.length s - String.length p) s) p.

(** [s.replace(old, new)] for a non-empty [old]: every non-overlapping
    occurrence, leftmost first.  [fuel] bounds the number of characters
    still to scan; [replace] gives it the length of [s]. *)
Fixpoint replace_from (fuel : nat) (old new s : string) : string :=
  match fuel with
  | O => s
  | S fuel' =>
      match s with
      | EmptyString => EmptyString
      | String c s' =>
          if startswith old s
          then append new
                 (replace_from (fuel' - (String.length old - 1))
                    old new (drop_str (String.length old) s))
          else String c (replace_from fuel' old new s')
      end
  end.

Definition replace (s old new : string) : string :=
  replace_from (String.length s) old new s.

(** [range(n)]. *)
Definition range (n : Z) : list Z := map Z.of_nat (seq 0 (Z.to_nat n)).

(** Whether the character [c] occurs in [s]. *)
Fixpoint occurs (c : ascii) (s : string) : bool :=
  match s with
  | EmptyString => false
  | String d s' => Ascii.eqb c d || occurs c s'
  end.

(** Two non-empty strings of which neither's first character occurs in
    the other: an occurrence of one never overlaps an occurrence of the
    other. *)
Definition separated (old pat : string) : bool :=
  match old, pat with
  | String a _, String b _ => negb (occurs a pat) && negb (occurs b old)
  | _, _ => false
  end.

End Py.
Export Py.

(* ===================================================================== *)
(** * Configuration and the quantization backend's query surface *)
(* ===================================================================== *)

(** [linear_method.quant_config]: the two predicates the model consults. *)
Record LinearMethodBase := {
  merge_weight_allowed : bool;          (* quant_config.merge_weight() *)
  rope_style : option bool;             (* quant_config.rope_style()   *)
}.

(** [linear_method is not None and not
    linear_method.quant_config.merge_weight()]. *)
Definition split_layout (linear_method : option LinearMethodBase) : bool :=
  match linear_method with
  | Some lm => negb (merge_weight_allowed lm)
  | None => false
  end.

(** The fields of [PretrainedConfig] the module reads. *)
Module Config.
Record PretrainedConfig := {
hidden_size : Z;
intermediate_size : Z;
moe_intermediate_size : Z;
n_routed_experts : option Z;
n_shared_experts : option Z;
num_experts_per_tok : Z;
norm_topk_prob : bool;
first_k_dense_replace : Z;
moe_layer_freq : Z;
hidden_act : string;
num_attention_heads : Z;
num_key_value_heads : Z;
num_hidden_layers : Z;
}.
End Config.
Export Config.

(* ===================================================================== *)
(** * Weight loading: [DeepseekForCausalLM.load_weights] *)
(* ===================================================================== *)

Module Loader.
Local Open Scope string_scope.

(** A shard id of the stacking table: ["q"], ["k"], ["v"], [0], [1]. *)
Inductive shard_id :=
| ShardName (s : string)
| ShardIndex (i : Z).

(** What is called on a parameter: the routine attached to it as
    [param.weight_loader], or [default_weight_loader]. *)
Inductive loader :=
| Attached (routine : string)
| DefaultLoader.

(** An in-memory parameter as [load_weights] sees it: whether a
    [weight_loader] attribute is attached. *)
Record Param := {
  weight_loader : option string;
}.

(** What one checkpoint entry leads to. *)
Inductive action :=
| Skipped
| Call (param_name : string) (l : loader) (shard : option shard_id)
| Fatal (e : exn).

Definition stacked_params_mapping : list (string * string * shard_id) :=
  [ ("qkv_proj", "q_proj", ShardName "q");
    ("qkv_proj", "k_proj", ShardName "k");
    ("qkv_proj", "v_proj", ShardName "v");
    ("gate_up_proj", "gate_proj", ShardIndex 0);
    ("gate_up_proj", "up_proj", ShardIndex 1) ].

(** The table in force: emptied when fused layouts are not permitted. *)
Definition active_mapping (linear_method : option LinearMethodBase)
  : list (string * string * shard_id) :=
  if split_layout linear_method then [] else stacked_params_mapping.

(** [name in params_dict]. *)
Definition in_dict (params_dict : gmap string Param) (name : string) : bool :=
  match params_dict !! name with Some _ => true | None => false end.

(** [name.endswith(".bias") and name not in params_dict]. *)
Definition extra_bias (params_dict : gmap string Param) (name : string) : bool :=
  endswith ".bias" name && negb (in_dict params_dict name).

(** [("mlp.experts." in name or "mlp.shared_experts." in name)
     and name not in params_dict]. *)
Definition foreign_expert (params_dict : gmap string Param) (name : string) : bool :=
  (contains "mlp.experts." name || contains "mlp.shared_experts." name)
  && negb (in_dict params_dict name).

(** The [else] clause of the inner [for]: reached when no entry of the
    table led to a [break]. *)
Definition load_unstacked (params_dict : gmap string Param) (name : string) : action :=
  if extra_bias params_dict name then Skipped
  else if foreign_expert params_dict name then Skipped
  else match params_dict !! name with
       | None => Fatal (KeyError name)
       | Some param =>
           Call name
             (match weight_loader param with
              | Some r => Attached r
              | None => DefaultLoader
              end) None
       end.

(** The inner [for ... in stacked_params_mapping] with its [else].  A
    [continue] inside it moves to the next table entry, carrying the
    name as rewritten so far. *)
Fixpoint load_stacked (params_dict : gmap string Param)
    (mapping : list (string * string * shard_id)) (name : string) : action :=
  match mapping with
  | [] => load_unstacked params_dict name
  | (param_name, weight_name, shard) :: rest =>
      if negb (contains weight_name name)
      then load_stacked params_dict rest name
      else
        let name := replace name weight_name param_name in
        if extra_bias params_dict name
        then load_stacked params_dict rest name
        else if foreign_expert params_dict name
        then load_stacked params_dict rest name
        else match params_dict !! name with
             | None => Fatal (KeyError name)
             | Some param =>
                 match weight_loader param with
                 | None => Fatal (AttributeError "weight_loader")
                 | Some r => Call name (Attached r) (Some shard)
                 end
             end
  end.

(** The body of the outer loop for one [(name, loaded_weight)] pair. *)
Definition load_entry (linear_method : option LinearMethodBase)
    (params_dict : gmap string Param) (name : string) : action :=
  if contains "rotary_emb.inv_freq" name then Skipped
  else load_stacked params_dict (active_mapping linear_method) name.

(** The outer loop over the checkpoint iterator: the calls made, in
    order, and the exception that ended the loop, if any. *)
Fixpoint load_weights {T} (linear_method : option LinearMethodBase)
    (params_dict : gmap string Param) (checkpoint : list (string * T))
  : list (string * loader * option shard_id * T) * option exn :=
  match checkpoint with
  | [] => ([], None)
  | (name, loaded_weight) :: rest =>
      match load_entry linear_method params_dict name with
      | Skipped => load_weights linear_method params_dict rest
      | Call p l s =>
          let (calls, err) := load_weights linear_method params_dict rest in
          ((p, l, s, loaded_weight) :: calls, err)
      | Fatal e => ([], Some e)
      end
  end.

(** The first table entry whose checkpoint-side name occurs in [name]. *)
Fixpoint first_match (mapping : list (string * string * shard_id)) (name : string)
  : option (string * string * shard_id) :=
  match mapping with
  | [] => None
  | (param_name, weight_name, shard) :: rest =>
      if contains weight_name name then Some (param_name, weight_name, shard)
      else first_match rest name
  end.




(** A name with a bias suffix or of an expert or shared expert. *)
Definition skip_shaped (name : string) : bool :=
  endswith ".bias" name
  || contains "mlp.experts." name || contains "mlp.shared_experts." name.


(** A small in-memory model: two fused projections with their loaders
    and a norm weight without one. *)
Definition demo_params : gmap string Param :=
  {[ "model.layers.0.self_attn.qkv_proj.weight" := {| weight_loader := Some "qkv_loader" |};
     "model.layers.0.mlp.gate_up_proj.weight" := {| weight_loader := Some "merged_loader" |};
     "model.norm.weight" := {| weight_loader := None |} ]}.

(** A row of the table whose checkpoint-side name cannot overlap the
    bias suffix or the expert prefixes. *)
Definition row_separated (row : string * string * shard_id) : bool :=
  let '(_, weight_name, _) := row in
  separated weight_name ".bias"
  && separated weight_name "mlp.experts."
  && separated weight_name "mlp.shared_experts.".

End Loader.

(* ===================================================================== *)
(** * Torch: storages, tensor views, parameters *)
(* ===================================================================== *)

Module Torch.
Local Open Scope nat_scope.

(** A tensor is a contiguous view into a storage: the storage's
    address, the index of its first element, and its shape. *)
Record Tensor := {
  t_storage : nat;
  t_offset : nat;
  t_shape : list nat;
}.

(** [Tensor.numel()]. *)
Definition numel_of (shape : list nat) : nat := fold_right Nat.mul 1 shape.
Definition numel (t : Tensor) : nat := numel_of (t_shape t).

(** The heap: the storages, by address, and for every [nn.Parameter]
    object (by identity) the tensor its [.data] is bound to. *)
Record Heap := {
  storages : gmap nat (list Q);
  param_data : gmap nat Tensor;
}.

Definition empty_heap : Heap := {| storages := ∅; param_data := ∅ |}.

(** An address not in use. *)
Definition fresh_key {V} (m : gmap nat V) : nat := fresh (dom m).

(** The elements a view covers, in order. *)
Definition contents (h : Heap) (t : Tensor) : list Q :=
  match storages h !! t_storage t with
  | Some cells => take (numel t) (drop (t_offset t) cells)
  | None => []
  end.


(** Writing element [i] of the view in place, [t.view(-1)[i] = v].
    Torch raises on an index outside the view; the model leaves the heap
    as it is there, and the properties below only write inside. *)
Definition write (h : Heap) (t : Tensor) (i : nat) (v : Q) : Heap :=
  if i <? numel t
  then {| storages := alter (fun cells => <[t_offset t + i := v]> cells)
                        (t_storage t) (storages h);
          param_data := param_data h |}
  else h.

(** [t.copy_(values)]: an in-place copy, element by element (of as many
    values as the view has room for). *)
Fixpoint copy_from (h : Heap) (t : Tensor) (i : nat) (values : list Q) : Heap :=
  match values with
  | [] => h
  | v :: rest => copy_from (write h t i v) t (S i) rest
  end.
Definition copy_ (h : Heap) (t : Tensor) (values : list Q) : Heap :=
  copy_from h t 0 values.

(** Modelled from the spec: [default_weight_loader] is not in the source
    file; the generic default loader copies the loaded tensor into the
    parameter's data in place. *)
Definition default_weight_loader (h : Heap) (param : nat) (loaded_weight : list Q)
  : Heap :=
  match param_data h !! param with
  | Some t => copy_ h t loaded_weight
  | None => h
  end.

(** Rows of a 2-D view: [rows] chunks of [cols] elements. *)
Fixpoint chunks (cols rows : nat) (l : list Q) : list (list Q) :=
  match rows with
  | O => []
  | S r => take cols l :: chunks cols r (drop cols l)
  end.

(** The matrix a 2-D tensor [(out, in)] holds, row by row. *)
Definition matrix (h : Heap) (t : Tensor) : list (list Q) :=
  match t_shape t with
  | [rows; cols] => chunks cols rows (contents h t)
  | _ => []
  end.

(** [bank[e]] for a 3-D tensor [(E, out, in)]: the view of slice [e]. *)
Definition select0 (bank : Tensor) (e : nat) : Tensor :=
  match t_shape bank with
  | _ :: inner =>
      {| t_storage := t_storage bank;
         t_offset := t_offset bank + e * numel_of inner;
         t_shape := inner |}
  | [] => bank
  end.

(** ** Computations with a state and exceptions

    Construction threads the heap; a forward pass threads the log of
    the collective operations it has issued.  A raise keeps the state
    reached so far. *)

Definition M (S A : Type) : Type := S -> result A * S.

Definition ret {S A} (a : A) : M S A := fun s => (Ok a, s).
Definition raise {S A} (e : exn) : M S A := fun s => (Raise e, s).
Definition bind {S A B} (c : M S A) (k : A -> M S B) : M S B :=
  fun s => match c s with
           | (Ok a, s') => k a s'
           | (Raise e, s') => (Raise e, s')
           end.
(** A computation that only returns or raises, used inside [M]. *)
Definition lift {S A} (r : result A) : M S A := fun s => (r, s).

Declare Scope py_scope.
Delimit Scope py_scope with py.
Notation "x <- c ;; k" := (bind c (fun x => k))
  (at level 62, c at next level, right associativity) : py_scope.
Notation "c ;;; k" := (bind c (fun _ => k))
  (at level 62, right associativity) : py_scope.
Local Open Scope py_scope.

(** [assert b]. *)
Definition assert {S} (b : bool) : M S unit :=
  if b then ret tt else raise AssertionError.

(** [[f(x) for x in xs]], left to right, stopping at the first raise. *)
Fixpoint for_each {S A B} (f : A -> M S B) (xs : list A) : M S (list B) :=
  match xs with
  | [] => ret []
  | x :: rest =>
      y <- f x ;;
      ys <- for_each f rest ;;
      ret (y :: ys)
  end.

(** [nn.Parameter(torch.empty(shape))]: a new storage (its cells are
    not initialised; the model fills them with zero) and a new
    parameter object bound to the view of all of it. *)
Definition new_parameter (shape : list nat) : M Heap nat :=
  fun h =>
    let a := fresh_key (storages h) in
    let p := fresh_key (param_data h) in
    (Ok p,
     {| storages := <[a := repeat 0%Q (numel_of shape)]> (storages h);
        param_data := <[p := {| t_storage := a; t_offset := 0; t_shape := shape |}]>
                        (param_data h) |}).

(** [param.data]: the tensor the parameter is bound to. *)
Definition data_of (p : nat) : M Heap Tensor :=
  fun h => match param_data h !! p with
           | Some t => (Ok t, h)
           | None => (Raise (RuntimeError "parameter without data"), h)
           end.

(** [param.data = t]: rebinds the parameter, no element is copied. *)
Definition set_data (p : nat) (t : Tensor) : M Heap unit :=
  fun h => (Ok tt, {| storages := storages h;
                      param_data := <[p := t]> (param_data h) |}).

(** [torch._utils._flatten_dense_tensors(tensors)], that is
    [torch.cat([t.contiguous().view(-1) for t in tensors], dim=0)]:
    a new storage that holds copies of the elements, one tensor after
    the other.  [torch.cat] refuses an empty list. *)
Definition flatten_dense_tensors (tensors : list Tensor) : M Heap Tensor :=
  match tensors with
  | [] => raise (RuntimeError "torch.cat(): expected a non-empty list of Tensors")
  | _ =>
      fun h =>
        let cells := concat (map (contents h) tensors) in
        let a := fresh_key (storages h) in
        (Ok {| t_storage := a; t_offset := 0; t_shape := [length cells] |},
         {| storages := <[a := cells]> (storages h);
            param_data := param_data h |})
  end.

(** [torch._utils._unflatten_dense_tensors(flat, tensors)]: for each
    tensor, [flat.narrow(0, offset, numel).view_as(tensor)], the offset
    advancing by [numel].  The views share [flat]'s storage. *)
Fixpoint unflatten_from (flat : Tensor) (offset : nat) (tensors : list Tensor)
  : list Tensor :=
  match tensors with
  | [] => []
  | t :: rest =>
      {| t_storage := t_storage flat;
         t_offset := t_offset flat + offset;
         t_shape := t_shape t |}
      :: unflatten_from flat (offset + numel t) rest
  end.
Definition unflatten_dense_tensors (flat : Tensor) (tensors : list Tensor)
  : list Tensor :=
  unflatten_from flat 0 tensors.

(** [t.view(shape)]: the same storage under another shape; the number
    of elements must agree. *)
Definition view {S} (t : Tensor) (shape : list nat) : M S Tensor :=
  if numel_of shape =? numel t
  then ret {| t_storage := t_storage t; t_offset := t_offset t; t_shape := shape |}
  else raise (RuntimeError "shape is invalid for input size").

(** [for data, param in zip(datas, params): param.data = data]. *)
Fixpoint rebind_all (datas : list Tensor) (params : list nat) : M Heap unit :=
  match datas, params with
  | d :: ds, p :: ps => set_data p d ;;; rebind_all ds ps
  | _, _ => ret tt
  end.

End Torch.
Export Torch.

(* ===================================================================== *)
(** * The linear layers of [aphrodite.modeling.layers.linear] *)
(* ===================================================================== *)

Module Layers.
Local Open Scope py_scope.

Inductive layer_class :=
| ColumnParallel
| MergedColumnParallel
| QKVParallel
| RowParallel
| Replicated.

(** A linear layer: its class, its weight parameter (by identity) and,
    for a row-parallel layer, whether its output is reduced across the
    tensor-parallel workers. *)
Record Linear := {
  class : layer_class;
  weight : nat;
  reduce_results : bool;
}.

Definition dims (rows cols : Z) : list nat := [Z.to_nat rows; Z.to_nat cols].

(** Modelled from the spec: [ColumnParallelLinear] is not in the source
    file; it owns a weight of shape (out / workers, in) and never
    communicates. *)
Definition ColumnParallelLinear (tp_size input_size output_size : Z)
  : M Heap Linear :=
  w <- new_parameter (dims (output_size / tp_size) input_size) ;;
  ret {| class := ColumnParallel; weight := w; reduce_results := false |}.

(** Modelled from the spec: [MergedColumnParallelLinear] is not in the
    source file; one weight holds the output rows of all the merged
    projections, one projection after the other. *)
Definition MergedColumnParallelLinear (tp_size input_size : Z) (output_sizes : list Z)
  : M Heap Linear :=
  w <- new_parameter
         (dims (fold_right Z.add 0 (map (fun o => o / tp_size) output_sizes))
               input_size) ;;
  ret {| class := MergedColumnParallel; weight := w; reduce_results := false |}.

(** Modelled from the spec: [QKVParallelLinear] is not in the source
    file; one weight holds the query rows, then the key rows, then the
    value rows of this worker's heads. *)
Definition QKVParallelLinear (tp_size hidden_size head_size total_num_heads
                              total_num_kv_heads : Z) : M Heap Linear :=
  let num_heads := total_num_heads / tp_size in
  let num_kv_heads := Z.max 1 (total_num_kv_heads / tp_size) in
  w <- new_parameter
         (dims ((num_heads + 2 * num_kv_heads) * head_size) hidden_size) ;;
  ret {| class := QKVParallel; weight := w; reduce_results := false |}.

(** Modelled from the spec: [RowParallelLinear] is not in the source
    file; it owns a weight of shape (out, in / workers), and a flag,
    true unless the caller says otherwise, controls whether its output
    is collectively reduced across the workers. *)
Definition RowParallelLinear (tp_size input_size output_size : Z)
    (reduce : option bool) : M Heap Linear :=
  w <- new_parameter (dims output_size (input_size / tp_size)) ;;
  ret {| class := RowParallel; weight := w;
         reduce_results := default true reduce |}.

(** Modelled from the spec: [ReplicatedLinear] is not in the source
    file; a replicated (non-sharded) projection. *)
Definition ReplicatedLinear (input_size output_size : Z) : M Heap Linear :=
  w <- new_parameter (dims output_size input_size) ;;
  ret {| class := Replicated; weight := w; reduce_results := false |}.

End Layers.
Export Layers.

(* ===================================================================== *)
(** * Tensor arithmetic and the external operators *)
(* ===================================================================== *)

Module Numerics.
Local Open Scope py_scope.
Local Open Scope Q_scope.

(** Sum over the last axis. *)
Definition qsum (l : list Q) : Q := fold_right Qplus 0 l.

Definition dot (row x : list Q) : Q := qsum (zip_with Qmult row x).

(** [x @ W^T] for one token: one output element per row of [W]. *)
Definition matvec (W : list (list Q)) (x : list Q) : list Q :=
  map (fun row => dot row x) W.

(** Elementwise sum of two token batches. *)
Definition add_batch (a b : list (list Q)) : list (list Q) :=
  zip_with (zip_with Qplus) a b.

(** [torch.cat([a, b], dim=-1)]. *)
Definition cat_last (a b : list (list Q)) : list (list Q) :=
  zip_with (fun ra rb => ra ++ rb) a b.

(** [x.split([a, b, c], dim=-1)]: the sizes must add up to the width of
    every row. *)
Definition split3 {S} (x : list (list Q)) (a b c : nat)
  : M S (list (list Q) * list (list Q) * list (list Q)) :=
  if forallb (fun row => (length row =? a + b + c)%nat) x
  then ret (map (take a) x,
            map (fun row => take b (drop a row)) x,
            map (fun row => take c (drop (a + b) row)) x)
  else raise (RuntimeError "split_with_sizes expects split_sizes to sum to the dimension").

(** ** Top-k *)

(** Insertion into a list kept in descending order of value; among
    equal values the entry inserted later comes first. *)
Fixpoint insert_desc (p : Q * nat) (l : list (Q * nat)) : list (Q * nat) :=
  match l with
  | [] => [p]
  | q :: rest =>
      if Qle_bool (fst q) (fst p) then p :: q :: rest
      else q :: insert_desc p rest
  end.

Definition sort_desc (l : list (Q * nat)) : list (Q * nat) :=
  fold_right insert_desc [] l.

(** A row with the index of each entry. *)
Definition indexed (row : list Q) : list (Q * nat) :=
  zip row (seq 0 (length row)).

(** [torch.topk(row, k, dim=-1)]: the [k] largest entries in descending
    order and their indices; among equal entries the lower index comes
    first.  [k] must lie between 0 and the length of the row. *)
Definition topk {S} (k : Z) (row : list Q) : M S (list Q * list nat) :=
  if ((k <? 0) || (Z.of_nat (length row) <? k))%Z
  then raise (RuntimeError "selected index k out of range")
  else
    let best := take (Z.to_nat k) (sort_desc (indexed row)) in
    ret (map fst best, map snd best).

(** Descending by value. *)
Definition descending : list (Q * nat) -> Prop :=
  StronglySorted (fun p q => fst q <= fst p).

(** The entries [topk] keeps and the entries it leaves. *)
Definition kept (k : Z) (row : list Q) : list (Q * nat) :=
  take (Z.to_nat k) (sort_desc (indexed row)).
Definition left_out (k : Z) (row : list Q) : list (Q * nat) :=
  drop (Z.to_nat k) (sort_desc (indexed row)).

Section Activation.
(** The exponential is a function of the floating-point library; the
    model takes it as given. *)
Variable exp : Q -> Q.

Definition silu (x : Q) : Q := x / (1 + exp (- x)).

(** Modelled from the spec: [SiluAndMul] is not in the source file; the
    elementwise gated unit [silu(gate) * up] on a row [[gate, up]] that
    is split at its midpoint. *)
Definition SiluAndMul (row : list Q) : list Q :=
  let d := (length row / 2)%nat in
  zip_with (fun g u => silu g * u) (take d row) (drop d row).

(** [F.softmax(row, dim=-1)] with the arithmetic taken exact: enough for
    what a forward pass logs and raises; the values the tensors hold
    are those of [Float32.softmax]. *)
Definition softmax (row : list Q) : list Q :=
  let total := qsum (map exp row) in
  map (fun x => exp x / total) row.

End Activation.

(** A rational stand-in for the exponential, for running the model on
    examples: positive, increasing, 1 at 0. *)
Definition exp_rational (x : Q) : Q :=
  if Qle_bool 0 x then 1 + x else 1 / (1 - x).

(** ** Cross-worker communication *)

Section Collective.
(** What the sum-reduce over the worker group hands back to this worker
    for its contribution. *)
Variable reduce_sum : list (list Q) -> list (list Q).

(** The log of a forward pass: the payloads of the all-reduce calls it
    has issued, oldest first. *)
Definition Log : Type := list (list (list Q)).

(** Modelled from the spec: [tensor_model_parallel_all_reduce] is not in
    the source file; [reduce(tensor)] sum-reduces across the
    tensor-parallel group. *)
Definition tensor_model_parallel_all_reduce (x : list (list Q))
  : M Log (list (list Q)) :=
  fun log => (Ok (reduce_sum x), log ++ [x]).

(** The matrix a layer's weight parameter holds at present. *)
Definition weight_matrix (h : Heap) (l : Linear) : list (list Q) :=
  match param_data h !! weight l with
  | Some t => matrix h t
  | None => []
  end.

(** Modelled from the spec: the [forward] of the linear layers is not in
    the source file; every token is multiplied by the weight, and a
    row-parallel layer whose flag is set reduces its output across the
    workers. *)
Definition apply_linear (h : Heap) (l : Linear) (x : list (list Q))
  : M Log (list (list Q)) :=
  let y := map (matvec (weight_matrix h l)) x in
  if reduce_results l then tensor_model_parallel_all_reduce y else ret y.

End Collective.

End Numerics.
Export Numerics.

(* ===================================================================== *)
(** * Construction of the blocks *)
(* ===================================================================== *)

(** The two configuration errors of the constructors. *)
Definition unsupported_activation : exn :=
  ValueError "Unsupported activation. Only silu is supported for now.".

Definition too_many_workers : exn :=
  ValueError "Tensor parallel size is greater than the number of experts.".

(** [obj.attr] for an attribute that [__init__] sets on one branch only. *)
Definition getattr {S A} (attr : string) (field : option A) : M S A :=
  match field with
  | Some a => ret a
  | None => raise (AttributeError attr)
  end.

Module MLP.
Local Open Scope py_scope.
Local Open Scope string_scope.

Record DeepseekMLP := {
  merge_weight : bool;
  gate_proj : option Linear;
  up_proj : option Linear;
  gate_up_proj : option Linear;
  down_proj : Linear;
}.

(** [DeepseekMLP.__init__]; [tp_size] is what
    [get_tensor_model_parallel_world_size()] returns. *)
Definition init (tp_size hidden_size intermediate_size : Z) (hidden_act : string)
    (linear_method : option LinearMethodBase) (reduce_results : bool)
  : M Heap DeepseekMLP :=
  projections <-
    (if split_layout linear_method
     then
       g <- ColumnParallelLinear tp_size hidden_size intermediate_size ;;
       u <- ColumnParallelLinear tp_size hidden_size intermediate_size ;;
       ret (false, Some g, Some u, None)
     else
       gu <- MergedColumnParallelLinear tp_size hidden_size
               [intermediate_size; intermediate_size] ;;
       ret (true, None, None, Some gu)) ;;
  down <- RowParallelLinear tp_size intermediate_size hidden_size
            (Some reduce_results) ;;
  if negb (String.eqb hidden_act "silu")
  then raise unsupported_activation
  else
    let '(mw, g, u, gu) := projections in
    ret {| merge_weight := mw; gate_proj := g; up_proj := u;
           gate_up_proj := gu; down_proj := down |}.

Section Forward.
Variable exp : Q -> Q.
Variable reduce_sum : list (list Q) -> list (list Q).

(** [DeepseekMLP.forward]. *)
Definition forward (h : Heap) (self : DeepseekMLP) (x : list (list Q))
  : M Log (list (list Q)) :=
  gate_up <-
    (if merge_weight self
     then
       l <- getattr "gate_up_proj" (gate_up_proj self) ;;
       apply_linear reduce_sum h l x
     else
       lu <- getattr "up_proj" (up_proj self) ;;
       up <- apply_linear reduce_sum h lu x ;;
       lg <- getattr "gate_proj" (gate_proj self) ;;
       gate <- apply_linear reduce_sum h lg x ;;
       ret (cat_last gate up)) ;;
  let x := map (SiluAndMul exp) gate_up in
  apply_linear reduce_sum h (down_proj self) x.

End Forward.

End MLP.

Module MoE.
Import MLP.
Local Open Scope py_scope.
Local Open Scope string_scope.

Record DeepseekMoE := {
  config : PretrainedConfig;
  tp_size : Z;
  n_routed_experts : Z;
  top_k : Z;
  experts : list DeepseekMLP;
  w1 : Tensor;
  w2 : Tensor;
  gate : Linear;
  shared_experts : option DeepseekMLP;
}.

(** One bank of [pack_params]: flatten the parameters into one new
    buffer, rebind every parameter's [.data] to its slice of that
    buffer, and view the buffer as (number of experts, shape of one). *)
Definition pack (ws : list nat) : M Heap Tensor :=
  ts <- for_each data_of ws ;;
  flat <- flatten_dense_tensors ts ;;
  let views := unflatten_dense_tensors flat ts in
  rebind_all views ws ;;;
  match views with
  | [] => raise IndexError
  | first :: _ => view flat (length ws :: t_shape first)
  end.

(** [DeepseekMoE.pack_params]. *)
Definition pack_params (experts : list DeepseekMLP) : M Heap (Tensor * Tensor) :=
  ws <- for_each
          (fun expert =>
             gu <- getattr "gate_up_proj" (gate_up_proj expert) ;;
             ret (weight gu, weight (down_proj expert)))
          experts ;;
  bank1 <- pack (map fst ws) ;;
  bank2 <- pack (map snd ws) ;;
  ret (bank1, bank2).

(** [DeepseekMoE.__init__]. *)
Definition init (tp : Z) (cfg : PretrainedConfig)
    (linear_method : option LinearMethodBase) : M Heap DeepseekMoE :=
  n <- match Config.n_routed_experts cfg with
       | Some n => ret n
       | None => raise TypeError
       end ;;
  if tp >? n
  then raise too_many_workers
  else
    es <- for_each
            (fun idx : Z =>
               MLP.init tp (hidden_size cfg) (moe_intermediate_size cfg)
                 (hidden_act cfg) linear_method false)
            (range n) ;;
    banks <- pack_params es ;;
    g <- ReplicatedLinear (hidden_size cfg) n ;;
    shared <-
      match n_shared_experts cfg with
      | Some s =>
          m <- MLP.init tp (hidden_size cfg) (moe_intermediate_size cfg * s)
                 (hidden_act cfg) linear_method false ;;
          ret (Some m)
      | None => ret None
      end ;;
    ret {| config := cfg; tp_size := tp; n_routed_experts := n;
           top_k := num_experts_per_tok cfg; experts := es;
           w1 := fst banks; w2 := snd banks; gate := g;
           shared_experts := shared |}.

Section Forward.
Variable exp : Q -> Q.
Variable reduce_sum : list (list Q) -> list (list Q).
Local Open Scope Q_scope.

(** What expert [e] of the banks computes on one token. *)
Definition expert_output (h : Heap) (bank1 bank2 : Tensor) (e : nat) (x : list Q)
  : list Q :=
  matvec (matrix h (select0 bank2 e))
    (SiluAndMul exp (matvec (matrix h (select0 bank1 e)) x)).

(** Modelled from the spec: [fused_moe] is not in the source file; it
    applies the activation, dispatches every token to its selected
    experts' slices of the banks, multiplies each expert's output by its
    routing weight and sums per token. *)
Definition fused_moe (h : Heap) (hidden_states : list (list Q))
    (bank1 bank2 : Tensor) (routing_weights : list (list Q))
    (selected_experts : list (list nat)) : list (list Q) :=
  zip_with
    (fun x routed =>
       fold_right (zip_with Qplus) (repeat 0 (length x))
         (map (fun we : Q * nat =>
                 map (Qmult (fst we)) (expert_output h bank1 bank2 (snd we) x))
              routed))
    hidden_states
    (zip_with zip routing_weights selected_experts).

(** The routing of one token, lines 176 to 182: softmax over all the
    router logits, top-k, and the optional renormalisation.  The
    arithmetic is taken exact here; [Float32.route] is the same code on
    float32. *)
Definition route (k : Z) (norm : bool) (router_logits : list Q)
  : M Log (list Q * list nat) :=
  let routing_weights := softmax exp router_logits in
  picked <- topk k routing_weights ;;
  let '(routing_weights, selected_experts) := picked in
  let routing_weights :=
    if norm
    then map (fun w => w / qsum routing_weights) routing_weights
    else routing_weights in
  ret (routing_weights, selected_experts).

(** [DeepseekMoE.forward] on the token batch; the views at entry and at
    exit only regroup the token axis. *)
Definition forward (h : Heap) (self : DeepseekMoE) (hidden_states : list (list Q))
  : M Log (list (list Q)) :=
  shared_output <-
    match n_shared_experts (config self) with
    | Some _ =>
        se <- getattr "shared_experts" (shared_experts self) ;;
        y <- MLP.forward exp reduce_sum h se hidden_states ;;
        ret (Some y)
    | None => ret None
    end ;;
  router_logits <- apply_linear reduce_sum h (gate self) hidden_states ;;
  routed <- for_each
              (route (top_k self) (norm_topk_prob (config self)))
              router_logits ;;
  let final_hidden_states :=
    fused_moe h hidden_states (w1 self) (w2 self)
      (map fst routed) (map snd routed) in
  let final_hidden_states :=
    match shared_output with
    | Some y => add_batch final_hidden_states y
    | None => final_hidden_states
    end in
  tensor_model_parallel_all_reduce reduce_sum final_hidden_states.

End Forward.

End MoE.

Module Attention.
Local Open Scope py_scope.
Local Open Scope string_scope.
Local Open Scope Z_scope.

Record DeepseekAttention := {
  hidden_size : Z;
  total_num_heads : Z;
  num_heads : Z;
  total_num_kv_heads : Z;
  num_kv_heads : Z;
  head_dim : Z;
  q_size : Z;
  kv_size : Z;
  merge_weight : bool;
  q_proj : option Linear;
  k_proj : option Linear;
  v_proj : option Linear;
  qkv_proj : option Linear;
  o_proj : Linear;
  is_neox_style : bool;
}.

(** [DeepseekAttention.__init__].  [head_dim ** -0.5] is a float the
    model does not represent; what is kept of it is that a zero
    [head_dim] raises. *)
Definition init (tp_size hidden num_heads_arg num_kv_heads_arg : Z)
    (linear_method : option LinearMethodBase) : M Heap DeepseekAttention :=
  let total_heads := num_heads_arg in
  r <- lift (pymod total_heads tp_size) ;;
  assert (r =? 0) ;;;
  heads <- lift (floordiv total_heads tp_size) ;;
  let total_kv_heads := num_kv_heads_arg in
  (if total_kv_heads >=? tp_size
   then r <- lift (pymod total_kv_heads tp_size) ;; assert (r =? 0)
   else r <- lift (pymod tp_size total_kv_heads) ;; assert (r =? 0)) ;;;
  kv_share <- lift (floordiv total_kv_heads tp_size) ;;
  let kv_heads := Z.max 1 kv_share in
  hd <- lift (floordiv hidden total_heads) ;;
  let qs := heads * hd in
  let kvs := kv_heads * hd in
  (if hd =? 0 then raise ZeroDivisionError else ret tt) ;;;
  projections <-
    (if split_layout linear_method
     then
       q <- ColumnParallelLinear tp_size hidden qs ;;
       k <- ColumnParallelLinear tp_size hidden kvs ;;
       v <- ColumnParallelLinear tp_size hidden kvs ;;
       ret (false, Some q, Some k, Some v, None)
     else
       qkv <- QKVParallelLinear tp_size hidden hd total_heads total_kv_heads ;;
       ret (true, None, None, None, Some qkv)) ;;
  o <- RowParallelLinear tp_size (total_heads * hd) hidden None ;;
  let neox :=
    match linear_method with
    | None => true
    | Some lm => match rope_style lm with None => true | Some style => style end
    end in
  let '(mw, q, k, v, qkv) := projections in
  ret {| hidden_size := hidden; total_num_heads := total_heads;
         num_heads := heads; total_num_kv_heads := total_kv_heads;
         num_kv_heads := kv_heads; head_dim := hd; q_size := qs; kv_size := kvs;
         merge_weight := mw; q_proj := q; k_proj := k; v_proj := v;
         qkv_proj := qkv; o_proj := o; is_neox_style := neox |}.

Section Forward.
Variable reduce_sum : list (list Q) -> list (list Q).
(** The external collaborators: the cache handles and the request
    metadata are opaque, the rotary encoding and the paged attention
    operator are given. *)
Variables Cache InputMetadata : Type.
Variable rotary_emb :
  list Z -> list (list Q) -> list (list Q) -> list (list Q) * list (list Q).
Variable attn :
  list (list Q) -> list (list Q) -> list (list Q) ->
  Cache -> Cache -> InputMetadata -> list (list Q).

(** [DeepseekAttention.forward]. *)
Definition forward (h : Heap) (self : DeepseekAttention) (positions : list Z)
    (hidden_states : list (list Q)) (kv_cache : Cache * Cache)
    (input_metadata : InputMetadata) : M Log (list (list Q)) :=
  qkv <-
    (if merge_weight self
     then
       l <- getattr "qkv_proj" (qkv_proj self) ;;
       qkv <- apply_linear reduce_sum h l hidden_states ;;
       split3 qkv (Z.to_nat (q_size self)) (Z.to_nat (kv_size self))
         (Z.to_nat (kv_size self))
     else
       lq <- getattr "q_proj" (q_proj self) ;;
       q <- apply_linear reduce_sum h lq hidden_states ;;
       lk <- getattr "k_proj" (k_proj self) ;;
       k <- apply_linear reduce_sum h lk hidden_states ;;
       lv <- getattr "v_proj" (v_proj self) ;;
       v <- apply_linear reduce_sum h lv hidden_states ;;
       ret (q, k, v)) ;;
  let '(q, k, v) := qkv in
  let '(q, k) := rotary_emb positions q k in
  let '(k_cache, v_cache) := kv_cache in
  let attn_output := attn q k v k_cache v_cache input_metadata in
  apply_linear reduce_sum h (o_proj self) attn_output.

End Forward.

End Attention.

Module DecoderLayer.
Local Open Scope py_scope.

(** The feed-forward block a layer holds as [self.mlp]. *)
Inductive FeedForward :=
| Dense (mlp : MLP.DeepseekMLP)
| Sparse (moe : MoE.DeepseekMoE).

Record DeepseekDecoderLayer := {
  self_attn : Attention.DeepseekAttention;
  mlp : FeedForward;
}.

(** The condition of the [if] that picks the feed-forward block:
    [and] evaluates left to right and stops at the first false operand,
    so [%] is reached only past the first two tests. *)
Definition use_moe {S} (cfg : PretrainedConfig) (layer_idx : Z) : M S bool :=
  match Config.n_routed_experts cfg with
  | None => ret false
  | Some _ =>
      if layer_idx >=? first_k_dense_replace cfg
      then r <- lift (pymod layer_idx (moe_layer_freq cfg)) ;; ret (r =? 0)
      else ret false
  end.

(** [DeepseekDecoderLayer.__init__]; the two [RMSNorm] layers hold no
    state the properties below depend on. *)
Definition init (tp_size : Z) (cfg : PretrainedConfig) (layer_idx : Z)
    (linear_method : option LinearMethodBase) : M Heap DeepseekDecoderLayer :=
  attn <- Attention.init tp_size (Config.hidden_size cfg)
            (num_attention_heads cfg) (num_key_value_heads cfg) linear_method ;;
  sparse <- use_moe cfg layer_idx ;;
  ff <- (if sparse : bool
         then m <- MoE.init tp_size cfg linear_method ;; ret (Sparse m)
         else m <- MLP.init tp_size (Config.hidden_size cfg) (intermediate_size cfg)
                     (hidden_act cfg) linear_method true ;;
              ret (Dense m)) ;;
  ret {| self_attn := attn; mlp := ff |}.

(** [DeepseekModel.__init__], the layer stack. *)
Definition init_layers (tp_size : Z) (cfg : PretrainedConfig)
    (linear_method : option LinearMethodBase) : M Heap (list DeepseekDecoderLayer) :=
  for_each (fun layer_idx => init tp_size cfg layer_idx linear_method)
    (range (num_hidden_layers cfg)).

End DecoderLayer.

(* ===================================================================== *)
(** * Vocabulary of the properties *)
(* ===================================================================== *)

(** The error of reading [gate_up_proj] on a block built in split mode. *)
Definition no_gate_up_proj : exn := AttributeError "gate_up_proj".

(** What the constructor of a block built in split mode looks like. *)
Definition split_mode (e : MLP.DeepseekMLP) : Prop :=
  MLP.merge_weight e = false /\ MLP.gate_up_proj e = None /\
  is_Some (MLP.gate_proj e) /\ is_Some (MLP.up_proj e).

(** The configurations the attention constructor accepts. *)
Definition heads_accepted (tp hidden heads kv : Z) : Prop :=
  tp <> 0 /\ heads mod tp = 0 /\
  (if kv >=? tp then kv mod tp = 0 else kv <> 0 /\ tp mod kv = 0) /\
  heads <> 0 /\ hidden / heads <> 0.

(** The condition under which a layer is sparse. *)
Definition sparse_layer (cfg : PretrainedConfig) (layer_idx : Z) : Prop :=
  Config.n_routed_experts cfg <> None /\
  first_k_dense_replace cfg <= layer_idx /\
  (moe_layer_freq cfg | layer_idx).

(** The view lies within its storage. *)
Definition in_bounds (h : Heap) (t : Tensor) : Prop :=
  exists cells, storages h !! t_storage t = Some cells /\
                (t_offset t + numel t <= length cells)%nat.

(** [h'] is reached from [h] by in-place writes through tensor views:
    what weight loading and any later update of a weight do. *)
Inductive in_place (h : Heap) : Heap -> Prop :=
| in_place_refl : in_place h h
| in_place_write h' t i v : in_place h h' -> in_place h (write h' t i v).

(** [h'] has everything [h] has: construction only adds storages and
    parameters. *)
Definition extends (h h' : Heap) : Prop :=
  (forall a cells, storages h !! a = Some cells -> storages h' !! a = Some cells) /\
  (forall p t, param_data h !! p = Some t -> param_data h' !! p = Some t).

(** The parameter is bound to an in-bounds tensor of the given shape. *)
Definition has_param (h : Heap) (shape : list nat) (p : nat) : Prop :=
  exists t, param_data h !! p = Some t /\ t_shape t = shape /\ in_bounds h t.

(** The weight parameters [pack_params] collects from an expert. *)
Definition gate_up_weight (e : MLP.DeepseekMLP) : nat :=
  match MLP.gate_up_proj e with
  | Some gu => weight gu
  | None => 0%nat
  end.
Definition down_weight (e : MLP.DeepseekMLP) : nat := weight (MLP.down_proj e).

(** The shapes of a fused dense block's two weights. *)
Definition gate_up_shape (tp hs isz : Z) : list nat :=
  dims (isz / tp + (isz / tp + 0)) hs.
Definition down_shape (tp hs isz : Z) : list nat := dims hs (isz / tp).

Section ForwardVocabulary.
Variable exp : Q -> Q.
Variable reduce_sum : list (list Q) -> list (list Q).
Variables Cache InputMetadata : Type.
Variable rotary_emb :
  list Z -> list (list Q) -> list (list Q) -> list (list Q) * list (list Q).
Variable attn :
  list (list Q) -> list (list Q) -> list (list Q) ->
  Cache -> Cache -> InputMetadata -> list (list Q).

(** The part of the sparse block's forward pass after the shared
    experts: router, routing, fused kernel, sum and all-reduce. *)
Definition after_shared (h : Heap) (self : MoE.DeepseekMoE)
    (hidden_states : list (list Q)) (shared_output : option (list (list Q)))
  : M Log (list (list Q)) :=
  bind (apply_linear reduce_sum h (MoE.gate self) hidden_states)
    (fun router_logits =>
       bind (for_each
               (MoE.route exp (MoE.top_k self)
                  (norm_topk_prob (MoE.config self)))
               router_logits)
         (fun routed =>
            tensor_model_parallel_all_reduce reduce_sum
              (match shared_output with
               | Some y =>
                   add_batch
                     (MoE.fused_moe exp h hidden_states (MoE.w1 self)
                        (MoE.w2 self) (map fst routed) (map snd routed)) y
               | None =>
                   MoE.fused_moe exp h hidden_states (MoE.w1 self)
                     (MoE.w2 self) (map fst routed) (map snd routed)
               end))).

(** The attention block as the specification words it, for either
    mode: the three projections, the rotary encoding of the query and
    the key, the attention operator on these and the value as
    projected, the output projection. *)
Definition attention_spec (Wq Wk Wv Wo : list (list Q)) (positions : list Z)
    (x : list (list Q)) (kv_cache : Cache * Cache) (meta : InputMetadata)
  : list (list Q) :=
  let q := map (matvec Wq) x in
  let k := map (matvec Wk) x in
  let v := map (matvec Wv) x in
  let '(q', k') := rotary_emb positions q k in
  map (matvec Wo) (attn q' k' v (fst kv_cache) (snd kv_cache) meta).

End ForwardVocabulary.
Arguments attention_spec {Cache InputMetadata} rotary_emb attn Wq Wk Wv Wo
  positions x kv_cache meta.

(* ===================================================================== *)
(** * Small configurations to run the model on *)
(* ===================================================================== *)

Definition demo_config : PretrainedConfig :=
  {| Config.hidden_size := 8; intermediate_size := 4; moe_intermediate_size := 2;
     Config.n_routed_experts := Some 2; n_shared_experts := Some 2;
     num_experts_per_tok := 1; norm_topk_prob := true;
     first_k_dense_replace := 1; moe_layer_freq := 1; hidden_act := "silu";
     num_attention_heads := 4; num_key_value_heads := 1;
     num_hidden_layers := 2 |}.

(** A backend that disallows fused layouts. *)
Definition split_backend : option LinearMethodBase :=
  Some {| merge_weight_allowed := false; rope_style := None |}.

(** A dense block of width 2 in each mode, and the heaps after loading
    the same gate, up and down weights into each. *)
Definition demo_fused_init : result MLP.DeepseekMLP * Heap :=
  MLP.init 1 2 2 "silu" None true empty_heap.

Definition demo_split_init : result MLP.DeepseekMLP * Heap :=
  MLP.init 1 2 2 "silu" split_backend true empty_heap.

Definition demo_fused_heap : Heap :=
  default_weight_loader
    (default_weight_loader (snd demo_fused_init) 0
       [1; 2; 3; 4; 5; 6; 7; 8]%Q)
    1 [1; 0; 0; 1]%Q.

Definition demo_split_heap : Heap :=
  default_weight_loader
    (default_weight_loader
       (default_weight_loader (snd demo_split_init) 0 [1; 2; 3; 4]%Q)
       1 [5; 6; 7; 8]%Q)
    2 [1; 0; 0; 1]%Q.

(** Stand-ins for the external operators. *)
Definition demo_rotary (positions : list Z) (q k : list (list Q))
  : list (list Q) * list (list Q) := (q, k).

Definition demo_attn (q k v : list (list Q)) (k_cache v_cache : unit)
    (meta : unit) : list (list Q) := v.

(* ===================================================================== *)
(** * Further configurations and vocabulary *)
(* ===================================================================== *)

(** A row whose fused name is longer than the name it replaces. *)
Definition row_lengthens (row : string * string * Loader.shard_id) : bool :=
  let '(param_name, weight_name, _) := row in
  match weight_name with
  | EmptyString => false
  | String _ _ => (String.length weight_name <? String.length param_name)%nat
  end.

(** The small configuration with another activation, and with a zero
    layer frequency. *)
Definition gelu_config : PretrainedConfig :=
  {| Config.hidden_size := 8; intermediate_size := 4; moe_intermediate_size := 2;
     Config.n_routed_experts := Some 2; n_shared_experts := Some 2;
     num_experts_per_tok := 1; norm_topk_prob := true;
     first_k_dense_replace := 1; moe_layer_freq := 1; hidden_act := "gelu";
     num_attention_heads := 4; num_key_value_heads := 1;
     num_hidden_layers := 2 |}.

Definition zero_freq_config : PretrainedConfig :=
  {| Config.hidden_size := 8; intermediate_size := 4; moe_intermediate_size := 2;
     Config.n_routed_experts := Some 2; n_shared_experts := Some 2;
     num_experts_per_tok := 1; norm_topk_prob := true;
     first_k_dense_replace := 1; moe_layer_freq := 0; hidden_act := "silu";
     num_attention_heads := 4; num_key_value_heads := 1;
     num_hidden_layers := 2 |}.

(** The small configuration asking for more experts per token than
    there are routed experts. *)
Definition greedy_config : PretrainedConfig :=
  {| Config.hidden_size := 8; intermediate_size := 4; moe_intermediate_size := 2;
     Config.n_routed_experts := Some 2; n_shared_experts := Some 2;
     num_experts_per_tok := 3; norm_topk_prob := true;
     first_k_dense_replace := 1; moe_layer_freq := 1; hidden_act := "silu";
     num_attention_heads := 4; num_key_value_heads := 1;
     num_hidden_layers := 2 |}.

(* ===================================================================== *)
(** * The forward pass of a decoder layer and of the layer stack *)
(* ===================================================================== *)

(** [for x in xs: state = f(state, x)], stopping at the first raise. *)
Fixpoint for_fold {S A B} (f : B -> A -> M S B) (xs : list A) (state : B)
  : M S B :=
  match xs with
  | [] => ret state
  | x :: rest => bind (f state x) (for_fold f rest)
  end.

(** [xs[i]] for a non-negative [i]. *)
Definition index {S A} (xs : list A) (i : nat) : M S A :=
  match xs !! i with
  | Some x => ret x
  | None => raise IndexError
  end.

Module LayerForward.
Import DecoderLayer.
Local Open Scope py_scope.

(** Modelled from the spec: [RMSNorm] is not in the source file.  Called
    on the hidden states alone it normalises them; called with a
    residual it is the fused add-norm: the new residual is the sum of
    the hidden states and the residual, and the output is the
    normalisation of that sum.  [norm] is the layer's normalisation of
    one token's vector. *)
Definition RMSNorm (norm : list Q -> list Q) (x : list (list Q))
  : list (list Q) :=
  map norm x.

Definition RMSNorm_residual (norm : list Q -> list Q)
    (x residual : list (list Q)) : list (list Q) * list (list Q) :=
  let residual := add_batch x residual in
  (map norm residual, residual).

(** A decoder layer with the normalisations of its two [RMSNorm]
    layers, which the constructor's model leaves out. *)
Record Normed := {
  layer : DeepseekDecoderLayer;
  input_layernorm : list Q -> list Q;
  post_attention_layernorm : list Q -> list Q;
}.

Section Forward.
Variable exp : Q -> Q.
Variable reduce_sum : list (list Q) -> list (list Q).
Variables Cache InputMetadata : Type.
Variable rotary_emb :
  list Z -> list (list Q) -> list (list Q) -> list (list Q) * list (list Q).
Variable attn :
  list (list Q) -> list (list Q) -> list (list Q) ->
  Cache -> Cache -> InputMetadata -> list (list Q).

(** [self.mlp(hidden_states)]: the block chosen at construction. *)
Definition feed_forward (h : Heap) (ff : FeedForward) (x : list (list Q))
  : M Log (list (list Q)) :=
  match ff with
  | Dense m => MLP.forward exp reduce_sum h m x
  | Sparse moe => MoE.forward exp reduce_sum h moe x
  end.

(** [DeepseekDecoderLayer.forward]. *)
Definition forward (h : Heap) (self : Normed) (positions : list Z)
    (hidden_states : list (list Q)) (kv_cache : Cache * Cache)
    (input_metadata : InputMetadata) (residual : option (list (list Q)))
  : M Log (list (list Q) * list (list Q)) :=
  let '(hidden_states, residual) :=
    match residual with
    | None => (RMSNorm (input_layernorm self) hidden_states, hidden_states)
    | Some residual =>
        RMSNorm_residual (input_layernorm self) hidden_states residual
    end in
  hidden_states <-
    Attention.forward reduce_sum Cache InputMetadata rotary_emb attn h
      (self_attn (layer self)) positions hidden_states kv_cache
      input_metadata ;;
  let '(hidden_states, residual) :=
    RMSNorm_residual (post_attention_layernorm self) hidden_states residual in
  hidden_states <- feed_forward h (mlp (layer self)) hidden_states ;;
  ret (hidden_states, residual).

(** [DeepseekModel.forward], the loop over the layers (lines 404 to
    409): the hidden states and the residual go from each layer to the
    next, the residual starting as [None]. *)
Definition forward_layers (h : Heap) (layers : list Normed) (positions : list Z)
    (kv_caches : list (Cache * Cache)) (input_metadata : InputMetadata)
    (hidden_states : list (list Q))
  : M Log (list (list Q) * option (list (list Q))) :=
  for_fold
    (fun (state : list (list Q) * option (list (list Q))) (i : nat) =>
       let '(hidden_states, residual) := state in
       layer <- index layers i ;;
       kv_cache <- index kv_caches i ;;
       out <- forward h layer positions hidden_states kv_cache input_metadata
                residual ;;
       ret (fst out, Some (snd out)))
    (seq 0 (length layers))
    (hidden_states, None).

End Forward.

End LayerForward.

(** The layer was built by the constructor for some position. *)
Definition constructed_layer (tp : Z) (cfg : PretrainedConfig)
    (lm : option LinearMethodBase) (l : LayerForward.Normed) : Prop :=
  exists layer_idx h h',
    DecoderLayer.init tp cfg layer_idx lm h = (Ok (LayerForward.layer l), h').

(** The residual a layer works with once its input normalisation is
    done. *)
Definition residual_in (x : list (list Q)) (residual : option (list (list Q)))
  : list (list Q) :=
  match residual with
  | None => x
  | Some r => add_batch x r
  end.

(** Two layers of the small configuration with the identity for their
    normalisations. *)
Definition demo_layers : list LayerForward.Normed :=
  match DecoderLayer.init_layers 1 demo_config None empty_heap with
  | (Ok layers, _) =>
      map (fun l => {| LayerForward.layer := l;
                       LayerForward.input_layernorm := fun row => row;
                       LayerForward.post_attention_layernorm := fun row => row |})
        layers
  | (Raise _, _) => []
  end.

Definition demo_layers_heap : Heap :=
  snd (DecoderLayer.init_layers 1 demo_config None empty_heap).






(* ===================================================================== *)
(** * Routing in float32 *)
(* ===================================================================== *)

(** Lines 176 to 182 on the tensors' own number type: [dtype=torch.float]
    is IEEE 754 binary32, 24 bits of precision and exponents below 128,
    every operation rounded to nearest, ties to even. *)
Module Float32.
Local Open Scope py_scope.

Definition float32 : Type := spec_float.

Definition fsub : float32 -> float32 -> float32 := SFsub 24 128.
Definition fdiv : float32 -> float32 -> float32 := SFdiv 24 128.
Definition fleb : float32 -> float32 -> bool := SFleb.
Definition fltb : float32 -> float32 -> bool := SFltb.
Definition nan : float32 := S754_nan.



(** [row.max()]. *)
Definition fmax (row : list float32) : float32 :=
  match row with
  | [] => nan
  | x :: rest => fold_left (fun m y => if fltb m y then y else m) rest x
  end.


(** Insertion into a list kept in descending order of value; among
    equal values the entry inserted later comes first. *)
Fixpoint insert_desc (p : float32 * nat) (l : list (float32 * nat))
  : list (float32 * nat) :=
  match l with
  | [] => [p]
  | q :: rest =>
      if fleb (fst q) (fst p) then p :: q :: rest
      else q :: insert_desc p rest
  end.

Definition sort_desc (l : list (float32 * nat)) : list (float32 * nat) :=
  fold_right insert_desc [] l.

Definition indexed (row : list float32) : list (float32 * nat) :=
  zip row (seq 0 (length row)).

(** [torch.topk(row, k, dim=-1)]. *)
Definition topk {S} (k : Z) (row : list float32) : M S (list float32 * list nat) :=
  if ((k <? 0) || (Z.of_nat (length row) <? k))%Z
  then raise (RuntimeError "selected index k out of range")
  else
    let best := take (Z.to_nat k) (sort_desc (indexed row)) in
    ret (map fst best, map snd best).

Section Routing.
(** The exponential of the floating-point library, and the sum
    reduction, whose order of accumulation is the kernel's. *)
Variable expf : float32 -> float32.
Variable sum : list float32 -> float32.

(** [F.softmax(row, dim=-1, dtype=torch.float)], in the form that
    subtracts the row's maximum before exponentiating. *)
Definition softmax (row : list float32) : list float32 :=
  let m := fmax row in
  let es := map (fun x => expf (fsub x m)) row in
  let total := sum es in
  map (fun e => fdiv e total) es.

(** The routing of one token, lines 176 to 182. *)
Definition route (k : Z) (norm : bool) (router_logits : list float32)
  : M Log (list float32 * list nat) :=
  let routing_weights := softmax router_logits in
  picked <- topk k routing_weights ;;
  let '(routing_weights, selected_experts) := picked in
  let routing_weights :=
    if norm
    then map (fun w => fdiv w (sum routing_weights)) routing_weights
    else routing_weights in
  ret (routing_weights, selected_experts).

End Routing.


End Float32.






(* ===================================================================== *)
(** * Properties *)
(* ===================================================================== *)

(** ** Running constructors *)

(** Unfolds the plumbing of [M] in the goal. *)
Ltac run_M :=
  unfold bind, ret, raise, lift, assert, getattr in *; simpl in *.

Lemma bind_ok {S A B} (c : M S A) (k : A -> M S B) s a s' :
  c s = (Ok a, s') -> bind c k s = k a s'.
Proof. intros H. unfold bind. now rewrite H. Qed.

Lemma bind_raise {S A B} (c : M S A) (k : A -> M S B) s e s' :
  c s = (Raise e, s') -> bind c k s = (Raise e, s').
Proof. intros H. unfold bind. now rewrite H. Qed.

(** A bind that returns has run both of its parts. *)
Lemma bind_inv_ok {S A B} (c : M S A) (k : A -> M S B) s b s2 :
  bind c k s = (Ok b, s2) ->
  exists a s1, c s = (Ok a, s1) /\ k a s1 = (Ok b, s2).
Proof.
  unfold bind. destruct (c s) as [[a|e] s1]; intros H.
  - now exists a, s1.
  - discriminate.
Qed.

(** [for_each] that returns has returned on every element. *)
Lemma for_each_ok_length {S A B} (f : A -> M S B) xs s ys s' :
  for_each f xs s = (Ok ys, s') -> length ys = length xs.
Proof.
  revert s ys s'. induction xs as [|x xs IH]; simpl; intros s ys s' H.
  - inversion H. reflexivity.
  - apply bind_inv_ok in H as (y & s1 & _ & H).
    apply bind_inv_ok in H as (ys' & s2 & Hrest & H).
    inversion H; subst. simpl. f_equal. eauto.
Qed.

(** What holds of every result of [f] holds of all of [for_each f]. *)
Lemma for_each_ok_Forall {S A B} (f : A -> M S B) (P : B -> Prop) xs s ys s' :
  (forall x s1 y s2, f x s1 = (Ok y, s2) -> P y) ->
  for_each f xs s = (Ok ys, s') -> Forall P ys.
Proof.
  intros Hf. revert s ys s'.
  induction xs as [|x xs IH]; simpl; intros s ys s' H.
  - inversion H. constructor.
  - apply bind_inv_ok in H as (y & s1 & Hy & H).
    apply bind_inv_ok in H as (ys' & s2 & Hrest & H).
    inversion H; subst. constructor; eauto.
Qed.

(** ** The dense block's constructor *)

Lemma MLP_init_silu tp hs isz lm rr h :
  exists m h',
    MLP.init tp hs isz "silu" lm rr h = (Ok m, h') /\
    MLP.merge_weight m = negb (split_layout lm) /\
    reduce_results (MLP.down_proj m) = rr /\
    class (MLP.down_proj m) = RowParallel /\
    (if split_layout lm
     then MLP.gate_up_proj m = None /\
          (exists g, MLP.gate_proj m = Some g /\ reduce_results g = false) /\
          (exists u, MLP.up_proj m = Some u /\ reduce_results u = false)
     else exists gu, MLP.gate_up_proj m = Some gu /\ reduce_results gu = false).
Proof.
  unfold MLP.init, ColumnParallelLinear, MergedColumnParallelLinear,
    RowParallelLinear, new_parameter.
  destruct (split_layout lm); run_M; do 2 eexists;
    (split; [reflexivity|]); simpl; repeat split; eauto.
Qed.

Lemma MLP_init_other_act tp hs isz act lm rr h :
  act <> "silu"%string ->
  exists h', MLP.init tp hs isz act lm rr h = (Raise unsupported_activation, h').
Proof.
  intros Hact. apply String.eqb_neq in Hact.
  unfold MLP.init, ColumnParallelLinear, MergedColumnParallelLinear,
    RowParallelLinear, new_parameter.
  destruct (split_layout lm); run_M; rewrite Hact; simpl; eauto.
Qed.

(** The constructor can only return for the activation ["silu"]. *)
Lemma MLP_init_ok_silu tp hs isz act lm rr h m h' :
  MLP.init tp hs isz act lm rr h = (Ok m, h') -> act = "silu"%string.
Proof.
  intros H. destruct (String.eqb_spec act "silu") as [-> | Hne]; [reflexivity|].
  destruct (MLP_init_other_act tp hs isz act lm rr h Hne) as (h2 & H2).
  congruence.
Qed.

Lemma MLP_init_ok_inv tp hs isz act lm rr h m h' :
  MLP.init tp hs isz act lm rr h = (Ok m, h') ->
  MLP.merge_weight m = negb (split_layout lm) /\
  reduce_results (MLP.down_proj m) = rr /\
  (if split_layout lm
   then MLP.gate_up_proj m = None /\
        (exists g, MLP.gate_proj m = Some g /\ reduce_results g = false) /\
        (exists u, MLP.up_proj m = Some u /\ reduce_results u = false)
   else exists gu, MLP.gate_up_proj m = Some gu /\ reduce_results gu = false).
Proof.
  intros H. pose proof (MLP_init_ok_silu _ _ _ _ _ _ _ _ _ H) as ->.
  destruct (MLP_init_silu tp hs isz lm rr h) as (m' & h2 & E & A & B & _ & C).
  rewrite E in H. inversion H; subst. auto.
Qed.

(** [for_each] returns when its body always does. *)
Lemma for_each_total {S A B} (f : A -> M S B) xs s :
  (forall x s1, exists y s2, f x s1 = (Ok y, s2)) ->
  exists ys s', for_each f xs s = (Ok ys, s').
Proof.
  intros Hf. revert s. induction xs as [|x xs IH]; simpl; intros s.
  - now exists [], s.
  - destruct (Hf x s) as (y & s1 & Hy).
    destruct (IH s1) as (ys & s2 & Hys).
    exists (y :: ys), s2.
    rewrite (bind_ok _ _ _ _ _ Hy), (bind_ok _ _ _ _ _ Hys). reflexivity.
Qed.

(** ** The sparse block's constructor *)

(** Packing stops at the first expert without a fused projection; no
    parameter has been touched by then. *)
Lemma pack_params_split_mode e es h :
  MLP.gate_up_proj e = None ->
  MoE.pack_params (e :: es) h = (Raise no_gate_up_proj, h).
Proof.
  intros He. unfold MoE.pack_params. simpl. run_M. now rewrite He.
Qed.

Lemma pack_params_no_expert h :
  is_ok (fst (MoE.pack_params [] h)) = false.
Proof. reflexivity. Qed.

Lemma range_nonempty n : 1 <= n -> range n <> [].
Proof.
  intros Hn. unfold range.
  destruct (Z.to_nat n) as [|k] eqn:E; [lia|]. simpl. discriminate.
Qed.

(** C9. Constructing the sparse block with more tensor-parallel workers
    than routed experts raises the configuration error and leaves the
    heap as it was, so no expert has been built by then; constructing
    the dense block with an activation other than ["silu"] raises the
    unsupported-activation error. *)
Theorem construction_rejects_bad_configuration
    (tp n : Z) (cfg : PretrainedConfig) (lm : option LinearMethodBase) (h : Heap)
    (tp' hs isz : Z) (act : string) (lm' : option LinearMethodBase) (rr : bool)
    (h' : Heap) :
  Config.n_routed_experts cfg = Some n ->
  tp > n ->
  act <> "silu"%string ->
  MoE.init tp cfg lm h = (Raise too_many_workers, h) /\
  fst (MLP.init tp' hs isz act lm' rr h') = Raise unsupported_activation.
Proof.
  intros Hn Htp Hact. split.
  - unfold MoE.init. rewrite Hn. run_M.
    destruct (tp >? n) eqn:E; [reflexivity | lia].
  - destruct (MLP_init_other_act tp' hs isz act lm' rr h' Hact) as (h2 & ->).
    reflexivity.
Qed.

Lemma construction_rejects_bad_configuration_witness :
  MoE.init 4 demo_config None empty_heap = (Raise too_many_workers, empty_heap) /\
  fst (MLP.init 1 8 4 "gelu" None true empty_heap) = Raise unsupported_activation.
Proof.
  apply (construction_rejects_bad_configuration 4 2 demo_config None empty_heap
           1 8 4 "gelu" None true empty_heap).
  - reflexivity.
  - lia.
  - discriminate.
Defined.

Lemma MLP_init_split_mode tp hs isz act lm rr h m h' :
  split_layout lm = true ->
  MLP.init tp hs isz act lm rr h = (Ok m, h') -> split_mode m.
Proof.
  intros Hs H. apply MLP_init_ok_inv in H as (A & _ & C).
  rewrite Hs in A, C. destruct C as (C1 & (g & C2 & _) & (u & C3 & _)).
  unfold split_mode. rewrite C2, C3. eauto.
Qed.

(** C10. With a quantization backend that disallows fused layouts the
    sparse block cannot be constructed: whatever the configuration, its
    constructor raises; when the configuration is otherwise valid every
    expert is built in split mode, without a [gate_up_proj], and
    [pack_params] raises on reading that attribute.  The dense block
    itself is constructed in split mode without error. *)
Theorem moe_requires_fused_layout
    (tp : Z) (cfg : PretrainedConfig) (lm : option LinearMethodBase) (h : Heap) :
  split_layout lm = true ->
  is_ok (fst (MoE.init tp cfg lm h)) = false /\
  (forall n, Config.n_routed_experts cfg = Some n -> 1 <= tp <= n ->
     hidden_act cfg = "silu"%string ->
     exists es h1,
       for_each (fun _ : Z =>
                   MLP.init tp (Config.hidden_size cfg) (moe_intermediate_size cfg)
                     (hidden_act cfg) lm false) (range n) h = (Ok es, h1) /\
       es <> [] /\ Forall split_mode es /\
       MoE.pack_params es h1 = (Raise no_gate_up_proj, h1) /\
       MoE.init tp cfg lm h = (Raise no_gate_up_proj, h1)) /\
  (forall hs isz rr h0, exists m h',
     MLP.init tp hs isz "silu" lm rr h0 = (Ok m, h') /\ split_mode m).
Proof.
  intros Hsplit.
  assert (Hbuilt : forall n es h1,
            for_each (fun _ : Z =>
                   MLP.init tp (Config.hidden_size cfg) (moe_intermediate_size cfg)
                     (hidden_act cfg) lm false) (range n) h = (Ok es, h1) ->
            Forall split_mode es).
  { intros n es h1 H. eapply for_each_ok_Forall; [|exact H].
    intros x s1 y s2 Hy. simpl in Hy. eapply MLP_init_split_mode; eauto. }
  split; [|split].
  - unfold MoE.init. destruct (Config.n_routed_experts cfg) as [n|]; [|reflexivity].
    unfold bind at 1. unfold ret at 1.
    destruct (tp >? n); [reflexivity|].
    destruct (for_each
                (fun _ : Z =>
                   MLP.init tp (Config.hidden_size cfg) (moe_intermediate_size cfg)
                     (hidden_act cfg) lm false) (range n) h)
      as [[es|e] h1] eqn:E;
      [|now rewrite (bind_raise _ _ _ _ _ E)].
    rewrite (bind_ok _ _ _ _ _ E).
    apply Hbuilt in E. destruct es as [|e es].
    + unfold bind at 1. reflexivity.
    + inversion E as [|? ? (_ & Hgu & _) _]; subst.
      now rewrite (bind_raise _ _ _ _ _ (pack_params_split_mode e es h1 Hgu)).
  - intros n Hn Htp Hact.
    destruct (for_each_total
                (fun _ : Z =>
                   MLP.init tp (Config.hidden_size cfg) (moe_intermediate_size cfg)
                     (hidden_act cfg) lm false) (range n) h) as (es & h1 & E).
    { intros x s1. rewrite Hact.
      destruct (MLP_init_silu tp (Config.hidden_size cfg)
                  (moe_intermediate_size cfg) lm false s1) as (m & s2 & Hm & _).
      eauto. }
    exists es, h1. pose proof (Hbuilt _ _ _ E) as Hall.
    assert (Hne : es <> []).
    { intros ->. apply for_each_ok_length in E. simpl in E.
      apply (range_nonempty n); [lia|]. now apply length_zero_iff_nil. }
    destruct es as [|e es]; [congruence|].
    inversion Hall as [|? ? (_ & Hgu & _) _]; subst.
    pose proof (pack_params_split_mode e es h1 Hgu) as Hp.
    repeat split; auto.
    unfold MoE.init. rewrite Hn. unfold bind at 1. unfold ret at 1.
    destruct (tp >? n) eqn:Etp; [lia|].
    rewrite (bind_ok _ _ _ _ _ E). now rewrite (bind_raise _ _ _ _ _ Hp).
  - intros hs isz rr h0.
    destruct (MLP_init_silu tp hs isz lm rr h0) as (m & h' & Hm & A & _ & _ & C).
    exists m, h'. split; [exact Hm|].
    eapply MLP_init_split_mode; eauto.
Qed.

Lemma moe_requires_fused_layout_witness :
  is_ok (fst (MoE.init 2 demo_config split_backend empty_heap)) = false /\
  (forall n, Config.n_routed_experts demo_config = Some n -> 1 <= 2 <= n ->
     hidden_act demo_config = "silu"%string ->
     exists es h1,
       for_each (fun _ : Z =>
                   MLP.init 2 (Config.hidden_size demo_config)
                     (moe_intermediate_size demo_config)
                     (hidden_act demo_config) split_backend false)
         (range n) empty_heap = (Ok es, h1) /\
       es <> [] /\ Forall split_mode es /\
       MoE.pack_params es h1 = (Raise no_gate_up_proj, h1) /\
       MoE.init 2 demo_config split_backend empty_heap
       = (Raise no_gate_up_proj, h1)) /\
  (forall hs isz rr h0, exists m h',
     MLP.init 2 hs isz "silu" split_backend rr h0 = (Ok m, h') /\ split_mode m).
Proof.
  apply (moe_requires_fused_layout 2 demo_config split_backend empty_heap).
  reflexivity.
Defined.

(** ** The attention block's constructor *)

Lemma Attention_init_ok_inv tp hidden heads kv lm h a h' :
  Attention.init tp hidden heads kv lm h = (Ok a, h') ->
  heads_accepted tp hidden heads kv /\
  Attention.total_num_heads a = heads /\
  Attention.num_heads a = heads / tp /\
  Attention.total_num_kv_heads a = kv /\
  Attention.num_kv_heads a = Z.max 1 (kv / tp) /\
  Attention.head_dim a = hidden / heads /\
  Attention.q_size a = (heads / tp) * (hidden / heads) /\
  Attention.kv_size a = Z.max 1 (kv / tp) * (hidden / heads) /\
  Attention.merge_weight a = negb (split_layout lm) /\
  reduce_results (Attention.o_proj a) = true.
Proof.
  unfold Attention.init, heads_accepted, pymod, floordiv.
  unfold bind, lift, assert, ret, raise.
  destruct (tp =? 0) eqn:Etp; [discriminate|].
  destruct (heads mod tp =? 0) eqn:Eh; [|discriminate].
  destruct (kv >=? tp) eqn:Ekv.
  - destruct (kv mod tp =? 0) eqn:Ek; [|discriminate].
    destruct (heads =? 0) eqn:Eh0; [discriminate|].
    destruct (hidden / heads =? 0) eqn:Ehd; [discriminate|].
    unfold ColumnParallelLinear, QKVParallelLinear, RowParallelLinear,
      new_parameter, bind, ret.
    destruct (split_layout lm); simpl; intros H; inversion H; subst; simpl;
      repeat split; try reflexivity; lia.
  - destruct (kv =? 0) eqn:Ek0; [discriminate|].
    destruct (tp mod kv =? 0) eqn:Ek; [|discriminate].
    destruct (heads =? 0) eqn:Eh0; [discriminate|].
    destruct (hidden / heads =? 0) eqn:Ehd; [discriminate|].
    unfold ColumnParallelLinear, QKVParallelLinear, RowParallelLinear,
      new_parameter, bind, ret.
    destruct (split_layout lm); simpl; intros H; inversion H; subst; simpl;
      repeat split; try reflexivity; lia.
Qed.

Lemma Attention_init_total tp hidden heads kv lm h :
  heads_accepted tp hidden heads kv ->
  exists a h', Attention.init tp hidden heads kv lm h = (Ok a, h').
Proof.
  intros (Htp & Hh & Hkv & Hh0 & Hhd).
  unfold Attention.init, pymod, floordiv.
  unfold bind, lift, assert, ret, raise.
  apply Z.eqb_neq in Htp, Hh0, Hhd. apply Z.eqb_eq in Hh.
  rewrite Htp, Hh. destruct (kv >=? tp) eqn:Ekv.
  - apply Z.eqb_eq in Hkv. rewrite Hkv, Hh0, Hhd.
    unfold ColumnParallelLinear, QKVParallelLinear, RowParallelLinear,
      new_parameter, bind, ret.
    destruct (split_layout lm); simpl; eauto.
  - destruct Hkv as (Hk0 & Hk). apply Z.eqb_neq in Hk0. apply Z.eqb_eq in Hk.
    rewrite Hk0, Hk, Hh0, Hhd.
    unfold ColumnParallelLinear, QKVParallelLinear, RowParallelLinear,
      new_parameter, bind, ret.
    destruct (split_layout lm); simpl; eauto.
Qed.

(** A configuration that is not accepted raises. *)
Lemma Attention_init_rejects tp hidden heads kv lm h :
  ~ heads_accepted tp hidden heads kv ->
  exists e h', Attention.init tp hidden heads kv lm h = (Raise e, h').
Proof.
  intros Hno.
  destruct (Attention.init tp hidden heads kv lm h) as [[a|e] h'] eqn:E; [|eauto].
  apply Attention_init_ok_inv in E as (Hacc & _). contradiction.
Qed.

(** C7. With at least one worker and a non-negative head count, the
    attention block is constructed only when the total heads and the
    total key/value heads are each either a multiple of the worker count
    or a divisor of it; any other configuration raises at construction.
    In every accepted configuration the per-worker head count times the
    worker count is the total head count, the per-worker head count and
    key/value head count are at least 1, and the latter is
    [max(1, total_kv_heads // workers)]. *)
Theorem attention_head_partition
    (tp hidden heads kv : Z) (lm : option LinearMethodBase) (h : Heap) :
  1 <= tp -> 0 <= heads ->
  (~ (((tp | heads) \/ (heads | tp)) /\ ((tp | kv) \/ (kv | tp))) ->
   exists e h', Attention.init tp hidden heads kv lm h = (Raise e, h')) /\
  (forall a h',
     Attention.init tp hidden heads kv lm h = (Ok a, h') ->
     ((tp | heads) \/ (heads | tp)) /\ ((tp | kv) \/ (kv | tp)) /\
     Attention.num_heads a * tp = heads /\
     1 <= Attention.num_heads a /\
     1 <= Attention.num_kv_heads a /\
     Attention.num_kv_heads a = Z.max 1 (kv / tp)).
Proof.
  intros Htp Hheads.
  assert (Hok : forall a h',
     Attention.init tp hidden heads kv lm h = (Ok a, h') ->
     ((tp | heads) \/ (heads | tp)) /\ ((tp | kv) \/ (kv | tp)) /\
     Attention.num_heads a * tp = heads /\
     1 <= Attention.num_heads a /\
     1 <= Attention.num_kv_heads a /\
     Attention.num_kv_heads a = Z.max 1 (kv / tp)).
  { intros a h' H.
    apply Attention_init_ok_inv in H
      as ((_ & Hh & Hkv & Hh0 & _) & _ & Hnh & _ & Hnkv & _).
    assert (Hdiv : (tp | heads)) by (apply Z.mod_divide; [lia | exact Hh]).
    assert (Hmul : heads / tp * tp = heads).
    { destruct Hdiv as (q & ->). rewrite Z.div_mul by lia. reflexivity. }
    repeat split.
    - now left.
    - destruct (kv >=? tp).
      + left. apply Z.mod_divide; [lia | exact Hkv].
      + right. destruct Hkv as (Hk0 & Hk). apply Z.mod_divide; [lia | exact Hk].
    - now rewrite Hnh.
    - rewrite Hnh. nia.
    - rewrite Hnkv. lia.
    - exact Hnkv. }
  split; [|exact Hok].
  intros Hno.
  destruct (Attention.init tp hidden heads kv lm h) as [[a|e] h'] eqn:E; [|eauto].
  exfalso. apply Hno. destruct (Hok a h' eq_refl) as (A & B & _). now split.
Qed.

Lemma attention_head_partition_witness :
  exists a h',
    Attention.init 2 8 4 1 None empty_heap = (Ok a, h') /\
    ((2 | 4) \/ (4 | 2)) /\ ((2 | 1) \/ (1 | 2)) /\
    Attention.num_heads a * 2 = 4 /\
    1 <= Attention.num_heads a /\
    1 <= Attention.num_kv_heads a /\
    Attention.num_kv_heads a = Z.max 1 (1 / 2).
Proof.
  destruct (Attention.init 2 8 4 1 None empty_heap) as [[a|e] h'] eqn:E;
    [|vm_compute in E; discriminate].
  exists a, h'. split; [reflexivity|].
  refine (proj2 (attention_head_partition 2 8 4 1 None empty_heap _ _) a h' E); lia.
Defined.

(** ** The decoder layer's constructor *)

Lemma use_moe_spec {S} cfg layer_idx (s : S) b s' :
  DecoderLayer.use_moe cfg layer_idx s = (Ok b, s') ->
  s' = s /\ (b = true <-> sparse_layer cfg layer_idx).
Proof.
  unfold DecoderLayer.use_moe, sparse_layer, pymod, bind, lift, ret.
  destruct (Config.n_routed_experts cfg) as [n|].
  - destruct (layer_idx >=? first_k_dense_replace cfg) eqn:Ege.
    + destruct (moe_layer_freq cfg =? 0) eqn:Ef; [discriminate|].
      intros H. inversion H; subst. split; [reflexivity|].
      apply Z.eqb_neq in Ef. rewrite Z.eqb_eq, Z.mod_divide by exact Ef.
      split; [intros Hd; repeat split; [discriminate | lia | exact Hd] | tauto].
    + intros H. inversion H; subst. split; [reflexivity|].
      split; [discriminate | intros (_ & Hge & _); lia].
  - intros H. inversion H; subst. split; [reflexivity|].
    split; [discriminate | intros (Hn & _); congruence].
Qed.

(** With a non-zero frequency the condition is always evaluated. *)
Lemma use_moe_total {S} cfg layer_idx (s : S) :
  moe_layer_freq cfg <> 0 ->
  exists b, DecoderLayer.use_moe cfg layer_idx s = (Ok b, s).
Proof.
  intros Hf. apply Z.eqb_neq in Hf.
  unfold DecoderLayer.use_moe, pymod, bind, lift, ret.
  destruct (Config.n_routed_experts cfg); [|eauto].
  destruct (layer_idx >=? first_k_dense_replace cfg); [|eauto].
  rewrite Hf. eauto.
Qed.

(** C6. With a non-zero [moe_layer_freq] the test that picks the
    feed-forward block always evaluates, to true exactly when routed
    experts are configured, the layer index is at least
    [first_k_dense_replace] and the index is a multiple of
    [moe_layer_freq]; a decoder layer that is constructed holds the
    sparse block in that case and otherwise the dense block built with
    [intermediate_size].  The layer record is immutable, so the choice
    made at construction stays. *)
Theorem feed_forward_chosen_at_construction
    (tp : Z) (cfg : PretrainedConfig) (layer_idx : Z)
    (lm : option LinearMethodBase) (h : Heap)
    (layer : DecoderLayer.DeepseekDecoderLayer) (h' : Heap) :
  moe_layer_freq cfg <> 0 ->
  DecoderLayer.init tp cfg layer_idx lm h = (Ok layer, h') ->
  (exists b, DecoderLayer.use_moe cfg layer_idx h = (Ok b, h) /\
             (b = true <-> sparse_layer cfg layer_idx)) /\
  (sparse_layer cfg layer_idx ->
   exists moe h1 h2,
     DecoderLayer.mlp layer = DecoderLayer.Sparse moe /\
     MoE.init tp cfg lm h1 = (Ok moe, h2)) /\
  (~ sparse_layer cfg layer_idx ->
   exists m h1 h2,
     DecoderLayer.mlp layer = DecoderLayer.Dense m /\
     MLP.init tp (Config.hidden_size cfg) (intermediate_size cfg)
       (hidden_act cfg) lm true h1 = (Ok m, h2)) /\
  ((exists moe, DecoderLayer.mlp layer = DecoderLayer.Sparse moe)
   <-> sparse_layer cfg layer_idx).
Proof.
  intros Hfreq H. split.
  { destruct (use_moe_total cfg layer_idx h Hfreq) as (b & Hb).
    exists b. split; [exact Hb|]. now apply use_moe_spec in Hb. }
  unfold DecoderLayer.init in H.
  apply bind_inv_ok in H as (a & h1 & _ & H).
  apply bind_inv_ok in H as (b & h1' & Hb & H).
  apply use_moe_spec in Hb as (-> & Hb).
  apply bind_inv_ok in H as (ff & h2 & Hff & H).
  unfold ret in H. inversion H; subst; clear H. simpl.
  destruct b.
  - apply bind_inv_ok in Hff as (moe & h3 & Hmoe & Hr).
    unfold ret in Hr. inversion Hr; subst; clear Hr.
    assert (Hs : sparse_layer cfg layer_idx) by now apply Hb.
    split; [|split].
    + intros _. now exists moe, h1, h'.
    + intros Hn. contradiction.
    + split; [intros _; exact Hs | intros _; now exists moe].
  - apply bind_inv_ok in Hff as (m & h3 & Hm & Hr).
    unfold ret in Hr. inversion Hr; subst; clear Hr.
    assert (Hs : ~ sparse_layer cfg layer_idx).
    { intros Hs. apply Hb in Hs. discriminate. }
    split; [|split].
    + intros Hyes. contradiction.
    + intros _. now exists m, h1, h'.
    + split; [intros (moe & Hmoe); discriminate | intros Hyes; contradiction].
Qed.

Lemma feed_forward_chosen_at_construction_witness :
  exists layer h',
    DecoderLayer.init 2 demo_config 1 None empty_heap = (Ok layer, h') /\
    (exists b, DecoderLayer.use_moe demo_config 1 empty_heap = (Ok b, empty_heap) /\
               (b = true <-> sparse_layer demo_config 1)) /\
    (sparse_layer demo_config 1 ->
     exists moe h1 h2,
       DecoderLayer.mlp layer = DecoderLayer.Sparse moe /\
       MoE.init 2 demo_config None h1 = (Ok moe, h2)) /\
    (~ sparse_layer demo_config 1 ->
     exists m h1 h2,
       DecoderLayer.mlp layer = DecoderLayer.Dense m /\
       MLP.init 2 (Config.hidden_size demo_config) (intermediate_size demo_config)
         (hidden_act demo_config) None true h1 = (Ok m, h2)) /\
    ((exists moe, DecoderLayer.mlp layer = DecoderLayer.Sparse moe)
     <-> sparse_layer demo_config 1).
Proof.
  destruct (DecoderLayer.init 2 demo_config 1 None empty_heap)
    as [[layer|e] h'] eqn:E; [|vm_compute in E; discriminate].
  exists layer, h'. split; [reflexivity|].
  apply (feed_forward_chosen_at_construction 2 demo_config 1 None empty_heap
           layer h'); [discriminate | exact E].
Defined.

(** ** Strings *)

Section StringFacts.
Local Open Scope string_scope.
Local Arguments String.append !s1 s2 : simpl nomatch.

Lemma append_nil_r (s : string) : append s "" = s.
Proof. induction s; simpl; congruence. Qed.

Lemma append_assoc (a b c : string) :
  append (append a b) c = append a (append b c).
Proof. induction a; simpl; congruence. Qed.

Lemma length_append (a b : string) :
  String.length (append a b) = (String.length a + String.length b)%nat.
Proof. induction a; simpl; congruence. Qed.

Lemma startswith_iff (p s : string) :
  startswith p s = true <-> exists r, s = append p r.
Proof.
  revert s. induction p as [|c p IH]; simpl; intros s.
  - split; [intros _; now exists s | reflexivity].
  - destruct s as [|d s].
    + split; [discriminate | intros (r & Hr); discriminate].
    + destruct (Ascii.eqb_spec c d) as [-> | Hne].
      * rewrite IH. split; intros (r & Hr); exists r; congruence.
      * split; [discriminate | intros (r & Hr); congruence].
Qed.

Lemma startswith_append (p r : string) : startswith p (append p r) = true.
Proof. apply startswith_iff. now exists r. Qed.

Lemma drop_str_append (p r : string) : drop_str (String.length p) (append p r) = r.
Proof. induction p; simpl; auto. Qed.

Lemma contains_iff (p s : string) :
  contains p s = true <-> exists u r, s = append u (append p r).
Proof.
  induction s as [|c s IH].
  - simpl. destruct (startswith p "") eqn:E.
    + split; [intros _ | reflexivity].
      apply startswith_iff in E as (r & Hr). now exists "", r.
    + split; [discriminate|]. intros (u & r & H).
      destruct u; simpl in H.
      * rewrite H, startswith_append in E. discriminate.
      * discriminate.
  - simpl. destruct (startswith p (String c s)) eqn:E.
    + split; [intros _ | reflexivity].
      apply startswith_iff in E as (r & Hr). now exists "", r.
    + rewrite IH. split.
      * intros (u & r & ->). now exists (String c u), r.
      * intros (u & r & H). destruct u as [|d u]; simpl in H.
        -- rewrite H, startswith_append in E. discriminate.
        -- inversion H; subst. now exists u, r.
Qed.

Lemma endswith_iff (p s : string) :
  endswith p s = true <-> exists u, s = append u p.
Proof.
  unfold endswith. rewrite andb_true_iff, Nat.leb_le, String.eqb_eq. split.
  - intros (Hlen & Hdrop).
    remember (String.length s - String.length p)%nat as k eqn:Hk.
    assert (Hs : String.length s = (k + String.length p)%nat) by lia.
    clear Hk Hlen. revert s Hdrop Hs.
    induction k as [|k IH]; simpl; intros s Hdrop Hs.
    + exists "". simpl. congruence.
    + destruct s as [|c s]; [simpl in Hs; lia|].
      simpl in Hs. destruct (IH s Hdrop ltac:(lia)) as (u & ->).
      now exists (String c u).
  - intros (u & ->). rewrite length_append. split; [lia|].
    replace (String.length u + String.length p - String.length p)%nat
      with (String.length u) by lia.
    apply drop_str_append.
Qed.

(** *** [replace] *)

Section Replace.
Variables (a : ascii) (old' new : string).
Local Abbreviation old := (String a old').

Lemma replace_from_cons f c s :
  replace_from (S f) old new (String c s) =
  if startswith old (String c s)
  then append new (replace_from (f - (String.length old - 1)) old new
                     (drop_str (String.length old) (String c s)))
  else String c (replace_from f old new s).
Proof. reflexivity. Qed.

(** Any fuel that covers the string gives the same result. *)
Lemma replace_from_fuel f1 :
  forall f2 s,
    (String.length s <= f1)%nat -> (String.length s <= f2)%nat ->
    replace_from f1 old new s = replace_from f2 old new s.
Proof.
  induction f1 as [f1 IH] using lt_wf_ind. intros f2 s H1 H2.
  destruct s as [|c s].
  - destruct f1, f2; reflexivity.
  - destruct f1 as [|f1]; [simpl in H1; lia|].
    destruct f2 as [|f2]; [simpl in H2; lia|].
    rewrite !replace_from_cons.
    destruct (startswith old (String c s)) eqn:E.
    + apply startswith_iff in E as (r & Hr). rewrite Hr, drop_str_append.
      assert (Hlen : String.length (String c s)
                     = (String.length old + String.length r)%nat)
        by (rewrite Hr; apply length_append).
      assert (Hold : (1 <= String.length old)%nat) by (simpl; lia).
      f_equal. apply IH; simpl in *; lia.
    + f_equal. apply IH; simpl in *; lia.
Qed.

Lemma replace_nil : replace "" old new = "".
Proof. reflexivity. Qed.

(** At an occurrence of [old] the result starts with [new] and the scan
    resumes after the occurrence. *)
Lemma replace_match r :
  replace (append old r) old new = append new (replace r old new).
Proof.
  unfold replace. rewrite length_append.
  change (String.length old + String.length r)%nat
    with (S (String.length old' + String.length r)).
  change (append old r) with (String a (append old' r)).
  rewrite replace_from_cons.
  change (String a (append old' r)) with (append old r).
  rewrite startswith_append, drop_str_append. f_equal.
  apply replace_from_fuel; simpl; lia.
Qed.

(** Elsewhere the character is kept. *)
Lemma replace_step c s :
  startswith old (String c s) = false ->
  replace (String c s) old new = String c (replace s old new).
Proof.
  intros E. unfold replace. simpl String.length.
  rewrite replace_from_cons, E. reflexivity.
Qed.

(** A stretch without the first character of [old] is copied. *)
Lemma replace_skip u rest :
  occurs a u = false ->
  replace (append u rest) old new = append u (replace rest old new).
Proof.
  induction u as [|c u IH]; simpl; intros Hu; [reflexivity|].
  apply orb_false_iff in Hu as (Hc & Hu).
  rewrite replace_step.
  - now rewrite IH.
  - simpl. now rewrite Hc.
Qed.

Lemma occurs_append c u v : occurs c (append u v) = occurs c u || occurs c v.
Proof. induction u; simpl; [reflexivity|]. now rewrite IHu, orb_assoc. Qed.

(** A prefix [p] of [u ++ y] either lies within [u] or reaches the first
    character of [y]. *)
Lemma startswith_append_cases (p u : string) b y :
  startswith p (append u (String b y)) = true ->
  (exists u', u = append p u') \/ occurs b p = true.
Proof.
  revert u. induction p as [|c p IH]; simpl; intros u H.
  - left. now exists u.
  - destruct u as [|d u]; simpl in H.
    + destruct (Ascii.eqb_spec c b) as [-> | Hne]; [|discriminate].
      right. now rewrite Ascii.eqb_refl.
    + destruct (Ascii.eqb_spec c d) as [-> | Hne]; [|discriminate].
      destruct (IH u H) as [(u' & ->) | Hocc].
      * left. now exists u'.
      * right. rewrite Hocc. apply orb_true_r.
Qed.

(** [replace] leaves an occurrence of a separated pattern in place and
    works on both sides of it independently. *)
Lemma replace_around (pat u rest : string) :
  separated old pat = true ->
  replace (append u (append pat rest)) old new
  = append (replace u old new) (append pat (replace rest old new)).
Proof.
  intros Hsep. unfold separated in Hsep.
  destruct pat as [|b pat]; [discriminate|].
  apply andb_true_iff in Hsep as (Ha & Hb).
  apply negb_true_iff in Ha, Hb.
  remember (String.length u) as n eqn:Hn. revert u Hn.
  induction n as [n IH] using lt_wf_ind. intros u Hn.
  destruct u as [|c u].
  - change (append "" (append (String b pat) rest))
      with (append (String b pat) rest).
    rewrite replace_skip by exact Ha. reflexivity.
  - destruct (startswith old (append (String c u) (append (String b pat) rest))) eqn:E.
    + simpl append in E at 2.
      destruct (startswith_append_cases _ _ _ _ E) as [(u' & Hu) | Hocc];
        [|congruence].
      rewrite Hu, append_assoc, !replace_match, append_assoc. f_equal.
      apply (IH (String.length u')); [|reflexivity].
      rewrite Hn, Hu, length_append. simpl. lia.
    + assert (E' : startswith old (String c u) = false).
      { destruct (startswith old (String c u)) eqn:E2; [|reflexivity].
        apply startswith_iff in E2 as (r & Hr).
        rewrite Hr, append_assoc, startswith_append in E. discriminate. }
      simpl append at 1. simpl append in E. rewrite (replace_step _ _ E).
      rewrite (replace_step _ _ E'). simpl. f_equal.
      apply (IH (String.length u)); [|reflexivity]. rewrite Hn. simpl. lia.
Qed.

Lemma replace_keeps_suffix pat s :
  separated old pat = true ->
  endswith pat s = true -> endswith pat (replace s old new) = true.
Proof.
  intros Hsep Hs. apply endswith_iff in Hs as (u & ->).
  apply endswith_iff. exists (replace u old new).
  rewrite <- (append_nil_r pat) at 1.
  rewrite replace_around by exact Hsep.
  now rewrite replace_nil, append_nil_r.
Qed.

Lemma replace_keeps_occurrence pat s :
  separated old pat = true ->
  contains pat s = true -> contains pat (replace s old new) = true.
Proof.
  intros Hsep Hs. apply contains_iff in Hs as (u & r & ->).
  apply contains_iff. exists (replace u old new), (replace r old new).
  now apply replace_around.
Qed.

End Replace.

End StringFacts.

(** ** Weight loading *)

Section LoaderFacts.
Import Loader.
Local Open Scope string_scope.

Lemma skip_tests params n :
  extra_bias params n || foreign_expert params n
  = skip_shaped n && negb (in_dict params n).
Proof.
  unfold extra_bias, foreign_expert, skip_shaped.
  destruct (endswith ".bias" n), (contains "mlp.experts." n),
    (contains "mlp.shared_experts." n), (in_dict params n); reflexivity.
Qed.

Lemma in_dict_lookup params n :
  in_dict params n = false <-> params !! n = None.
Proof. unfold in_dict. destruct (params !! n); split; congruence. Qed.



Lemma skip_shaped_replace n wn pn sid :
  row_separated (pn, wn, sid) = true ->
  skip_shaped n = true -> skip_shaped (replace n wn pn) = true.
Proof.
  unfold row_separated, skip_shaped.
  rewrite !andb_true_iff, !orb_true_iff. intros ((S1 & S2) & S3).
  destruct wn as [|a wn']; [discriminate|].
  intros [[H | H] | H].
  - left. left. now apply replace_keeps_suffix.
  - left. right. now apply replace_keeps_occurrence.
  - right. now apply replace_keeps_occurrence.
Qed.



Lemma active_mapping_separated lm :
  forallb row_separated (active_mapping lm) = true.
Proof. unfold active_mapping. destruct (split_layout lm); reflexivity. Qed.

(** The inner [continue] goes on with the rows that remain: a model with
    a parameter named by a second rewrite would receive the entry there. *)
Remark second_rewrite_reaches_parameter :
  load_entry None
    {[ "x.qkqkv_proj.bias" := {| weight_loader := Some "qkv_loader" |} ]}
    "x.q_proj.bias"
  = Call "x.qkqkv_proj.bias" (Attached "qkv_loader") (Some (ShardName "v")).
Proof. reflexivity. Qed.

End LoaderFacts.

(** ** Routing *)

Section RoutingFacts.


Lemma softmax_length (exp : Q -> Q) row : length (softmax exp row) = length row.
Proof. unfold softmax. apply length_map. Qed.

End RoutingFacts.

(** ** Forward passes *)

Section ForwardFacts.
Variable exp : Q -> Q.
Variable reduce_sum : list (list Q) -> list (list Q).

Lemma matvec_app W1 W2 x : matvec (W1 ++ W2) x = matvec W1 x ++ matvec W2 x.
Proof. unfold matvec. apply map_app. Qed.

Lemma matvec_length W x : length (matvec W x) = length W.
Proof. unfold matvec. apply length_map. Qed.

Lemma cat_last_map {A} (f g : A -> list Q) (x : list A) :
  cat_last (map f x) (map g x) = map (fun t => f t ++ g t) x.
Proof. unfold cat_last. induction x; simpl; congruence. Qed.

(** A layer that does not reduce computes its product and leaves the
    log alone. *)
Lemma apply_linear_local h l x (log : Log) :
  reduce_results l = false ->
  apply_linear reduce_sum h l x log
  = (Ok (map (matvec (weight_matrix h l)) x), log).
Proof. intros Hl. unfold apply_linear. now rewrite Hl. Qed.

(** A layer that reduces issues one all-reduce on its product. *)
Lemma apply_linear_reduced h l x (log : Log) :
  reduce_results l = true ->
  apply_linear reduce_sum h l x log
  = (Ok (reduce_sum (map (matvec (weight_matrix h l)) x)),
     log ++ [map (matvec (weight_matrix h l)) x]).
Proof. intros Hl. unfold apply_linear. now rewrite Hl. Qed.

(** On a row [gate ++ up] of two halves of equal length the activation
    is [silu(gate) * up], element by element. *)
Lemma SiluAndMul_halves gate up :
  length gate = length up ->
  SiluAndMul exp (gate ++ up)
  = zip_with (fun g u => (silu exp g * u)%Q) gate up.
Proof.
  intros Hlen. unfold SiluAndMul.
  replace (length (gate ++ up) / 2)%nat with (length gate).
  - now rewrite take_app_length, drop_app_length.
  - rewrite length_app, <- Hlen.
    replace (length gate + length gate)%nat with (length gate * 2)%nat by lia.
    now rewrite Nat.div_mul.
Qed.

Lemma SiluAndMul_cat Wg Wu (x : list (list Q)) :
  length Wg = length Wu ->
  map (SiluAndMul exp) (cat_last (map (matvec Wg) x) (map (matvec Wu) x))
  = zip_with (zip_with (fun a b => (silu exp a * b)%Q))
      (map (matvec Wg) x) (map (matvec Wu) x).
Proof.
  intros Hlen. rewrite cat_last_map, map_map.
  induction x as [|t x IH]; simpl; [reflexivity|].
  rewrite IH. f_equal. apply SiluAndMul_halves.
  now rewrite !matvec_length.
Qed.

(** The dense block in fused mode. *)
Lemma MLP_forward_fused h (m : MLP.DeepseekMLP) gu x (log : Log) :
  MLP.merge_weight m = true -> MLP.gate_up_proj m = Some gu ->
  reduce_results gu = false ->
  MLP.forward exp reduce_sum h m x log
  = apply_linear reduce_sum h (MLP.down_proj m)
      (map (SiluAndMul exp) (map (matvec (weight_matrix h gu)) x)) log.
Proof.
  intros Hm Hgu Hr. unfold MLP.forward. rewrite Hm, Hgu.
  erewrite bind_ok; [reflexivity|].
  erewrite bind_ok; [|reflexivity].
  now apply apply_linear_local.
Qed.

(** The dense block in split mode. *)
Lemma MLP_forward_split h (m : MLP.DeepseekMLP) g u x (log : Log) :
  MLP.merge_weight m = false ->
  MLP.gate_proj m = Some g -> MLP.up_proj m = Some u ->
  reduce_results g = false -> reduce_results u = false ->
  MLP.forward exp reduce_sum h m x log
  = apply_linear reduce_sum h (MLP.down_proj m)
      (map (SiluAndMul exp)
         (cat_last (map (matvec (weight_matrix h g)) x)
                   (map (matvec (weight_matrix h u)) x))) log.
Proof.
  intros Hm Hg Hu Hrg Hru. unfold MLP.forward. rewrite Hm, Hg, Hu.
  erewrite bind_ok; [reflexivity|].
  erewrite bind_ok; [|reflexivity].
  erewrite bind_ok; [|now apply apply_linear_local].
  erewrite bind_ok; [|reflexivity].
  erewrite bind_ok; [|now apply apply_linear_local].
  reflexivity.
Qed.

(** C4. A dense block built in fused mode and one built in split mode
    compute the same function as soon as the fused weight holds the gate
    rows followed by the up rows and the down weights agree: the fused
    projection's output is the concatenation [gate, up] of the split
    projections' outputs, token by token, so the activation
    [silu(gate) * up] and the down projection give the same result and
    the same communication. *)
Theorem mlp_forward_mode_independent
    (tp hs isz : Z) (act : string) (rr : bool)
    (lm_fused lm_split : option LinearMethodBase)
    (h0 h0' h1 h1' : Heap) (fused split : MLP.DeepseekMLP)
    (hf hsp : Heap) (gu g u : Linear) (x : list (list Q)) (log : Log) :
  split_layout lm_fused = false ->
  MLP.init tp hs isz act lm_fused rr h0 = (Ok fused, h0') ->
  split_layout lm_split = true ->
  MLP.init tp hs isz act lm_split rr h1 = (Ok split, h1') ->
  MLP.gate_up_proj fused = Some gu ->
  MLP.gate_proj split = Some g ->
  MLP.up_proj split = Some u ->
  weight_matrix hf gu = weight_matrix hsp g ++ weight_matrix hsp u ->
  weight_matrix hf (MLP.down_proj fused) = weight_matrix hsp (MLP.down_proj split) ->
  let gate := map (matvec (weight_matrix hsp g)) x in
  let up := map (matvec (weight_matrix hsp u)) x in
  apply_linear reduce_sum hf gu x log = (Ok (cat_last gate up), log) /\
  MLP.forward exp reduce_sum hf fused x log
  = MLP.forward exp reduce_sum hsp split x log /\
  (length (weight_matrix hsp g) = length (weight_matrix hsp u) ->
   map (SiluAndMul exp) (cat_last gate up)
   = zip_with (zip_with (fun a b => (silu exp a * b)%Q)) gate up).
Proof.
  intros Hlf Hf Hls Hs Hgu Hg Hu HW HWd gate up.
  apply MLP_init_ok_inv in Hf as (Hmf & Hrf & Hcf).
  apply MLP_init_ok_inv in Hs as (Hms & Hrs & Hcs).
  rewrite Hlf in Hmf, Hcf. rewrite Hls in Hms, Hcs. simpl in Hmf, Hms.
  destruct Hcf as (gu' & Hgu' & Hgur). rewrite Hgu in Hgu'. inversion Hgu'; subst gu'.
  destruct Hcs as (_ & (g' & Hg' & Hgr) & (u' & Hu' & Hur)).
  rewrite Hg in Hg'. inversion Hg'; subst g'.
  rewrite Hu in Hu'. inversion Hu'; subst u'.
  assert (Hcat : map (matvec (weight_matrix hf gu)) x = cat_last gate up).
  { unfold gate, up. rewrite cat_last_map, HW.
    apply map_ext. intros t. apply matvec_app. }
  split; [|split].
  - rewrite apply_linear_local by exact Hgur. now rewrite Hcat.
  - rewrite (MLP_forward_fused hf fused gu x log Hmf Hgu Hgur).
    rewrite (MLP_forward_split hsp split g u x log Hms Hg Hu Hgr Hur).
    rewrite Hcat. fold gate up.
    unfold apply_linear. rewrite HWd, Hrf, Hrs. reflexivity.
  - intros Hlen. now apply SiluAndMul_cat.
Qed.

End ForwardFacts.

(** ** The attention block's forward pass *)

Section AttentionFacts.
Variable reduce_sum : list (list Q) -> list (list Q).
Variables Cache InputMetadata : Type.
Variable rotary_emb :
  list Z -> list (list Q) -> list (list Q) -> list (list Q) * list (list Q).
Variable attn :
  list (list Q) -> list (list Q) -> list (list Q) ->
  Cache -> Cache -> InputMetadata -> list (list Q).

(** Splitting rows that are three pieces of the given widths gives the
    pieces back. *)
Lemma split3_pieces {S} (f g k : list Q -> list Q) (a b c : nat)
    (x : list (list Q)) (s : S) :
  (forall t, length (f t) = a) -> (forall t, length (g t) = b) ->
  (forall t, length (k t) = c) ->
  split3 (map (fun t => f t ++ g t ++ k t) x) a b c s
  = (Ok (map f x, map g x, map k x), s).
Proof.
  intros Hf Hg Hk. unfold split3.
  assert (Hall : forallb (fun row => (length row =? a + b + c)%nat)
                   (map (fun t => f t ++ g t ++ k t) x) = true).
  { apply forallb_forall. intros row Hrow.
    apply in_map_iff in Hrow as (t & <- & _).
    rewrite !length_app, Hf, Hg, Hk. apply Nat.eqb_eq. lia. }
  rewrite Hall. unfold ret. rewrite !map_map.
  assert (H1 : map (fun t => take a (f t ++ g t ++ k t)) x = map f x).
  { apply map_ext. intros t. rewrite <- (Hf t). apply take_app_length. }
  assert (H2 : map (fun t => take b (drop a (f t ++ g t ++ k t))) x = map g x).
  { apply map_ext. intros t. rewrite <- (Hf t), drop_app_length.
    rewrite <- (Hg t). apply take_app_length. }
  assert (H3 : map (fun t => take c (drop (a + b) (f t ++ g t ++ k t))) x
               = map k x).
  { apply map_ext. intros t. rewrite app_assoc.
    replace (a + b)%nat with (length (f t ++ g t))
      by (rewrite length_app, Hf, Hg; reflexivity).
    rewrite drop_app_length, <- (Hk t). apply firstn_all. }
  now rewrite H1, H2, H3.
Qed.

(** The attention block in split mode. *)
Lemma Attention_forward_split h (a : Attention.DeepseekAttention) lq lk lv
    positions x kv_cache meta (log : Log) :
  Attention.merge_weight a = false ->
  Attention.q_proj a = Some lq -> Attention.k_proj a = Some lk ->
  Attention.v_proj a = Some lv ->
  reduce_results lq = false -> reduce_results lk = false ->
  reduce_results lv = false -> reduce_results (Attention.o_proj a) = true ->
  let out := attention_spec rotary_emb attn (weight_matrix h lq) (weight_matrix h lk)
               (weight_matrix h lv) (weight_matrix h (Attention.o_proj a))
               positions x kv_cache meta in
  Attention.forward reduce_sum Cache InputMetadata rotary_emb attn
    h a positions x kv_cache meta log
  = (Ok (reduce_sum out), log ++ [out]).
Proof.
  intros Hm Hq Hk Hv Hrq Hrk Hrv Hro out.
  unfold Attention.forward. rewrite Hm, Hq, Hk, Hv.
  erewrite bind_ok; cycle 1.
  { erewrite bind_ok; [|reflexivity].
    erewrite bind_ok; [|now apply apply_linear_local].
    erewrite bind_ok; [|reflexivity].
    erewrite bind_ok; [|now apply apply_linear_local].
    erewrite bind_ok; [|reflexivity].
    erewrite bind_ok; [|now apply apply_linear_local].
    reflexivity. }
  unfold out, attention_spec.
  destruct (rotary_emb positions _ _) as [q' k'].
  destruct kv_cache as [kc vc]. simpl.
  now apply apply_linear_reduced.
Qed.

(** The attention block in fused mode, for a fused weight that holds
    the query rows, the key rows and the value rows in this order. *)
Lemma Attention_forward_fused h (a : Attention.DeepseekAttention) lqkv
    Wq Wk Wv positions x kv_cache meta (log : Log) :
  Attention.merge_weight a = true ->
  Attention.qkv_proj a = Some lqkv ->
  reduce_results lqkv = false -> reduce_results (Attention.o_proj a) = true ->
  weight_matrix h lqkv = Wq ++ Wk ++ Wv ->
  length Wq = Z.to_nat (Attention.q_size a) ->
  length Wk = Z.to_nat (Attention.kv_size a) ->
  length Wv = Z.to_nat (Attention.kv_size a) ->
  let out := attention_spec rotary_emb attn Wq Wk Wv (weight_matrix h (Attention.o_proj a))
               positions x kv_cache meta in
  Attention.forward reduce_sum Cache InputMetadata rotary_emb attn
    h a positions x kv_cache meta log
  = (Ok (reduce_sum out), log ++ [out]).
Proof.
  intros Hm Hqkv Hr Hro HW Hlq Hlk Hlv out.
  unfold Attention.forward. rewrite Hm, Hqkv.
  erewrite bind_ok; cycle 1.
  { erewrite bind_ok; [|reflexivity].
    erewrite bind_ok; [|now apply apply_linear_local].
    rewrite HW.
    rewrite (map_ext _ (fun t => matvec Wq t ++ matvec Wk t ++ matvec Wv t))
      by (intros t; now rewrite !matvec_app).
    apply split3_pieces; intros t; rewrite matvec_length; congruence. }
  unfold out, attention_spec.
  destruct (rotary_emb positions _ _) as [q' k'].
  destruct kv_cache as [kc vc]. simpl.
  now apply apply_linear_reduced.
Qed.

Lemma Attention_init_projections tp hidden heads kv lm h a h' :
  Attention.init tp hidden heads kv lm h = (Ok a, h') ->
  if split_layout lm
  then (exists l, Attention.q_proj a = Some l /\ reduce_results l = false) /\
       (exists l, Attention.k_proj a = Some l /\ reduce_results l = false) /\
       (exists l, Attention.v_proj a = Some l /\ reduce_results l = false)
  else exists l, Attention.qkv_proj a = Some l /\ reduce_results l = false.
Proof.
  unfold Attention.init, pymod, floordiv.
  unfold bind, lift, assert, ret, raise.
  destruct (tp =? 0)%Z; [discriminate|].
  destruct (heads mod tp =? 0)%Z; [|discriminate].
  destruct (kv >=? tp)%Z.
  - destruct (kv mod tp =? 0)%Z; [|discriminate].
    destruct (heads =? 0)%Z; [discriminate|].
    destruct (hidden / heads =? 0)%Z; [discriminate|].
    unfold ColumnParallelLinear, QKVParallelLinear, RowParallelLinear,
      new_parameter, bind, ret.
    destruct (split_layout lm); simpl; intros H; inversion H; subst; simpl;
      eauto 10.
  - destruct (kv =? 0)%Z; [discriminate|].
    destruct (tp mod kv =? 0)%Z; [|discriminate].
    destruct (heads =? 0)%Z; [discriminate|].
    destruct (hidden / heads =? 0)%Z; [discriminate|].
    unfold ColumnParallelLinear, QKVParallelLinear, RowParallelLinear,
      new_parameter, bind, ret.
    destruct (split_layout lm); simpl; intros H; inversion H; subst; simpl;
      eauto 10.
Qed.

End AttentionFacts.

(** ** The sparse block's forward pass *)

(** [for_each] of a body that leaves the state alone leaves it alone. *)
Lemma for_each_state {S A B} (f : A -> M S B) xs s :
  (forall x s1, snd (f x s1) = s1) -> snd (for_each f xs s) = s.
Proof.
  intros Hf. revert s. induction xs as [|x xs IH]; simpl; intros s; [reflexivity|].
  unfold bind. pose proof (Hf x s) as Hx.
  destruct (f x s) as [[y|e] s1]; simpl in Hx; subst s1; [|reflexivity].
  pose proof (IH s) as Hxs.
  destruct (for_each f xs s) as [[ys|e] s2]; simpl in Hxs; subst s2; reflexivity.
Qed.

Lemma for_each_total_on {S A B} (f : A -> M S B) xs s :
  Forall (fun x => forall s1, exists y s2, f x s1 = (Ok y, s2)) xs ->
  exists ys s', for_each f xs s = (Ok ys, s').
Proof.
  intros Hf. revert s. induction Hf as [|x xs Hx Hxs IH]; simpl; intros s.
  - now exists [], s.
  - destruct (Hx s) as (y & s1 & Hy).
    destruct (IH s1) as (ys & s2 & Hys).
    exists (y :: ys), s2.
    rewrite (bind_ok _ _ _ _ _ Hy), (bind_ok _ _ _ _ _ Hys). reflexivity.
Qed.

(** What every block built by the constructor is like. *)
Lemma for_each_ok_built {S A B} (f : A -> M S B) xs s ys s' :
  for_each f xs s = (Ok ys, s') ->
  Forall (fun y => exists x s1 s2, f x s1 = (Ok y, s2)) ys.
Proof.
  revert s ys s'. induction xs as [|x xs IH]; simpl; intros s ys s' H.
  - inversion H. constructor.
  - apply bind_inv_ok in H as (y & s1 & Hy & H).
    apply bind_inv_ok in H as (ys' & s2 & Hrest & H).
    inversion H; subst. constructor; eauto.
Qed.

Lemma MoE_init_ok_inv tp cfg lm h0 moe h1 :
  MoE.init tp cfg lm h0 = (Ok moe, h1) ->
  exists n,
    Config.n_routed_experts cfg = Some n /\ (tp <= n)%Z /\
    MoE.config moe = cfg /\
    MoE.top_k moe = num_experts_per_tok cfg /\
    MoE.n_routed_experts moe = n /\
    length (MoE.experts moe) = Z.to_nat n /\
    Forall (fun e => exists ha hb,
                MLP.init tp (Config.hidden_size cfg) (moe_intermediate_size cfg)
                  (hidden_act cfg) lm false ha = (Ok e, hb))
      (MoE.experts moe) /\
    (exists ha hb,
        MoE.pack_params (MoE.experts moe) ha = (Ok (MoE.w1 moe, MoE.w2 moe), hb)) /\
    reduce_results (MoE.gate moe) = false /\
    match n_shared_experts cfg with
    | Some s =>
        exists se ha hb,
          MoE.shared_experts moe = Some se /\
          MLP.init tp (Config.hidden_size cfg) (moe_intermediate_size cfg * s)
            (hidden_act cfg) lm false ha = (Ok se, hb)
    | None => MoE.shared_experts moe = None
    end.
Proof.
  unfold MoE.init. intros H.
  destruct (Config.n_routed_experts cfg) as [n|]; [|discriminate].
  unfold bind at 1 in H. unfold ret at 1 in H.
  destruct (tp >? n)%Z eqn:Etp; [discriminate|].
  apply bind_inv_ok in H as (es & h2 & Hes & H).
  apply bind_inv_ok in H as ([b1 b2] & h3 & Hpack & H).
  apply bind_inv_ok in H as (g & h4 & Hg & H).
  apply bind_inv_ok in H as (shared & h5 & Hsh & H).
  unfold ret in H. inversion H; subst; clear H. simpl.
  exists n. split; [reflexivity|]. split; [lia|].
  repeat (split; [reflexivity|]).
  split.
  { apply for_each_ok_length in Hes. rewrite Hes. unfold range.
    now rewrite length_map, length_seq. }
  split.
  { apply for_each_ok_built in Hes. eapply Forall_impl; [exact Hes|].
    simpl. intros e (_ & ha & hb & He). eauto. }
  split; [eauto|].
  split.
  { unfold ReplicatedLinear, new_parameter, bind, ret in Hg.
    inversion Hg; subst. reflexivity. }
  destruct (n_shared_experts cfg) as [s|].
  - apply bind_inv_ok in Hsh as (se & h6 & Hse & Hr).
    unfold ret in Hr. inversion Hr; subst. eauto.
  - unfold ret in Hsh. inversion Hsh; subst. reflexivity.
Qed.

Section MoEForwardFacts.
Variable exp : Q -> Q.
Variable reduce_sum : list (list Q) -> list (list Q).

(** A dense block built without reduction computes locally: its forward
    pass returns and the log is as before. *)
Lemma MLP_forward_local tp hs isz act lm ha hb (m : MLP.DeepseekMLP)
    h x (log : Log) :
  MLP.init tp hs isz act lm false ha = (Ok m, hb) ->
  exists y, MLP.forward exp reduce_sum h m x log = (Ok y, log).
Proof.
  intros Hm. apply MLP_init_ok_inv in Hm as (Hmw & Hrd & Hc).
  destruct (split_layout lm); simpl in Hmw.
  - destruct Hc as (_ & (g & Hg & Hrg) & (u & Hu & Hru)).
    rewrite (MLP_forward_split exp reduce_sum h m g u x log Hmw Hg Hu Hrg Hru).
    rewrite apply_linear_local by exact Hrd. eauto.
  - destruct Hc as (gu & Hgu & Hrgu).
    rewrite (MLP_forward_fused exp reduce_sum h m gu x log Hmw Hgu Hrgu).
    rewrite apply_linear_local by exact Hrd. eauto.
Qed.

(** Routing a token does not communicate. *)
Lemma route_log k norm row (log : Log) :
  snd (MoE.route exp k norm row log) = log.
Proof.
  unfold MoE.route, topk, bind, raise, ret.
  destruct ((k <? 0)%Z || (Z.of_nat (length (softmax exp row)) <? k)%Z);
    reflexivity.
Qed.

Lemma route_total k norm row (log : Log) :
  (0 <= k <= Z.of_nat (length row))%Z ->
  exists r, MoE.route exp k norm row log = (Ok r, log).
Proof.
  intros Hk. unfold MoE.route, topk, bind, raise, ret.
  unfold softmax. rewrite length_map.
  destruct ((k <? 0)%Z || (Z.of_nat (length row) <? k)%Z) eqn:E.
  - apply orb_true_iff in E as [E | E]; lia.
  - eauto.
Qed.

Lemma after_shared_spec h (self : MoE.DeepseekMoE) x shared (log : Log) :
  reduce_results (MoE.gate self) = false ->
  let router_logits := map (matvec (weight_matrix h (MoE.gate self))) x in
  match after_shared exp reduce_sum h self x shared log with
  | (Raise _, log') => log' = log
  | (Ok y, log') =>
      exists routing,
        for_each (MoE.route exp (MoE.top_k self)
                    (norm_topk_prob (MoE.config self)))
          router_logits log = (Ok routing, log) /\
        let routed := MoE.fused_moe exp h x (MoE.w1 self) (MoE.w2 self)
                        (map fst routing) (map snd routing) in
        let payload := match shared with
                       | Some sy => add_batch routed sy
                       | None => routed
                       end in
        log' = log ++ [payload] /\ y = reduce_sum payload
  end.
Proof.
  intros Hg router_logits. unfold after_shared.
  rewrite (bind_ok _ _ _ _ _ (apply_linear_local reduce_sum h _ x log Hg)).
  fold router_logits.
  pose proof (for_each_state
                (MoE.route exp (MoE.top_k self) (norm_topk_prob (MoE.config self)))
                router_logits log (route_log _ _)) as Hlog.
  unfold bind.
  destruct (for_each _ router_logits log) as [[routing|e] log2];
    simpl in Hlog; subst log2.
  - unfold tensor_model_parallel_all_reduce.
    exists routing. split; [reflexivity|].
    destruct shared; split; reflexivity.
  - reflexivity.
Qed.

Lemma after_shared_total h (self : MoE.DeepseekMoE) x shared (log : Log) :
  reduce_results (MoE.gate self) = false ->
  (0 <= MoE.top_k self
     <= Z.of_nat (length (weight_matrix h (MoE.gate self))))%Z ->
  is_ok (fst (after_shared exp reduce_sum h self x shared log)) = true.
Proof.
  intros Hg Hk. unfold after_shared.
  rewrite (bind_ok _ _ _ _ _ (apply_linear_local reduce_sum h _ x log Hg)).
  destruct (for_each_total_on
              (MoE.route exp (MoE.top_k self) (norm_topk_prob (MoE.config self)))
              (map (matvec (weight_matrix h (MoE.gate self))) x) log)
    as (routing & log2 & Hr).
  { apply Forall_forall. intros row Hrow s1.
    apply list_elem_of_In, in_map_iff in Hrow as (t & <- & _).
    destruct (route_total (MoE.top_k self) (norm_topk_prob (MoE.config self))
                (matvec (weight_matrix h (MoE.gate self)) t) s1) as (r & Hr).
    { now rewrite matvec_length. }
    eauto. }
  rewrite (bind_ok _ _ _ _ _ Hr). reflexivity.
Qed.

(** C5. In a sparse block that has been constructed, every expert's and
    the shared experts' down projection is built without reduction, and
    the shared experts' width is [moe_intermediate_size] times
    [n_shared_experts].  A forward pass that returns has issued exactly
    one all-reduce, the last thing it does, on the routed experts'
    output to which the shared experts' output, computed on every token
    without communication, has been added when shared experts are
    configured; a forward pass that raises has issued none.  The pass
    returns whenever [top_k] lies between 0 and the number of router
    outputs. *)
Theorem moe_forward_single_all_reduce
    (tp : Z) (cfg : PretrainedConfig) (lm : option LinearMethodBase)
    (h0 h1 : Heap) (moe : MoE.DeepseekMoE)
    (h : Heap) (x : list (list Q)) (log : Log) :
  MoE.init tp cfg lm h0 = (Ok moe, h1) ->
  Forall (fun e => reduce_results (MLP.down_proj e) = false) (MoE.experts moe) /\
  (forall s, n_shared_experts cfg = Some s ->
     exists se ha hb,
       MoE.shared_experts moe = Some se /\
       reduce_results (MLP.down_proj se) = false /\
       MLP.init tp (Config.hidden_size cfg) (moe_intermediate_size cfg * s)
         (hidden_act cfg) lm false ha = (Ok se, hb)) /\
  (let router_logits := map (matvec (weight_matrix h (MoE.gate moe))) x in
   match MoE.forward exp reduce_sum h moe x log with
   | (Raise _, log') => log' = log
   | (Ok y, log') =>
       exists routing shared,
         for_each (MoE.route exp (MoE.top_k moe) (norm_topk_prob cfg))
           router_logits log = (Ok routing, log) /\
         match n_shared_experts cfg with
         | Some _ =>
             exists se sy,
               MoE.shared_experts moe = Some se /\
               MLP.forward exp reduce_sum h se x log = (Ok sy, log) /\
               shared = Some sy
         | None => shared = None
         end /\
         let routed := MoE.fused_moe exp h x (MoE.w1 moe) (MoE.w2 moe)
                         (map fst routing) (map snd routing) in
         let payload := match shared with
                        | Some sy => add_batch routed sy
                        | None => routed
                        end in
         log' = log ++ [payload] /\ y = reduce_sum payload
   end) /\
  ((0 <= MoE.top_k moe
      <= Z.of_nat (length (weight_matrix h (MoE.gate moe))))%Z ->
   is_ok (fst (MoE.forward exp reduce_sum h moe x log)) = true).
Proof.
  intros Hinit.
  apply MoE_init_ok_inv in Hinit
    as (n & Hn & Htp & Hcfg & Htopk & _ & _ & Hexp & _ & Hgate & Hshared).
  assert (Hdown : forall se s ha hb,
            MLP.init tp (Config.hidden_size cfg) s (hidden_act cfg) lm false ha
            = (Ok se, hb) -> reduce_results (MLP.down_proj se) = false).
  { intros se s ha hb Hse. now apply MLP_init_ok_inv in Hse as (_ & Hr & _). }
  split; [|split].
  - eapply Forall_impl; [exact Hexp|]. simpl. intros e (ha & hb & He). eauto.
  - intros s Hs. rewrite Hs in Hshared.
    destruct Hshared as (se & ha & hb & Hse & Hbuilt).
    exists se, ha, hb. eauto.
  - assert (Hfw : MoE.forward exp reduce_sum h moe x log
                  = match n_shared_experts cfg with
                    | Some _ =>
                        bind (bind (getattr "shared_experts" (MoE.shared_experts moe))
                                (fun se =>
                                   bind (MLP.forward exp reduce_sum h se x)
                                     (fun y => ret (Some y))))
                          (after_shared exp reduce_sum h moe x) log
                    | None => after_shared exp reduce_sum h moe x None log
                    end).
    { unfold MoE.forward, after_shared. rewrite Hcfg.
      destruct (n_shared_experts cfg); reflexivity. }
    rewrite Hfw. clear Hfw.
    pose proof (after_shared_spec h moe x) as Hspec.
    pose proof (after_shared_total h moe x) as Htot.
    rewrite Hcfg in Hspec.
    destruct (n_shared_experts cfg) as [s|].
    + destruct Hshared as (se & ha & hb & Hse & Hbuilt).
      destruct (MLP_forward_local _ _ _ _ _ _ _ _ h x log Hbuilt) as (sy & Hsy).
      rewrite Hse.
      erewrite bind_ok; cycle 1.
      { erewrite bind_ok; [|reflexivity].
        erewrite bind_ok; [|exact Hsy]. reflexivity. }
      split; [|intros Hk; now apply Htot].
      specialize (Hspec (Some sy) log Hgate). cbv zeta in Hspec |- *.
      destruct (after_shared exp reduce_sum h moe x (Some sy) log) as [[y|e] log'];
        [|exact Hspec].
      destruct Hspec as (routing & Hr & Hp).
      exists routing, (Some sy). split; [exact Hr|].
      split; [now exists se, sy|]. exact Hp.
    + split; [|intros Hk; now apply Htot].
      specialize (Hspec None log Hgate). cbv zeta in Hspec |- *.
      destruct (after_shared exp reduce_sum h moe x None log) as [[y|e] log'];
        [|exact Hspec].
      destruct Hspec as (routing & Hr & Hp).
      exists routing, None. split; [exact Hr|]. split; [reflexivity|]. exact Hp.
Qed.

End MoEForwardFacts.

(** ** Storage sharing between the experts and the banks *)

Section HeapFacts.
Local Open Scope nat_scope.

Lemma fresh_key_None {V} (m : gmap nat V) : m !! fresh_key m = None.
Proof. apply not_elem_of_dom. unfold fresh_key. apply is_fresh. Qed.

Lemma extends_refl h : extends h h.
Proof. split; auto. Qed.

Lemma extends_trans h1 h2 h3 : extends h1 h2 -> extends h2 h3 -> extends h1 h3.
Proof. intros (A & B) (C & D). split; auto. Qed.

Lemma in_bounds_extends h h' t : extends h h' -> in_bounds h t -> in_bounds h' t.
Proof. intros (A & _) (cells & Hc & Hb). exists cells. auto. Qed.

Lemma has_param_extends h h' shape p :
  extends h h' -> has_param h shape p -> has_param h' shape p.
Proof.
  intros He (t & Ht & Hs & Hb). exists t. split; [now apply He|].
  split; [exact Hs|]. eapply in_bounds_extends; eauto.
Qed.

(** *** Allocation *)

Lemma new_parameter_spec shape h :
  exists p h',
    new_parameter shape h = (Ok p, h') /\
    param_data h !! p = None /\
    extends h h' /\ has_param h' shape p.
Proof.
  unfold new_parameter. do 2 eexists. split; [reflexivity|].
  split; [apply fresh_key_None|]. split.
  - split; simpl; intros k x Hk.
    + rewrite lookup_insert_ne; [exact Hk|].
      intros <-. rewrite fresh_key_None in Hk. discriminate.
    + rewrite lookup_insert_ne; [exact Hk|].
      intros <-. rewrite fresh_key_None in Hk. discriminate.
  - eexists. simpl. split; [apply lookup_insert_eq|]. split; [reflexivity|].
    eexists. simpl. split; [apply lookup_insert_eq|].
    unfold numel. simpl. rewrite repeat_length. lia.
Qed.

(** *** Reading and writing through views *)

Lemma write_param_data h t i v : param_data (write h t i v) = param_data h.
Proof. unfold write. destruct (i <? numel t); reflexivity. Qed.

Lemma write_storage_length h t i v a cells :
  storages (write h t i v) !! a = Some cells ->
  exists cells0, storages h !! a = Some cells0 /\ length cells0 = length cells.
Proof.
  unfold write. destruct (i <? numel t); simpl; [|eauto].
  destruct (decide (t_storage t = a)) as [<- | Hne].
  - rewrite lookup_alter_eq. destruct (storages h !! t_storage t) as [c|]; [|discriminate].
    simpl. intros H. inversion H; subst. exists c. split; [reflexivity|].
    now rewrite length_insert.
  - rewrite lookup_alter_ne by exact Hne. eauto.
Qed.

Lemma write_storage_length' h t i v a cells0 :
  storages h !! a = Some cells0 ->
  exists cells, storages (write h t i v) !! a = Some cells /\
                length cells = length cells0.
Proof.
  intros H. unfold write. destruct (i <? numel t); simpl; [|eauto].
  destruct (decide (t_storage t = a)) as [<- | Hne].
  - rewrite lookup_alter_eq, H. simpl. eexists. split; [reflexivity|].
    apply length_insert.
  - rewrite lookup_alter_ne by exact Hne. eauto.
Qed.

Lemma in_bounds_write h t i v t' : in_bounds h t' -> in_bounds (write h t i v) t'.
Proof.
  intros (cells0 & Hc & Hb).
  destruct (write_storage_length' h t i v _ _ Hc) as (cells & Hc' & Hlen).
  exists cells. split; [exact Hc' | lia].
Qed.

Lemma in_place_param_data h h' : in_place h h' -> param_data h' = param_data h.
Proof. induction 1; [reflexivity|]. now rewrite write_param_data. Qed.

Lemma in_place_in_bounds h h' t : in_place h h' -> in_bounds h t -> in_bounds h' t.
Proof. induction 1; intros Hb; [exact Hb|]. apply in_bounds_write. auto. Qed.


(** *** A bank and its slices *)

Lemma select0_shape bank E shape i :
  t_shape bank = E :: shape ->
  select0 bank i = {| t_storage := t_storage bank;
                      t_offset := t_offset bank + i * numel_of shape;
                      t_shape := shape |}.
Proof. intros Hs. unfold select0. now rewrite Hs. Qed.

Lemma numel_bank bank E shape :
  t_shape bank = E :: shape -> numel bank = E * numel_of shape.
Proof. intros Hs. unfold numel. now rewrite Hs. Qed.



Lemma slice_in_bounds h bank E shape i :
  t_shape bank = E :: shape -> i < E ->
  in_bounds h bank -> in_bounds h (select0 bank i).
Proof.
  intros Hs Hi (cells & Hc & Hb). rewrite (select0_shape _ _ _ _ Hs).
  exists cells. simpl. split; [exact Hc|].
  rewrite (numel_bank _ _ _ Hs) in Hb. unfold numel. simpl. nia.
Qed.

(** *** The steps of [pack] *)

Lemma for_each_data_of ws h :
  Forall (fun p => is_Some (param_data h !! p)) ws ->
  exists ts, for_each data_of ws h = (Ok ts, h) /\
             Forall2 (fun p t => param_data h !! p = Some t) ws ts.
Proof.
  induction 1 as [|p ws (t & Hp) Hws (ts & IH & Hall)].
  - exists []. split; [reflexivity | constructor].
  - exists (t :: ts). split; [|now constructor].
    simpl. erewrite bind_ok; [|unfold data_of; now rewrite Hp].
    erewrite bind_ok; [|exact IH]. reflexivity.
Qed.

Lemma unflatten_from_length flat off ts :
  length (unflatten_from flat off ts) = length ts.
Proof. revert off. induction ts; simpl; intros off; [reflexivity|]. now rewrite IHts. Qed.

Lemma unflatten_from_lookup flat shape ts :
  Forall (fun t => t_shape t = shape) ts ->
  forall off i, i < length ts ->
    unflatten_from flat off ts !! i
    = Some {| t_storage := t_storage flat;
              t_offset := t_offset flat + (off + i * numel_of shape);
              t_shape := shape |}.
Proof.
  induction 1 as [|t ts Ht Hts IH]; simpl; intros off i Hi; [lia|].
  destruct i as [|i]; simpl.
  - rewrite Ht. do 3 f_equal. lia.
  - rewrite IH by lia. unfold numel. rewrite Ht. do 3 f_equal. lia.
Qed.

Lemma rebind_all_spec views :
  forall ws h,
    length views = length ws -> NoDup ws ->
    exists h',
      rebind_all views ws h = (Ok tt, h') /\
      storages h' = storages h /\
      (forall i p d, ws !! i = Some p -> views !! i = Some d ->
                     param_data h' !! p = Some d) /\
      (forall q, q ∉ ws -> param_data h' !! q = param_data h !! q).
Proof.
  induction views as [|d views IH]; intros ws h Hlen Hnd.
  - destruct ws; [|discriminate]. exists h. simpl.
    split; [reflexivity|]. split; [reflexivity|].
    split; [intros i p d Hp; now rewrite lookup_nil in Hp | reflexivity].
  - destruct ws as [|p ws]; [discriminate|].
    apply NoDup_cons in Hnd as (Hp & Hnd).
    set (h1 := {| storages := storages h;
                  param_data := <[p := d]> (param_data h) |}).
    destruct (IH ws h1 ltac:(simpl in Hlen; lia) Hnd)
      as (h' & Hr & Hst & Hin & Hout).
    exists h'. split; [|split; [|split]].
    + simpl. unfold bind, set_data. fold h1. exact Hr.
    + exact Hst.
    + intros i q e Hq He. destruct i as [|i]; simpl in Hq, He.
      * inversion Hq; inversion He; subst.
        rewrite (Hout q Hp). simpl. apply lookup_insert_eq.
      * eauto.
    + intros q Hq. apply not_elem_of_cons in Hq as (Hne & Hq).
      rewrite (Hout q Hq). simpl. now apply lookup_insert_ne.
Qed.

Lemma contents_length h t : in_bounds h t -> length (contents h t) = numel t.
Proof.
  intros (cells & Hc & Hb). unfold contents. rewrite Hc.
  rewrite length_take, length_drop. lia.
Qed.

Lemma concat_contents_length h shape ts :
  Forall (fun t => t_shape t = shape /\ in_bounds h t) ts ->
  length (concat (map (contents h) ts)) = length ts * numel_of shape.
Proof.
  induction 1 as [|t ts (Hs & Hb) Hts IH]; simpl; [reflexivity|].
  rewrite length_app, IH, (contents_length _ _ Hb). unfold numel. rewrite Hs. lia.
Qed.

Lemma take_drop_concat (n : nat) (ls : list (list Q)) :
  Forall (fun l => length l = n) ls ->
  forall i l, ls !! i = Some l -> take n (drop (i * n) (concat ls)) = l.
Proof.
  induction 1 as [|l0 ls Hl0 Hls IH]; intros i l Hi.
  - now rewrite lookup_nil in Hi.
  - destruct i as [|i]; simpl in Hi |- *.
    + inversion Hi; subst. apply take_app_length.
    + rewrite <- drop_drop.
      replace (drop n (l0 ++ concat ls)) with (concat ls)
        by (rewrite <- Hl0; symmetry; apply drop_app_length).
      now apply IH.
Qed.

(** What packing one bank does. *)
Lemma pack_spec ws h shape :
  ws <> [] -> NoDup ws -> Forall (has_param h shape) ws ->
  exists bank h',
    MoE.pack ws h = (Ok bank, h') /\
    t_shape bank = length ws :: shape /\
    in_bounds h' bank /\
    (forall a c, storages h !! a = Some c -> storages h' !! a = Some c) /\
    (forall i p, ws !! i = Some p -> param_data h' !! p = Some (select0 bank i)) /\
    (forall q, q ∉ ws -> param_data h' !! q = param_data h !! q) /\
    (forall i p t, ws !! i = Some p -> param_data h !! p = Some t ->
                   contents h' (select0 bank i) = contents h t).
Proof.
  intros Hne Hnd Hall.
  destruct (for_each_data_of ws h) as (ts & Hts & Hpt).
  { eapply Forall_impl; [exact Hall|]. intros p (t & Ht & _). eauto. }
  assert (Hlen : length ts = length ws) by (symmetry; eapply Forall2_length; eauto).
  assert (Hshape : Forall (fun t => t_shape t = shape /\ in_bounds h t) ts).
  { apply Forall_forall. intros t Ht.
    apply list_elem_of_lookup in Ht as (i & Hi).
    destruct (Forall2_lookup_r _ _ _ _ _ Hpt Hi) as (p & Hp & Hpd).
    rewrite Forall_forall in Hall.
    destruct (Hall p) as (t' & Ht' & Hs & Hb);
      [apply list_elem_of_lookup; eauto|].
    rewrite Hpd in Ht'. inversion Ht'; subst. auto. }
  assert (Hshape1 : Forall (fun t => t_shape t = shape) ts)
    by (eapply Forall_impl; [exact Hshape|]; intros t (A & _); exact A).
  set (cells := concat (map (contents h) ts)).
  assert (Hcells : length cells = length ws * numel_of shape)
    by (unfold cells; rewrite (concat_contents_length h shape ts Hshape); lia).
  set (a := fresh_key (storages h)).
  set (flat := {| t_storage := a; t_offset := 0; t_shape := [length cells] |}).
  set (h2 := {| storages := <[a := cells]> (storages h);
                param_data := param_data h |}).
  assert (Hflat : flatten_dense_tensors ts h = (Ok flat, h2)).
  { unfold flatten_dense_tensors. destruct ts as [|t0 ts'].
    - destruct ws; [congruence | discriminate].
    - reflexivity. }
  destruct (rebind_all_spec (unflatten_dense_tensors flat ts) ws h2)
    as (h3 & Hrb & Hst & Hin & Hout).
  { unfold unflatten_dense_tensors. now rewrite unflatten_from_length. }
  { exact Hnd. }
  assert (Hview : forall i, i < length ws ->
            unflatten_dense_tensors flat ts !! i
            = Some {| t_storage := a; t_offset := i * numel_of shape;
                      t_shape := shape |}).
  { intros i Hi. unfold unflatten_dense_tensors.
    rewrite (unflatten_from_lookup flat shape ts Hshape1 0 i) by lia.
    reflexivity. }
  set (bank := {| t_storage := a; t_offset := 0; t_shape := length ws :: shape |}).
  assert (Hsel : forall i, select0 bank i
                 = {| t_storage := a; t_offset := i * numel_of shape;
                      t_shape := shape |}).
  { intros i. now rewrite (select0_shape bank (length ws) shape i eq_refl). }
  exists bank, h3. split; [|split; [|split; [|split; [|split; [|split]]]]].
  - unfold MoE.pack.
    rewrite (bind_ok _ _ _ _ _ Hts), (bind_ok _ _ _ _ _ Hflat).
    rewrite (bind_ok _ _ _ _ _ Hrb).
    assert (H0 : 0 < length ws) by (destruct ws; [congruence | simpl; lia]).
    pose proof (Hview 0 H0) as Hv0.
    destruct (unflatten_dense_tensors flat ts) as [|first rest]; [discriminate|].
    simpl in Hv0. inversion Hv0; subst first. simpl.
    unfold view, numel. simpl.
    assert (Hn : (length ws * numel_of shape =? length cells * 1) = true)
      by (apply Nat.eqb_eq; lia).
    rewrite Hn. reflexivity.
  - reflexivity.
  - exists cells. rewrite Hst. simpl. split; [apply lookup_insert_eq|].
    unfold numel. simpl. lia.
  - intros b c Hb. rewrite Hst. simpl. rewrite lookup_insert_ne; [exact Hb|].
    intros <-. unfold a in Hb. rewrite fresh_key_None in Hb. discriminate.
  - intros i p Hp. rewrite Hsel.
    apply (Hin i p); [exact Hp|]. apply Hview.
    now apply lookup_lt_Some in Hp.
  - intros q Hq. now rewrite (Hout q Hq).
  - intros i p t Hp Ht. rewrite Hsel. unfold contents at 1. simpl.
    rewrite Hst. simpl. rewrite lookup_insert_eq. unfold numel. simpl.
    destruct (Forall2_lookup_l _ _ _ _ _ Hpt Hp) as (t' & Hi & Hpd).
    rewrite Hpd in Ht. inversion Ht; subst t'.
    apply (take_drop_concat (numel_of shape) (map (contents h) ts)).
    + apply Forall_forall. intros l Hl.
      apply list_elem_of_In, in_map_iff in Hl as (t1 & <- & Ht1).
      rewrite Forall_forall in Hshape.
      destruct (Hshape t1) as (Hs1 & Hb1); [now apply list_elem_of_In|].
      rewrite (contents_length _ _ Hb1). unfold numel. now rewrite Hs1.
    + rewrite list_lookup_fmap, Hi. reflexivity.
Qed.

Lemma contents_extends h h' t :
  (forall a c, storages h !! a = Some c -> storages h' !! a = Some c) ->
  in_bounds h t -> contents h' t = contents h t.
Proof.
  intros Hext (cells & Hc & _). unfold contents.
  now rewrite (Hext _ _ Hc), Hc.
Qed.

Lemma has_param_storages h h' shape p :
  (forall a c, storages h !! a = Some c -> storages h' !! a = Some c) ->
  param_data h' !! p = param_data h !! p ->
  has_param h shape p -> has_param h' shape p.
Proof.
  intros Hext Hp (t & Ht & Hs & (cells & Hc & Hb)).
  exists t. rewrite Hp. split; [exact Ht|]. split; [exact Hs|].
  exists cells. auto.
Qed.

(** *** Construction *)

Lemma new_parameter_inv shape h p h' :
  new_parameter shape h = (Ok p, h') ->
  param_data h !! p = None /\ extends h h' /\ has_param h' shape p.
Proof.
  intros H. destruct (new_parameter_spec shape h) as (p0 & h0 & E & A).
  rewrite E in H. inversion H; subst. exact A.
Qed.

Lemma extends_fresh h h' p :
  extends h h' -> param_data h' !! p = None -> param_data h !! p = None.
Proof.
  intros (_ & He) Hp. destruct (param_data h !! p) as [t|] eqn:E; [|reflexivity].
  apply He in E. congruence.
Qed.

Lemma has_param_bound h shape p : has_param h shape p -> param_data h !! p <> None.
Proof. intros (t & Ht & _). congruence. Qed.

Lemma MLP_init_extends tp hs isz act lm rr h m h' :
  MLP.init tp hs isz act lm rr h = (Ok m, h') -> extends h h'.
Proof.
  unfold MLP.init. intros H.
  apply bind_inv_ok in H as (pr & h1 & Hpr & H).
  apply bind_inv_ok in H as (down & h2 & Hdown & H).
  assert (He1 : extends h h1).
  { destruct (split_layout lm).
    - apply bind_inv_ok in Hpr as (g & ha & Hg & Hpr).
      apply bind_inv_ok in Hpr as (u & hb & Hu & Hpr).
      unfold ret in Hpr. inversion Hpr; subst.
      unfold ColumnParallelLinear in Hg, Hu.
      apply bind_inv_ok in Hg as (w & hc & Hw & Hg).
      apply bind_inv_ok in Hu as (w' & hd & Hw' & Hu).
      unfold ret in Hg, Hu. inversion Hg; inversion Hu; subst.
      apply new_parameter_inv in Hw as (_ & A & _).
      apply new_parameter_inv in Hw' as (_ & B & _).
      eapply extends_trans; eauto.
    - apply bind_inv_ok in Hpr as (gu & ha & Hgu & Hpr).
      unfold ret in Hpr. inversion Hpr; subst.
      unfold MergedColumnParallelLinear in Hgu.
      apply bind_inv_ok in Hgu as (w & hc & Hw & Hgu).
      unfold ret in Hgu. inversion Hgu; subst.
      now apply new_parameter_inv in Hw as (_ & A & _). }
  assert (He2 : extends h1 h2).
  { unfold RowParallelLinear in Hdown.
    apply bind_inv_ok in Hdown as (w & hc & Hw & Hdown).
    unfold ret in Hdown. inversion Hdown; subst.
    now apply new_parameter_inv in Hw as (_ & A & _). }
  destruct (negb (String.eqb act "silu")); [discriminate|].
  destruct pr as [[[mw g] u] gu]. unfold ret in H. inversion H; subst.
  eapply extends_trans; eauto.
Qed.

(** A fused dense block owns two fresh, distinct weight parameters. *)
Lemma MLP_init_fused_heap tp hs isz act lm rr h m h' :
  split_layout lm = false ->
  MLP.init tp hs isz act lm rr h = (Ok m, h') ->
  is_Some (MLP.gate_up_proj m) /\
  param_data h !! gate_up_weight m = None /\
  param_data h !! down_weight m = None /\
  gate_up_weight m <> down_weight m /\
  has_param h' (gate_up_shape tp hs isz) (gate_up_weight m) /\
  has_param h' (down_shape tp hs isz) (down_weight m).
Proof.
  intros Hlm H. unfold MLP.init in H. rewrite Hlm in H.
  apply bind_inv_ok in H as (pr & h1 & Hpr & H).
  apply bind_inv_ok in H as (down & h2 & Hdown & H).
  apply bind_inv_ok in Hpr as (gu & ha & Hgu & Hpr).
  unfold ret in Hpr. inversion Hpr; subst; clear Hpr.
  unfold MergedColumnParallelLinear in Hgu.
  apply bind_inv_ok in Hgu as (w & hc & Hw & Hgu).
  unfold ret in Hgu. inversion Hgu; subst; clear Hgu.
  unfold RowParallelLinear in Hdown.
  apply bind_inv_ok in Hdown as (w' & hd & Hw' & Hdown).
  unfold ret in Hdown. inversion Hdown; subst; clear Hdown.
  destruct (negb (String.eqb act "silu")); [discriminate|].
  unfold ret in H. inversion H; subst; clear H.
  apply new_parameter_inv in Hw as (Hf1 & He1 & Hp1).
  apply new_parameter_inv in Hw' as (Hf2 & He2 & Hp2).
  unfold gate_up_weight, down_weight. simpl.
  split; [eauto|]. split; [exact Hf1|].
  split; [eapply extends_fresh; eauto|].
  split; [intros ->; now apply has_param_bound in Hp1|].
  split; [eapply has_param_extends; eauto | exact Hp2].
Qed.

(** The experts of a sparse block own pairwise distinct weight
    parameters, all bound to in-bounds tensors of one shape per kind. *)
Lemma experts_built tp hs isz act lm rr (xs : list Z) :
  split_layout lm = false ->
  forall h es h',
    for_each (fun _ : Z => MLP.init tp hs isz act lm rr) xs h = (Ok es, h') ->
    extends h h' /\
    Forall (fun e => is_Some (MLP.gate_up_proj e)) es /\
    NoDup (map gate_up_weight es ++ map down_weight es) /\
    Forall (has_param h' (gate_up_shape tp hs isz)) (map gate_up_weight es) /\
    Forall (has_param h' (down_shape tp hs isz)) (map down_weight es) /\
    Forall (fun p => param_data h !! p = None)
      (map gate_up_weight es ++ map down_weight es).
Proof.
  intros Hlm. induction xs as [|x xs IH]; simpl; intros h es h' H.
  - inversion H; subst. simpl.
    split; [apply extends_refl|]. repeat split; constructor.
  - apply bind_inv_ok in H as (e & h1 & He & H).
    apply bind_inv_ok in H as (es' & h2 & Hes & H).
    unfold ret in H. inversion H; subst; clear H.
    pose proof (MLP_init_extends _ _ _ _ _ _ _ _ _ He) as Hext1.
    apply (MLP_init_fused_heap _ _ _ _ _ _ _ _ _ Hlm) in He
      as (Hgu & Hf1 & Hf2 & Hne & Hp1 & Hp2).
    apply IH in Hes as (Hext2 & Hall & Hnd & Hs1 & Hs2 & Hfresh).
    assert (Hnot : forall p, has_param h1 (gate_up_shape tp hs isz) p \/
                             has_param h1 (down_shape tp hs isz) p ->
                             p ∉ map gate_up_weight es' ++ map down_weight es').
    { intros p Hp Hin. rewrite Forall_forall in Hfresh.
      apply Hfresh in Hin. destruct Hp as [Hp | Hp];
        now apply has_param_bound in Hp. }
    split; [eapply extends_trans; eauto|].
    split; [now constructor|].
    split.
    { simpl. rewrite <- Permutation_middle.
      apply NoDup_cons. split.
      - apply not_elem_of_cons. split; [exact Hne | apply Hnot; now left].
      - apply NoDup_cons. split; [apply Hnot; now right | exact Hnd]. }
    split.
    { simpl. constructor; [eapply has_param_extends; eauto | exact Hs1]. }
    split.
    { simpl. constructor; [eapply has_param_extends; eauto | exact Hs2]. }
    simpl. rewrite <- Permutation_middle.
    constructor; [exact Hf1|]. constructor; [exact Hf2|].
    eapply Forall_impl; [exact Hfresh|]. simpl. intros p Hp.
    eapply extends_fresh; eauto.
Qed.

Lemma collect_weights es (h : Heap) :
  Forall (fun e => is_Some (MLP.gate_up_proj e)) es ->
  for_each
    (fun expert =>
       bind (getattr "gate_up_proj" (MLP.gate_up_proj expert))
         (fun gu => ret (weight gu, weight (MLP.down_proj expert))))
    es h
  = (Ok (map (fun e => (gate_up_weight e, down_weight e)) es), h).
Proof.
  induction 1 as [|e es (gu & Hgu) Hes IH]; [reflexivity|].
  simpl. erewrite bind_ok; cycle 1.
  { rewrite Hgu. reflexivity. }
  rewrite (bind_ok _ _ _ _ _ IH). unfold ret, gate_up_weight, down_weight.
  now rewrite Hgu.
Qed.

(** Packing returns only for a non-empty list of fused experts. *)
Lemma pack_params_ok_inv es h banks h' :
  MoE.pack_params es h = (Ok banks, h') ->
  es <> [] /\ Forall (fun e => is_Some (MLP.gate_up_proj e)) es.
Proof.
  intros H. unfold MoE.pack_params in H.
  apply bind_inv_ok in H as (ws & h1 & Hws & H). split.
  - intros ->. simpl in Hws. unfold ret in Hws. inversion Hws; subst.
    simpl in H. discriminate.
  - clear H. revert h ws h1 Hws. induction es as [|e es IH]; intros h ws h1 Hws.
    + constructor.
    + simpl in Hws.
      apply bind_inv_ok in Hws as (w & h2 & Hw & Hws).
      apply bind_inv_ok in Hws as (ws' & h3 & Hrest & _).
      constructor; [|exact (IH _ _ _ Hrest)].
      apply bind_inv_ok in Hw as (gu & h4 & Hgu & _).
      destruct (MLP.gate_up_proj e); [eauto | discriminate].
Qed.

(** What [pack_params] does to well-formed experts. *)
Lemma pack_params_spec es h shape1 shape2 :
  es <> [] ->
  Forall (fun e => is_Some (MLP.gate_up_proj e)) es ->
  NoDup (map gate_up_weight es ++ map down_weight es) ->
  Forall (has_param h shape1) (map gate_up_weight es) ->
  Forall (has_param h shape2) (map down_weight es) ->
  exists bank1 bank2 h',
    MoE.pack_params es h = (Ok (bank1, bank2), h') /\
    t_shape bank1 = length es :: shape1 /\
    t_shape bank2 = length es :: shape2 /\
    in_bounds h' bank1 /\ in_bounds h' bank2 /\
    (forall a c, storages h !! a = Some c -> storages h' !! a = Some c) /\
    (forall i e, es !! i = Some e ->
       param_data h' !! gate_up_weight e = Some (select0 bank1 i) /\
       param_data h' !! down_weight e = Some (select0 bank2 i)) /\
    (forall q, q ∉ map gate_up_weight es ++ map down_weight es ->
       param_data h' !! q = param_data h !! q) /\
    (forall i e t1 t2, es !! i = Some e ->
       param_data h !! gate_up_weight e = Some t1 ->
       param_data h !! down_weight e = Some t2 ->
       contents h' (select0 bank1 i) = contents h t1 /\
       contents h' (select0 bank2 i) = contents h t2).
Proof.
  intros Hne Hgu Hnd H1 H2.
  apply NoDup_app in Hnd as (Hnd1 & Hdisj & Hnd2).
  assert (Hne1 : map gate_up_weight es <> []) by (destruct es; [congruence | discriminate]).
  assert (Hne2 : map down_weight es <> []) by (destruct es; [congruence | discriminate]).
  destruct (pack_spec _ h shape1 Hne1 Hnd1 H1)
    as (bank1 & ha & Hp1 & Hs1 & Hb1 & He1 & Hin1 & Hout1 & Hc1).
  assert (H2a : Forall (has_param ha shape2) (map down_weight es)).
  { apply Forall_forall. intros q Hq. rewrite Forall_forall in H2.
    apply (has_param_storages h ha); [exact He1 | | now apply H2].
    apply Hout1. intros Hq1. now apply (Hdisj q). }
  destruct (pack_spec _ ha shape2 Hne2 Hnd2 H2a)
    as (bank2 & hb & Hp2 & Hs2 & Hb2 & He2 & Hin2 & Hout2 & Hc2).
  rewrite length_map in Hs1, Hs2.
  exists bank1, bank2, hb. split; [|split; [|split; [|split; [|split; [|split; [|split; [|split]]]]]]].
  - unfold MoE.pack_params. rewrite (bind_ok _ _ _ _ _ (collect_weights es h Hgu)).
    rewrite !map_map. simpl.
    rewrite (bind_ok _ _ _ _ _ Hp1), (bind_ok _ _ _ _ _ Hp2). reflexivity.
  - exact Hs1.
  - exact Hs2.
  - destruct Hb1 as (cells & Hc & Hb). exists cells. auto.
  - exact Hb2.
  - auto.
  - intros i e Hi.
    assert (Hi1 : map gate_up_weight es !! i = Some (gate_up_weight e))
      by (rewrite list_lookup_fmap, Hi; reflexivity).
    assert (Hi2 : map down_weight es !! i = Some (down_weight e))
      by (rewrite list_lookup_fmap, Hi; reflexivity).
    split; [|now apply Hin2].
    rewrite Hout2; [now apply Hin1|].
    intros Hq. apply (Hdisj (gate_up_weight e)); [|exact Hq].
    apply list_elem_of_lookup. eauto.
  - intros q Hq. apply not_elem_of_app in Hq as (Hq1 & Hq2).
    now rewrite Hout2, Hout1.
  - intros i e t1 t2 Hi Ht1 Ht2.
    assert (Hi1 : map gate_up_weight es !! i = Some (gate_up_weight e))
      by (rewrite list_lookup_fmap, Hi; reflexivity).
    assert (Hi2 : map down_weight es !! i = Some (down_weight e))
      by (rewrite list_lookup_fmap, Hi; reflexivity).
    assert (Hlt : i < length es) by now apply lookup_lt_Some in Hi.
    split.
    + rewrite <- (Hc1 i _ t1 Hi1 Ht1).
      apply contents_extends; [exact He2|].
      eapply slice_in_bounds; eauto.
    + assert (Hb : in_bounds h t2).
      { rewrite Forall_forall in H2.
        destruct (H2 (down_weight e)) as (t & Ht & _ & Hb);
          [apply list_elem_of_lookup; eauto|]. congruence. }
      rewrite (Hc2 i _ t2 Hi2).
      * now apply contents_extends.
      * rewrite Hout1; [exact Ht2|].
        intros Hq. apply (Hdisj (down_weight e)); [exact Hq|].
        apply list_elem_of_lookup. eauto.
Qed.

Lemma ReplicatedLinear_extends i o h l h' :
  ReplicatedLinear i o h = (Ok l, h') -> extends h h'.
Proof.
  unfold ReplicatedLinear. intros H.
  apply bind_inv_ok in H as (w & hc & Hw & H).
  unfold ret in H. inversion H; subst.
  now apply new_parameter_inv in Hw as (_ & A & _).
Qed.

(** What construction establishes: every expert's two weight parameters
    are bound to the slices of the two banks. *)
Lemma MoE_init_aliasing tp cfg lm h0 moe h1 :
  MoE.init tp cfg lm h0 = (Ok moe, h1) ->
  exists shape1 shape2,
    t_shape (MoE.w1 moe) = length (MoE.experts moe) :: shape1 /\
    t_shape (MoE.w2 moe) = length (MoE.experts moe) :: shape2 /\
    in_bounds h1 (MoE.w1 moe) /\ in_bounds h1 (MoE.w2 moe) /\
    forall i e, MoE.experts moe !! i = Some e ->
      param_data h1 !! gate_up_weight e = Some (select0 (MoE.w1 moe) i) /\
      param_data h1 !! down_weight e = Some (select0 (MoE.w2 moe) i).
Proof.
  unfold MoE.init. intros H.
  destruct (Config.n_routed_experts cfg) as [n|]; [|discriminate].
  unfold bind at 1 in H. unfold ret at 1 in H.
  destruct (tp >? n)%Z; [discriminate|].
  apply bind_inv_ok in H as (es & ha & Hes & H).
  apply bind_inv_ok in H as ([b1 b2] & hb & Hpack & H).
  apply bind_inv_ok in H as (g & hc & Hg & H).
  apply bind_inv_ok in H as (shared & hd & Hsh & H).
  unfold ret in H. inversion H; subst; clear H. simpl.
  pose proof (pack_params_ok_inv _ _ _ _ Hpack) as (Hne & Hfused).
  assert (Hlm : split_layout lm = false).
  { destruct (split_layout lm) eqn:E; [|reflexivity]. exfalso.
    destruct es as [|e0 es']; [congruence|].
    pose proof (for_each_ok_Forall _ split_mode _ _ _ _
                  (fun x s1 y s2 Hy => MLP_init_split_mode _ _ _ _ _ _ _ _ _ E Hy)
                  Hes) as Hall.
    inversion Hall as [|? ? (_ & Hnone & _) _]; subst.
    inversion Hfused as [|? ? (gu & Hgu) _]; subst. congruence. }
  destruct (experts_built _ _ _ _ _ _ _ Hlm _ _ _ Hes)
    as (_ & _ & Hnd & Hs1 & Hs2 & _).
  destruct (pack_params_spec es ha _ _ Hne Hfused Hnd Hs1 Hs2)
    as (bank1 & bank2 & hb' & Hp & Hsh1 & Hsh2 & Hb1 & Hb2 & _ & Hin & _).
  rewrite Hp in Hpack. inversion Hpack; subst; clear Hpack.
  assert (Hext : extends hb h1).
  { apply ReplicatedLinear_extends in Hg.
    eapply extends_trans; [exact Hg|].
    destruct (n_shared_experts cfg).
    - apply bind_inv_ok in Hsh as (m & he & Hm & Hr).
      unfold ret in Hr. inversion Hr; subst.
      eapply MLP_init_extends; eauto.
    - unfold ret in Hsh. inversion Hsh; subst. apply extends_refl. }
  exists (gate_up_shape tp (Config.hidden_size cfg) (moe_intermediate_size cfg)),
         (down_shape tp (Config.hidden_size cfg) (moe_intermediate_size cfg)).
  split; [exact Hsh1|]. split; [exact Hsh2|].
  split; [eapply in_bounds_extends; eauto|].
  split; [eapply in_bounds_extends; eauto|].
  intros i e Hi. destruct (Hin i e Hi) as (A & B).
  destruct Hext as (_ & Hext). split; now apply Hext.
Qed.

(** Loading a weight is a sequence of in-place writes. *)
Lemma copy_from_in_place h0 t values :
  forall h i, in_place h0 h -> in_place h0 (copy_from h t i values).
Proof.
  induction values as [|v values IH]; simpl; intros h i Hh; [exact Hh|].
  apply IH. now constructor.
Qed.

Lemma default_weight_loader_in_place h0 h p values :
  in_place h0 h -> in_place h0 (default_weight_loader h p values).
Proof.
  intros Hh. unfold default_weight_loader.
  destruct (param_data h !! p); [|exact Hh].
  now apply copy_from_in_place.
Qed.


(** So the fused kernel, which reads the banks, computes with what has
    been loaded through the experts' own parameters. *)
Lemma bank_slice_is_expert_weight tp cfg lm h0 h1 moe h i e gu :
  MoE.init tp cfg lm h0 = (Ok moe, h1) -> in_place h1 h ->
  MoE.experts moe !! i = Some e -> MLP.gate_up_proj e = Some gu ->
  weight_matrix h gu = matrix h (select0 (MoE.w1 moe) i) /\
  weight_matrix h (MLP.down_proj e) = matrix h (select0 (MoE.w2 moe) i).
Proof.
  intros Hinit Hplace Hi Hgu.
  destruct (MoE_init_aliasing _ _ _ _ _ _ Hinit)
    as (_ & _ & _ & _ & _ & _ & Halias).
  destruct (Halias i e Hi) as (A & B).
  unfold gate_up_weight in A. rewrite Hgu in A. unfold down_weight in B.
  unfold weight_matrix. rewrite (in_place_param_data _ _ Hplace).
  now rewrite A, B.
Qed.

End HeapFacts.

(** ** The properties on the small configurations *)

Lemma mlp_forward_mode_independent_witness :
  exists fused split gu g u,
    demo_fused_init = (Ok fused, snd demo_fused_init) /\
    demo_split_init = (Ok split, snd demo_split_init) /\
    (let gate := map (matvec (weight_matrix demo_split_heap g)) [[1; 1]%Q] in
     let up := map (matvec (weight_matrix demo_split_heap u)) [[1; 1]%Q] in
     apply_linear (fun y => y) demo_fused_heap gu [[1; 1]%Q] []
     = (Ok (cat_last gate up), []) /\
     MLP.forward exp_rational (fun y => y) demo_fused_heap fused [[1; 1]%Q] []
     = MLP.forward exp_rational (fun y => y) demo_split_heap split [[1; 1]%Q] [] /\
     (length (weight_matrix demo_split_heap g)
      = length (weight_matrix demo_split_heap u) ->
      map (SiluAndMul exp_rational) (cat_last gate up)
      = zip_with (zip_with (fun a b => (silu exp_rational a * b)%Q)) gate up)).
Proof.
  exists {| MLP.merge_weight := true; MLP.gate_proj := None; MLP.up_proj := None;
            MLP.gate_up_proj :=
              Some {| class := MergedColumnParallel; weight := 0;
                      reduce_results := false |};
            MLP.down_proj := {| class := RowParallel; weight := 1;
                                reduce_results := true |} |},
         {| MLP.merge_weight := false;
            MLP.gate_proj := Some {| class := ColumnParallel; weight := 0;
                                     reduce_results := false |};
            MLP.up_proj := Some {| class := ColumnParallel; weight := 1;
                                   reduce_results := false |};
            MLP.gate_up_proj := None;
            MLP.down_proj := {| class := RowParallel; weight := 2;
                                reduce_results := true |} |},
         {| class := MergedColumnParallel; weight := 0; reduce_results := false |},
         {| class := ColumnParallel; weight := 0; reduce_results := false |},
         {| class := ColumnParallel; weight := 1; reduce_results := false |}.
  split; [reflexivity|]. split; [reflexivity|].
  apply (mlp_forward_mode_independent exp_rational (fun y => y)
           1 2 2 "silu" true None split_backend
           empty_heap (snd demo_fused_init) empty_heap (snd demo_split_init));
    reflexivity.
Defined.

Lemma moe_forward_single_all_reduce_witness :
  exists moe h1 y payload,
    MoE.init 2 demo_config None empty_heap = (Ok moe, h1) /\
    Forall (fun e => reduce_results (MLP.down_proj e) = false) (MoE.experts moe) /\
    MoE.forward exp_rational (fun t => t) h1 moe
      [[1; 1; 1; 1; 1; 1; 1; 1]%Q] []
    = (Ok y, [payload]).
Proof.
  destruct (MoE.init 2 demo_config None empty_heap) as [[moe|e] h1] eqn:E;
    [|vm_compute in E; discriminate].
  exists moe, h1.
  destruct (moe_forward_single_all_reduce exp_rational (fun t => t)
              2 demo_config None empty_heap h1 moe h1
              [[1; 1; 1; 1; 1; 1; 1; 1]%Q] [] E)
    as (Hexperts & _ & Hfw & Htotal).
  assert (Hok : is_ok (fst (MoE.forward exp_rational (fun t => t) h1 moe
                              [[1; 1; 1; 1; 1; 1; 1; 1]%Q] [])) = true).
  { apply Htotal. pose proof E as E'. vm_compute in E'.
    inversion E'; subst moe h1. vm_compute. split; discriminate. }
  cbv zeta in Hfw.
  destruct (MoE.forward exp_rational (fun t => t) h1 moe
              [[1; 1; 1; 1; 1; 1; 1; 1]%Q] []) as [[y|err] log'];
    [|discriminate].
  destruct Hfw as (routing & shared & _ & _ & Hlog & _).
  simpl in Hlog. rewrite Hlog.
  eexists y, _. split; [reflexivity|]. split; [exact Hexperts|].
  reflexivity.
Defined.


(** After the load above, the three values written through the second
    expert's view are read in the bank's second slice. *)
Example load_seen_through_bank :
  match MoE.init 2 demo_config None empty_heap with
  | (Ok moe, h1) =>
      take 3 (contents (default_weight_loader h1 2 [7; 7; 7]%Q)
                (select0 (MoE.w1 moe) 1))
  | _ => []
  end = [7; 7; 7]%Q.
Proof. reflexivity. Qed.

(** ** More on weight loading *)

Section LoaderMore.
Import Loader.
Local Open Scope string_scope.
Local Arguments String.append !s1 s2 : simpl nomatch.

(** Replacing occurrences by a longer string lengthens the name. *)
Lemma replace_length (a : ascii) (old' new : string) :
  (String.length (String a old') <= String.length new)%nat ->
  forall s,
    (String.length s <= String.length (replace s (String a old') new))%nat /\
    (contains (String a old') s = true ->
     (String.length (String a old') < String.length new)%nat ->
     (String.length s < String.length (replace s (String a old') new))%nat).
Proof.
  intros Hlen s.
  remember (String.length s) as n eqn:Hn. revert s Hn.
  induction n as [n IH] using lt_wf_ind. intros s Hn.
  destruct s as [|c s].
  - split; [rewrite replace_nil; simpl in *; lia|].
    simpl. discriminate.
  - destruct (startswith (String a old') (String c s)) eqn:E.
    + apply startswith_iff in E as (r & Hr). rewrite Hr, replace_match.
      rewrite !length_append.
      assert (Hnr : n = (String.length (String a old') + String.length r)%nat)
        by (rewrite Hn, Hr; apply length_append).
      destruct (IH (String.length r)) with (s := r) as (Hge & _);
        [simpl in *; lia | reflexivity |].
      split; [lia | intros _ Hlt; lia].
    + rewrite (replace_step _ _ _ _ _ E).
      assert (Hns : n = S (String.length s)) by (rewrite Hn; reflexivity).
      destruct (IH (String.length s)) with (s := s) as (Hge & Hgt);
        [lia | reflexivity |].
      split; [simpl; lia|].
      intros Hc Hlt. simpl String.length.
      assert (Hc' : contains (String a old') s = true).
      { change (contains (String a old') (String c s))
          with (if startswith (String a old') (String c s) then true
                else contains (String a old') s) in Hc.
        now rewrite E in Hc. }
      specialize (Hgt Hc' Hlt). lia.
Qed.

(** An occurrence of [p] brings an occurrence of everything that occurs
    in [p]. *)
Lemma contains_trans (q p s : string) :
  contains q p = true -> contains p s = true -> contains q s = true.
Proof.
  intros Hq Hp. apply contains_iff in Hq as (u & r & ->).
  apply contains_iff in Hp as (u' & r' & ->).
  apply contains_iff. exists (append u' u), (append r r').
  now rewrite !append_assoc.
Qed.

Lemma load_unstacked_call params name n l s :
  load_unstacked params name = Call n l s ->
  n = name /\ s = None /\ in_dict params n = true.
Proof.
  unfold load_unstacked, in_dict.
  destruct (extra_bias params name); [discriminate|].
  destruct (foreign_expert params name); [discriminate|].
  destruct (params !! name) as [p|] eqn:E; [|discriminate].
  intros H. inversion H; subst. now rewrite E.
Qed.

Lemma replace_lengthens pn wn sid name :
  row_lengthens (pn, wn, sid) = true -> contains wn name = true ->
  (String.length name < String.length (replace name wn pn))%nat.
Proof.
  unfold row_lengthens. destruct wn as [|a wn']; [discriminate|].
  intros Hlen Hc. apply Nat.ltb_lt in Hlen.
  apply (replace_length a wn' pn); [lia | exact Hc | exact Hlen].
Qed.

(** Once the loop has gone on past a rewritten name, a call can only
    come from a later row, under a longer name and with a shard id. *)
Lemma load_stacked_after_skip params rest :
  forallb row_lengthens rest = true ->
  forall name n l s,
    extra_bias params name || foreign_expert params name = true ->
    load_stacked params rest name = Call n l s ->
    s <> None /\ (String.length name < String.length n)%nat /\
    in_dict params n = true /\ l <> DefaultLoader.
Proof.
  induction rest as [|[[pn wn] sid] rest IH]; simpl; intros Hrows name n l s Hskip H.
  - unfold load_unstacked in H. apply orb_true_iff in Hskip as [E | E].
    + rewrite E in H. discriminate.
    + rewrite E in H. destruct (extra_bias params name); discriminate.
  - apply andb_true_iff in Hrows as (Hrow & Hrows).
    destruct (contains wn name) eqn:Ec; simpl in H; [|eauto].
    pose proof (replace_lengthens pn wn sid name Hrow Ec) as Hlt.
    destruct (extra_bias params (replace name wn pn)) eqn:E1.
    { destruct (IH Hrows _ n l s ltac:(rewrite E1; reflexivity) H)
        as (A & B & C & D).
      repeat split; auto; lia. }
    destruct (foreign_expert params (replace name wn pn)) eqn:E2.
    { destruct (IH Hrows _ n l s ltac:(rewrite E1, E2; reflexivity) H)
        as (A & B & C & D).
      repeat split; auto; lia. }
    destruct (params !! replace name wn pn) as [p|] eqn:Ep; [|discriminate].
    destruct (weight_loader p); [|discriminate].
    inversion H; subst. unfold in_dict. rewrite Ep.
    repeat split; auto; discriminate.
Qed.

(** The two kinds of call of the inner loop: under the entry's own name
    without a shard id, when no row matches it; otherwise under a longer
    name, with a shard id and the attached loader. *)
Lemma load_stacked_call_cases params mapping :
  forallb row_lengthens mapping = true ->
  forall name n l s,
    load_stacked params mapping name = Call n l s ->
    in_dict params n = true /\
    ((first_match mapping name = None /\ s = None /\ n = name) \/
     (first_match mapping name <> None /\ s <> None /\ l <> DefaultLoader /\
      (String.length name < String.length n)%nat)).
Proof.
  induction mapping as [|[[pn wn] sid] rest IH]; simpl; intros Hrows name n l s H.
  - apply load_unstacked_call in H as (-> & -> & Hin). auto.
  - apply andb_true_iff in Hrows as (Hrow & Hrows).
    destruct (contains wn name) eqn:Ec; simpl in H; [|eauto].
    pose proof (replace_lengthens pn wn sid name Hrow Ec) as Hlt.
    assert (Hcont : extra_bias params (replace name wn pn)
                    || foreign_expert params (replace name wn pn) = true ->
                    load_stacked params rest (replace name wn pn) = Call n l s ->
                    in_dict params n = true /\
                    (Some (pn, wn, sid) <> None /\ s <> None /\
                     l <> DefaultLoader /\
                     (String.length name < String.length n)%nat)).
    { intros Hskip Hc.
      destruct (load_stacked_after_skip params rest Hrows _ n l s Hskip Hc)
        as (A & B & C & D).
      split; [exact C|]. split; [discriminate|]. split; [exact A|].
      split; [exact D | lia]. }
    destruct (extra_bias params (replace name wn pn)) eqn:E1.
    { destruct (Hcont eq_refl H) as (A & B). auto. }
    destruct (foreign_expert params (replace name wn pn)) eqn:E2.
    { destruct (Hcont eq_refl H) as (A & B). auto. }
    destruct (params !! replace name wn pn) as [p|] eqn:Ep; [|discriminate].
    destruct (weight_loader p); [|discriminate].
    inversion H; subst. unfold in_dict. rewrite Ep.
    split; [reflexivity|]. right. repeat split; auto; discriminate.
Qed.

Lemma active_mapping_lengthens lm :
  forallb row_lengthens (active_mapping lm) = true.
Proof. unfold active_mapping. destruct (split_layout lm); reflexivity. Qed.

Lemma load_entry_call lm params name n l s :
  load_entry lm params name = Call n l s ->
  load_stacked params (active_mapping lm) name = Call n l s.
Proof.
  unfold load_entry. destruct (contains "rotary_emb.inv_freq" name);
    [discriminate | auto].
Qed.

(** X1. Whatever the checkpoint, every call [load_weights] makes is on a
    parameter the model has; the default loader is never given a shard
    id; and the tensors passed are tensors of the checkpoint, in the
    checkpoint's order, each entry used at most once. *)
Theorem load_weights_calls_sound {T} (lm : option LinearMethodBase)
    (params : gmap string Param) (checkpoint : list (string * T)) :
  Forall (fun '(p, l, s, _) =>
            in_dict params p = true /\ (l = DefaultLoader -> s = None))
    (fst (load_weights lm params checkpoint)) /\
  sublist (map snd (fst (load_weights lm params checkpoint)))
    (map snd checkpoint).
Proof.
  induction checkpoint as [|[name w] rest (IH1 & IH2)]; simpl.
  - split; [constructor | reflexivity].
  - destruct (load_entry lm params name) as [|n l s|e] eqn:E.
    + split; [exact IH1 | now apply sublist_cons].
    + destruct (load_weights lm params rest) as [calls err]. simpl in *.
      split; [|now apply sublist_skip].
      constructor; [|exact IH1].
      apply load_entry_call in E.
      destruct (load_stacked_call_cases params _ (active_mapping_lengthens lm)
                  _ _ _ _ E) as (Hin & [(_ & Hs & _) | (_ & _ & Hl & _)]).
      * split; [exact Hin | intros _; exact Hs].
      * split; [exact Hin | intros Hd; contradiction].
    + simpl. split; [constructor | apply sublist_nil_l].
Qed.

Lemma load_stacked_key_error params mapping :
  forallb row_separated mapping = true ->
  forall name n,
    load_stacked params mapping name = Fatal (KeyError n) ->
    skip_shaped n = false /\ in_dict params n = false /\
    (skip_shaped name = true -> False).
Proof.
  assert (Hlookup : forall m,
            extra_bias params m = false -> foreign_expert params m = false ->
            params !! m = None ->
            skip_shaped m = false /\ in_dict params m = false).
  { intros m E1 E2 Em. pose proof (skip_tests params m) as Ht.
    rewrite E1, E2 in Ht. simpl in Ht. unfold in_dict in *. rewrite Em in *.
    simpl in Ht. rewrite andb_true_r in Ht. auto. }
  induction mapping as [|[[pn wn] sid] rest IH]; simpl; intros Hsep name n H.
  - unfold load_unstacked in H.
    destruct (extra_bias params name) eqn:E1; [discriminate|].
    destruct (foreign_expert params name) eqn:E2; [discriminate|].
    destruct (params !! name) as [p|] eqn:Ep; [discriminate|].
    inversion H; subst. destruct (Hlookup n E1 E2 Ep) as (A & B).
    repeat split; auto. congruence.
  - apply andb_true_iff in Hsep as (Hrow & Hsep).
    destruct (contains wn name) eqn:Ec; simpl in H; [|eauto].
    assert (Hkeep : skip_shaped name = true ->
                    skip_shaped (replace name wn pn) = true)
      by exact (skip_shaped_replace name wn pn sid Hrow).
    destruct (extra_bias params (replace name wn pn)) eqn:E1.
    { destruct (IH Hsep _ _ H) as (A & B & C). auto. }
    destruct (foreign_expert params (replace name wn pn)) eqn:E2.
    { destruct (IH Hsep _ _ H) as (A & B & C). auto. }
    destruct (params !! replace name wn pn) as [p|] eqn:Ep.
    { destruct (weight_loader p); discriminate. }
    inversion H; subst. destruct (Hlookup _ E1 E2 Ep) as (A & B).
    repeat split; auto. intros Hn. apply Hkeep in Hn. congruence.
Qed.

(** X2. A lookup error is never raised for a bias-suffixed, expert or
    shared-expert name: when an entry ends in [KeyError], neither the
    name that was looked up nor the entry's own name is of that kind,
    and the name looked up is not in the model. *)
Theorem lookup_error_only_for_plain_names
    (lm : option LinearMethodBase) (params : gmap string Param)
    (name n : string) :
  load_entry lm params name = Fatal (KeyError n) ->
  skip_shaped n = false /\ in_dict params n = false /\ skip_shaped name = false.
Proof.
  unfold load_entry. destruct (contains "rotary_emb.inv_freq" name);
    [discriminate|]. intros H.
  destruct (load_stacked_key_error params _ (active_mapping_separated lm) _ _ H)
    as (A & B & C).
  repeat split; auto. destruct (skip_shaped name); [now exfalso | reflexivity].
Qed.

Lemma lookup_error_only_for_plain_names_witness :
  load_entry None demo_params "model.layers.0.self_attn.q_proj.scales"
  = Fatal (KeyError "model.layers.0.self_attn.qkv_proj.scales") /\
  skip_shaped "model.layers.0.self_attn.qkv_proj.scales" = false /\
  in_dict demo_params "model.layers.0.self_attn.qkv_proj.scales" = false /\
  skip_shaped "model.layers.0.self_attn.q_proj.scales" = false.
Proof.
  split; [reflexivity|].
  apply (lookup_error_only_for_plain_names None demo_params
           "model.layers.0.self_attn.q_proj.scales"
           "model.layers.0.self_attn.qkv_proj.scales").
  reflexivity.
Defined.

(** X4. With fused layouts permitted, an entry whose name already
    mentions a fused projection ([qkv_proj] or [gate_up_proj]) is still
    taken through the stacking table, because [v_proj] and [up_proj]
    occur in those names: it is never loaded under its own name, and a
    call, if one is made, is under a strictly longer name and with a
    shard id. *)
Theorem fused_names_are_rewritten
    (lm : option LinearMethodBase) (params : gmap string Param) (name : string) :
  split_layout lm = false ->
  contains "qkv_proj" name || contains "gate_up_proj" name = true ->
  first_match (active_mapping lm) name <> None /\
  forall n l s,
    load_entry lm params name = Call n l s ->
    s <> None /\ n <> name /\ (String.length name < String.length n)%nat.
Proof.
  intros Hlm Hname.
  assert (Hm : first_match (active_mapping lm) name <> None).
  { unfold active_mapping. rewrite Hlm. unfold stacked_params_mapping. simpl.
    apply orb_true_iff in Hname as [Hq | Hg].
    - pose proof (contains_trans "v_proj" "qkv_proj" name eq_refl Hq) as Hv.
      destruct (contains "q_proj" name); [discriminate|].
      destruct (contains "k_proj" name); [discriminate|].
      rewrite Hv. discriminate.
    - pose proof (contains_trans "up_proj" "gate_up_proj" name eq_refl Hg) as Hu.
      destruct (contains "q_proj" name); [discriminate|].
      destruct (contains "k_proj" name); [discriminate|].
      destruct (contains "v_proj" name); [discriminate|].
      destruct (contains "gate_proj" name); [discriminate|].
      rewrite Hu. discriminate. }
  split; [exact Hm|]. intros n l s H. apply load_entry_call in H.
  destruct (load_stacked_call_cases params _ (active_mapping_lengthens lm)
              _ _ _ _ H) as (_ & [(Hnone & _) | (_ & Hs & _ & Hlt)]);
    [contradiction|].
  repeat split; auto. intros ->. lia.
Qed.

Lemma fused_names_are_rewritten_witness :
  first_match (active_mapping None) "model.layers.0.mlp.gate_up_proj.weight"
  <> None /\
  forall n l s,
    load_entry None demo_params "model.layers.0.mlp.gate_up_proj.weight"
    = Call n l s ->
    s <> None /\ n <> "model.layers.0.mlp.gate_up_proj.weight" /\
    (String.length "model.layers.0.mlp.gate_up_proj.weight" < String.length n)%nat.
Proof.
  apply (fused_names_are_rewritten None demo_params
           "model.layers.0.mlp.gate_up_proj.weight"); reflexivity.
Defined.

(** The model has [gate_up_proj.weight], yet the entry of that name
    ends in a lookup error for the name rewritten once more. *)
Example fused_name_is_not_found :
  load_entry None demo_params "model.layers.0.mlp.gate_up_proj.weight"
  = Fatal (KeyError "model.layers.0.mlp.gate_gate_up_proj.weight").
Proof. reflexivity. Qed.

End LoaderMore.

(** ** More on construction *)

Section ConstructionMore.

(** A rejected attention configuration raises before anything is
    allocated. *)
Lemma Attention_init_raise_inv tp hidden heads kv lm h e h' :
  Attention.init tp hidden heads kv lm h = (Raise e, h') ->
  h' = h /\ (e = AssertionError \/ e = ZeroDivisionError).
Proof.
  unfold Attention.init, pymod, floordiv.
  unfold bind, lift, assert, ret, raise.
  destruct (tp =? 0); [intros H; inversion H; auto|].
  destruct (heads mod tp =? 0); [|intros H; inversion H; auto].
  destruct (kv >=? tp).
  - destruct (kv mod tp =? 0); [|intros H; inversion H; auto].
    destruct (heads =? 0); [intros H; inversion H; auto|].
    destruct (hidden / heads =? 0); [intros H; inversion H; auto|].
    unfold ColumnParallelLinear, QKVParallelLinear, RowParallelLinear,
      new_parameter, bind, ret.
    destruct (split_layout lm); simpl; discriminate.
  - destruct (kv =? 0); [intros H; inversion H; auto|].
    destruct (tp mod kv =? 0); [|intros H; inversion H; auto].
    destruct (heads =? 0); [intros H; inversion H; auto|].
    destruct (hidden / heads =? 0); [intros H; inversion H; auto|].
    unfold ColumnParallelLinear, QKVParallelLinear, RowParallelLinear,
      new_parameter, bind, ret.
    destruct (split_layout lm); simpl; discriminate.
Qed.

(** X5. The attention block is constructed exactly for the
    configurations that pass its checks: a non-zero worker count that
    divides the head count; key/value heads that are a non-zero multiple
    of the workers, or a non-zero divisor of them when fewer; a non-zero
    head count; and a non-zero [hidden_size // total_num_heads].  Any
    other configuration raises [AssertionError] or [ZeroDivisionError]
    before any weight is allocated. *)
Theorem attention_constructed_iff
    (tp hidden heads kv : Z) (lm : option LinearMethodBase) (h : Heap) :
  ((exists a h', Attention.init tp hidden heads kv lm h = (Ok a, h')) <->
   tp <> 0 /\ heads mod tp = 0 /\
   (if kv >=? tp then kv mod tp = 0 else kv <> 0 /\ tp mod kv = 0) /\
   heads <> 0 /\ hidden / heads <> 0) /\
  (forall e h', Attention.init tp hidden heads kv lm h = (Raise e, h') ->
                h' = h /\ (e = AssertionError \/ e = ZeroDivisionError)).
Proof.
  split.
  - split.
    + intros (a & h' & H). now apply Attention_init_ok_inv in H as (Hacc & _).
    + intros Hacc. now apply Attention_init_total.
  - intros e h'. apply Attention_init_raise_inv.
Qed.

(** X6. In a constructed attention block the key/value heads are either
    split or replicated: with at least as many of them as workers each
    worker holds [total // workers] and these add up to the total; with
    fewer, each worker holds exactly one, the key/value width is one
    head, and the total divides the worker count. *)
Theorem kv_heads_split_or_replicated
    (tp hidden heads kv : Z) (lm : option LinearMethodBase) (h h' : Heap)
    (a : Attention.DeepseekAttention) :
  1 <= tp ->
  Attention.init tp hidden heads kv lm h = (Ok a, h') ->
  (tp <= kv ->
   Attention.num_kv_heads a * tp = kv /\
   Attention.kv_size a = (kv / tp) * Attention.head_dim a) /\
  (kv < tp ->
   Attention.num_kv_heads a = 1 /\
   Attention.kv_size a = Attention.head_dim a /\ (kv | tp)).
Proof.
  intros Htp H.
  apply Attention_init_ok_inv in H
    as ((_ & _ & Hkv & _ & _) & _ & _ & _ & Hnkv & Hhd & _ & Hkvs & _).
  rewrite Hnkv, Hkvs, Hhd. split; intros Hcmp.
  - destruct (kv >=? tp) eqn:E; [|lia].
    apply Z.mod_divide in Hkv; [|lia]. destruct Hkv as (q & ->).
    rewrite Z.div_mul by lia.
    assert (1 <= q) by nia. rewrite Z.max_r by lia. split; reflexivity.
  - destruct (kv >=? tp) eqn:E; [lia|]. destruct Hkv as (Hk0 & Hk).
    assert (Hle : kv / tp <= 0).
    { destruct (Z_lt_le_dec kv 0).
      - apply Z.lt_le_incl. apply Z.div_lt_upper_bound; lia.
      - rewrite Z.div_small by lia. lia. }
    rewrite Z.max_l by lia.
    split; [reflexivity|]. split; [lia|].
    apply Z.mod_divide; [exact Hk0 | exact Hk].
Qed.

Lemma kv_heads_split_or_replicated_witness :
  exists a h',
    Attention.init 4 64 8 2 None empty_heap = (Ok a, h') /\
    (4 <= 2 ->
     Attention.num_kv_heads a * 4 = 2 /\
     Attention.kv_size a = (2 / 4) * Attention.head_dim a) /\
    (2 < 4 ->
     Attention.num_kv_heads a = 1 /\
     Attention.kv_size a = Attention.head_dim a /\ (2 | 4)).
Proof.
  destruct (Attention.init 4 64 8 2 None empty_heap) as [[a|e] h'] eqn:E;
    [|vm_compute in E; discriminate].
  exists a, h'. split; [reflexivity|].
  apply (kv_heads_split_or_replicated 4 64 8 2 None empty_heap h' a);
    [lia | exact E].
Defined.

End ConstructionMore.

(** ** The sparse block's constructor and the layer stack *)

Section StackFacts.

Lemma for_each_ok_lookup {S A B} (f : A -> M S B) xs :
  forall s ys s', for_each f xs s = (Ok ys, s') ->
  forall (i : nat) y, ys !! i = Some y ->
  exists x s1 s2, xs !! i = Some x /\ f x s1 = (Ok y, s2).
Proof.
  induction xs as [|x xs IH]; simpl; intros s ys s' H i y Hy.
  - unfold ret in H. inversion H; subst. destruct i; discriminate.
  - apply bind_inv_ok in H as (y0 & s1 & Hy0 & H).
    apply bind_inv_ok in H as (ys0 & s2 & Hys0 & H).
    unfold ret in H. inversion H; subst; clear H.
    destruct i as [|i]; simpl in Hy.
    + inversion Hy; subst. exists x, s, s1. split; [reflexivity | exact Hy0].
    + destruct (IH _ _ _ Hys0 i y Hy) as (x' & sa & sb & Hx & Hf).
      exists x', sa, sb. split; [exact Hx | exact Hf].
Qed.

Lemma for_each_raise_at {S A B} (f : A -> M S B) xs :
  forall s (i : nat) x,
    xs !! i = Some x ->
    (forall s1, is_ok (fst (f x s1)) = false) ->
    is_ok (fst (for_each f xs s)) = false.
Proof.
  induction xs as [|x0 xs IH]; intros s i x Hi Hbad; [destruct i; discriminate|].
  simpl. unfold bind at 1.
  destruct (f x0 s) as [[y|e] s1] eqn:E.
  - destruct i as [|i]; simpl in Hi.
    + inversion Hi; subst. specialize (Hbad s). rewrite E in Hbad. discriminate.
    + specialize (IH s1 i x Hi Hbad). unfold bind at 1.
      destruct (for_each f xs s1) as [[ys|e] s2]; [discriminate | reflexivity].
  - reflexivity.
Qed.

Lemma range_lookup n (i : nat) x :
  range n !! i = Some x -> x = Z.of_nat i /\ (Z.of_nat i < n).
Proof.
  unfold range. rewrite list_lookup_fmap.
  destruct (seq 0 (Z.to_nat n) !! i) as [j|] eqn:E; [|discriminate].
  simpl. intros H. inversion H; subst.
  apply lookup_seq in E as (-> & Hlt). split; [reflexivity | lia].
Qed.

Lemma range_lookup_lt n (i : nat) :
  Z.of_nat i < n -> range n !! i = Some (Z.of_nat i).
Proof.
  intros H. unfold range. rewrite list_lookup_fmap.
  rewrite (lookup_seq_lt 0 (Z.to_nat n) i) by lia. reflexivity.
Qed.

(** What the constructor of a sparse block needs. *)
Lemma MoE_init_needs tp cfg lm h0 moe h1 :
  MoE.init tp cfg lm h0 = (Ok moe, h1) ->
  exists n, Config.n_routed_experts cfg = Some n /\ 1 <= n /\ tp <= n /\
            hidden_act cfg = "silu"%string /\ split_layout lm = false.
Proof.
  intros H.
  destruct (MoE_init_ok_inv _ _ _ _ _ _ H)
    as (n & Hn & Htp & _ & _ & _ & Hlen & Hbuilt & (ha & hb & Hpack) & _).
  apply pack_params_ok_inv in Hpack as (Hne & Hfused).
  exists n. split; [exact Hn|].
  destruct (MoE.experts moe) as [|e0 es]; [congruence|].
  simpl in Hlen. split; [lia|]. split; [exact Htp|].
  inversion Hbuilt as [|? ? (h2 & h3 & He0) _]; subst.
  split; [eapply MLP_init_ok_silu; exact He0|].
  destruct (split_layout lm) eqn:E; [|reflexivity]. exfalso.
  apply (MLP_init_split_mode _ _ _ _ _ _ _ _ _ E) in He0 as (_ & Hnone & _).
  inversion Hfused as [|? ? (gu & Hgu) _]; subst. congruence.
Qed.

(** What it builds when it has that. *)
Lemma MoE_init_builds tp cfg lm h0 n :
  Config.n_routed_experts cfg = Some n -> 1 <= n -> tp <= n ->
  hidden_act cfg = "silu"%string -> split_layout lm = false ->
  exists moe h1,
    MoE.init tp cfg lm h0 = (Ok moe, h1) /\
    length (MoE.experts moe) = Z.to_nat n /\
    t_shape (MoE.w1 moe)
    = Z.to_nat n :: gate_up_shape tp (Config.hidden_size cfg)
                      (moe_intermediate_size cfg) /\
    t_shape (MoE.w2 moe)
    = Z.to_nat n :: down_shape tp (Config.hidden_size cfg)
                      (moe_intermediate_size cfg) /\
    (is_Some (MoE.shared_experts moe) <-> is_Some (n_shared_experts cfg)).
Proof.
  intros Hn H1 Htp Hact Hlm. unfold MoE.init. rewrite Hn, Hact.
  unfold bind at 1. unfold ret at 1.
  destruct (tp >? n) eqn:E; [lia|].
  destruct (for_each_total
              (fun _ : Z => MLP.init tp (Config.hidden_size cfg)
                              (moe_intermediate_size cfg) "silu" lm false)
              (range n) h0) as (es & ha & Hes).
  { intros x s1. destruct (MLP_init_silu tp (Config.hidden_size cfg)
                             (moe_intermediate_size cfg) lm false s1)
      as (m & h' & Hm & _). eauto. }
  rewrite (bind_ok _ _ _ _ _ Hes).
  assert (Hlen : length es = Z.to_nat n).
  { apply for_each_ok_length in Hes. rewrite Hes. unfold range.
    now rewrite length_map, length_seq. }
  assert (Hne : es <> []).
  { intros ->. simpl in Hlen. lia. }
  destruct (experts_built _ _ _ _ _ _ _ Hlm _ _ _ Hes)
    as (_ & Hfused & Hnd & Hs1 & Hs2 & _).
  destruct (pack_params_spec es ha _ _ Hne Hfused Hnd Hs1 Hs2)
    as (bank1 & bank2 & hb & Hp & Hsh1 & Hsh2 & _).
  rewrite (bind_ok _ _ _ _ _ Hp).
  unfold bind at 1.
  destruct (ReplicatedLinear (Config.hidden_size cfg) n hb) as [[g|e] hc] eqn:Eg.
  2:{ unfold ReplicatedLinear, new_parameter, bind, ret in Eg. discriminate. }
  rewrite <- Hlen.
  destruct (n_shared_experts cfg) as [s|].
  - destruct (MLP_init_silu tp (Config.hidden_size cfg)
                (moe_intermediate_size cfg * s) lm false hc)
      as (m & hd & Hm & _).
    rewrite (bind_ok _ _ hc (Some m) hd).
    2:{ rewrite (bind_ok _ _ _ _ _ Hm). reflexivity. }
    eexists _, _. split; [reflexivity|]. simpl.
    repeat split; eauto.
  - unfold bind at 1. unfold ret at 1.
    eexists _, _. split; [reflexivity|]. simpl.
    split; [reflexivity|]. split; [exact Hsh1|]. split; [exact Hsh2|].
    split; intros (x & Hx); discriminate.
Qed.

(** X7. The sparse block is constructed exactly when the number of
    routed experts is an integer of at least one and of at least the
    worker count, the activation is [silu], and the backend permits
    fused layouts. *)
Theorem moe_constructed_iff
    (tp : Z) (cfg : PretrainedConfig) (lm : option LinearMethodBase) (h0 : Heap) :
  (exists moe h1, MoE.init tp cfg lm h0 = (Ok moe, h1)) <->
  (exists n, Config.n_routed_experts cfg = Some n /\ 1 <= n /\ tp <= n /\
             hidden_act cfg = "silu"%string /\ split_layout lm = false).
Proof.
  split.
  - intros (moe & h1 & H). eapply MoE_init_needs; exact H.
  - intros (n & Hn & H1 & Htp & Hact & Hlm).
    destruct (MoE_init_builds tp cfg lm h0 n Hn H1 Htp Hact Hlm)
      as (moe & h1 & H & _).
    now exists moe, h1.
Qed.

(** X8. A constructed sparse block has one expert per routed expert of
    the configuration, two banks whose leading dimension is that number
    and whose remaining dimensions are those of one expert's fused
    gate/up weight and of its down weight, and a shared-expert block
    exactly when [n_shared_experts] is set. *)
Theorem moe_constructed_shape
    (tp : Z) (cfg : PretrainedConfig) (lm : option LinearMethodBase)
    (h0 h1 : Heap) (moe : MoE.DeepseekMoE) :
  MoE.init tp cfg lm h0 = (Ok moe, h1) ->
  exists n,
    Config.n_routed_experts cfg = Some n /\
    length (MoE.experts moe) = Z.to_nat n /\
    t_shape (MoE.w1 moe)
    = Z.to_nat n :: gate_up_shape tp (Config.hidden_size cfg)
                      (moe_intermediate_size cfg) /\
    t_shape (MoE.w2 moe)
    = Z.to_nat n :: down_shape tp (Config.hidden_size cfg)
                      (moe_intermediate_size cfg) /\
    (is_Some (MoE.shared_experts moe) <-> is_Some (n_shared_experts cfg)).
Proof.
  intros H.
  destruct (MoE_init_needs _ _ _ _ _ _ H) as (n & Hn & H1 & Htp & Hact & Hlm).
  destruct (MoE_init_builds tp cfg lm h0 n Hn H1 Htp Hact Hlm)
    as (moe' & h1' & H' & Hrest).
  rewrite H in H'. inversion H'; subst. exists n. split; [exact Hn | exact Hrest].
Qed.

Lemma moe_constructed_shape_witness :
  exists moe h1,
    MoE.init 2 demo_config None empty_heap = (Ok moe, h1) /\
    exists n,
      Config.n_routed_experts demo_config = Some n /\
      length (MoE.experts moe) = Z.to_nat n /\
      t_shape (MoE.w1 moe)
      = Z.to_nat n :: gate_up_shape 2 (Config.hidden_size demo_config)
                        (moe_intermediate_size demo_config) /\
      t_shape (MoE.w2 moe)
      = Z.to_nat n :: down_shape 2 (Config.hidden_size demo_config)
                        (moe_intermediate_size demo_config) /\
      (is_Some (MoE.shared_experts moe) <-> is_Some (n_shared_experts demo_config)).
Proof.
  destruct (MoE.init 2 demo_config None empty_heap) as [[moe|e] h1] eqn:E;
    [|vm_compute in E; discriminate].
  exists moe, h1. split; [reflexivity|].
  apply (moe_constructed_shape 2 demo_config None empty_heap h1 moe E).
Defined.

(** What a constructed decoder layer was built from. *)
Lemma DecoderLayer_init_inv tp cfg layer_idx lm h layer h' :
  DecoderLayer.init tp cfg layer_idx lm h = (Ok layer, h') ->
  exists h1,
    Attention.init tp (Config.hidden_size cfg) (num_attention_heads cfg)
      (num_key_value_heads cfg) lm h = (Ok (DecoderLayer.self_attn layer), h1) /\
    ((sparse_layer cfg layer_idx /\
      exists moe, DecoderLayer.mlp layer = DecoderLayer.Sparse moe /\
                  MoE.init tp cfg lm h1 = (Ok moe, h')) \/
     (~ sparse_layer cfg layer_idx /\
      exists m, DecoderLayer.mlp layer = DecoderLayer.Dense m /\
                MLP.init tp (Config.hidden_size cfg) (intermediate_size cfg)
                  (hidden_act cfg) lm true h1 = (Ok m, h'))).
Proof.
  unfold DecoderLayer.init. intros H.
  apply bind_inv_ok in H as (a & h1 & Ha & H).
  apply bind_inv_ok in H as (b & h1' & Hb & H).
  apply use_moe_spec in Hb as (-> & Hb).
  apply bind_inv_ok in H as (ff & h2 & Hff & H).
  unfold ret in H. inversion H; subst; clear H. simpl.
  exists h1. split; [exact Ha|].
  destruct b.
  - apply bind_inv_ok in Hff as (moe & h3 & Hmoe & Hr).
    unfold ret in Hr. inversion Hr; subst; clear Hr.
    left. split; [now apply Hb|]. now exists moe.
  - apply bind_inv_ok in Hff as (m & h3 & Hm & Hr).
    unfold ret in Hr. inversion Hr; subst; clear Hr.
    right. split; [|now exists m].
    intros Hs. apply Hb in Hs. discriminate.
Qed.

(** X9. A constructed layer stack has [num_hidden_layers] layers, and
    the layer at each position is sparse exactly when the configuration
    makes that position sparse: routed experts configured, the position
    at least [first_k_dense_replace] and a multiple of
    [moe_layer_freq]. *)
Theorem layer_stack_kinds
    (tp : Z) (cfg : PretrainedConfig) (lm : option LinearMethodBase)
    (h h' : Heap) (layers : list DecoderLayer.DeepseekDecoderLayer) :
  DecoderLayer.init_layers tp cfg lm h = (Ok layers, h') ->
  length layers = Z.to_nat (num_hidden_layers cfg) /\
  forall (i : nat) layer,
    layers !! i = Some layer ->
    ((exists moe, DecoderLayer.mlp layer = DecoderLayer.Sparse moe)
     <-> sparse_layer cfg (Z.of_nat i)).
Proof.
  unfold DecoderLayer.init_layers. intros H. split.
  - apply for_each_ok_length in H. rewrite H. unfold range.
    now rewrite length_map, length_seq.
  - intros i layer Hi.
    destruct (for_each_ok_lookup _ _ _ _ _ H i layer Hi)
      as (x & s1 & s2 & Hx & Hinit).
    apply range_lookup in Hx as (-> & _).
    apply DecoderLayer_init_inv in Hinit
      as (h1 & _ & [(Hs & moe & Hm & _) | (Hs & m & Hm & _)]).
    + split; [intros _; exact Hs | intros _; now exists moe].
    + split; [intros (moe & Hmoe); congruence | intros Hyes; contradiction].
Qed.

Lemma layer_stack_kinds_witness :
  exists layers h',
    DecoderLayer.init_layers 1 demo_config None empty_heap = (Ok layers, h') /\
    length layers = Z.to_nat (num_hidden_layers demo_config) /\
    forall (i : nat) layer,
      layers !! i = Some layer ->
      ((exists moe, DecoderLayer.mlp layer = DecoderLayer.Sparse moe)
       <-> sparse_layer demo_config (Z.of_nat i)).
Proof.
  destruct (DecoderLayer.init_layers 1 demo_config None empty_heap)
    as [[layers|e] h'] eqn:E; [|vm_compute in E; discriminate].
  exists layers, h'. split; [reflexivity|].
  apply (layer_stack_kinds 1 demo_config None empty_heap h' layers E).
Defined.

Lemma DecoderLayer_init_fails tp cfg layer_idx lm h :
  (sparse_layer cfg layer_idx /\ split_layout lm = true) \/
  hidden_act cfg <> "silu"%string ->
  is_ok (fst (DecoderLayer.init tp cfg layer_idx lm h)) = false.
Proof.
  intros Hbad.
  destruct (DecoderLayer.init tp cfg layer_idx lm h) as [[layer|e] h'] eqn:E;
    [|reflexivity].
  exfalso.
  apply DecoderLayer_init_inv in E
    as (h1 & _ & [(Hs & moe & _ & Hm) | (Hs & m & _ & Hm)]).
  - apply MoE_init_needs in Hm as (n & _ & _ & _ & Hact & Hlm).
    destruct Hbad as [(_ & Hsplit) | Hna]; congruence.
  - apply MLP_init_ok_silu in Hm.
    destruct Hbad as [(Hyes & _) | Hna]; [contradiction | congruence].
Qed.

(** X10. With a backend that disallows fused layouts, a model whose
    configuration makes any of its layer positions sparse cannot be
    constructed: building the layer stack raises. *)
Theorem split_backend_excludes_sparse_layers
    (tp : Z) (cfg : PretrainedConfig) (lm : option LinearMethodBase)
    (h : Heap) (i : Z) :
  split_layout lm = true ->
  0 <= i < num_hidden_layers cfg ->
  sparse_layer cfg i ->
  is_ok (fst (DecoderLayer.init_layers tp cfg lm h)) = false.
Proof.
  intros Hlm Hi Hs. unfold DecoderLayer.init_layers.
  apply (for_each_raise_at _ _ h (Z.to_nat i) i).
  - rewrite <- (Z2Nat.id i) at 2 by lia. apply range_lookup_lt. lia.
  - intros s1. apply DecoderLayer_init_fails. left. split; assumption.
Qed.

Lemma split_backend_excludes_sparse_layers_witness :
  is_ok (fst (DecoderLayer.init_layers 1 demo_config split_backend empty_heap))
  = false.
Proof.
  apply (split_backend_excludes_sparse_layers 1 demo_config split_backend
           empty_heap 1).
  - reflexivity.
  - simpl. lia.
  - unfold sparse_layer. simpl. split; [discriminate|].
    split; [lia | exists 1; reflexivity].
Defined.

(** X11. With an activation other than [silu] no decoder layer can be
    constructed, whichever feed-forward block its position selects,
    and so no model with at least one layer. *)
Theorem unsupported_activation_blocks_every_layer
    (tp : Z) (cfg : PretrainedConfig) (lm : option LinearMethodBase)
    (h : Heap) :
  hidden_act cfg <> "silu"%string ->
  (forall layer_idx,
     is_ok (fst (DecoderLayer.init tp cfg layer_idx lm h)) = false) /\
  (1 <= num_hidden_layers cfg ->
   is_ok (fst (DecoderLayer.init_layers tp cfg lm h)) = false).
Proof.
  intros Hact. split.
  - intros layer_idx. apply DecoderLayer_init_fails. now right.
  - intros Hn. unfold DecoderLayer.init_layers.
    apply (for_each_raise_at _ _ h 0%nat 0).
    + apply (range_lookup_lt _ 0%nat). lia.
    + intros s1. apply DecoderLayer_init_fails. now right.
Qed.

Lemma unsupported_activation_blocks_every_layer_witness :
  (forall layer_idx,
     is_ok (fst (DecoderLayer.init 1 gelu_config layer_idx None empty_heap))
     = false) /\
  (1 <= num_hidden_layers gelu_config ->
   is_ok (fst (DecoderLayer.init_layers 1 gelu_config None empty_heap)) = false).
Proof.
  apply (unsupported_activation_blocks_every_layer 1 gelu_config None empty_heap).
  discriminate.
Defined.

(** X12. A zero [moe_layer_freq] is a division by zero at every layer
    position that reaches the modulo: with routed experts configured
    and the position at least [first_k_dense_replace], the layer
    constructor raises [ZeroDivisionError] once the attention block is
    built. *)
Theorem zero_moe_layer_freq_raises
    (tp : Z) (cfg : PretrainedConfig) (layer_idx : Z)
    (lm : option LinearMethodBase) (h : Heap) :
  moe_layer_freq cfg = 0 ->
  Config.n_routed_experts cfg <> None ->
  first_k_dense_replace cfg <= layer_idx ->
  heads_accepted tp (Config.hidden_size cfg) (num_attention_heads cfg)
    (num_key_value_heads cfg) ->
  exists h1,
    DecoderLayer.init tp cfg layer_idx lm h = (Raise ZeroDivisionError, h1).
Proof.
  intros Hf Hn Hk Hacc.
  destruct (Attention_init_total _ _ _ _ lm h Hacc) as (a & h1 & Ha).
  exists h1. unfold DecoderLayer.init.
  rewrite (bind_ok _ _ _ _ _ Ha).
  apply bind_raise.
  unfold DecoderLayer.use_moe.
  destruct (Config.n_routed_experts cfg); [|congruence].
  destruct (layer_idx >=? first_k_dense_replace cfg) eqn:E; [|lia].
  rewrite Hf. reflexivity.
Qed.

Lemma zero_moe_layer_freq_raises_witness :
  exists h1,
    DecoderLayer.init 1 zero_freq_config 1 None empty_heap
    = (Raise ZeroDivisionError, h1).
Proof.
  apply (zero_moe_layer_freq_raises 1 zero_freq_config 1 None empty_heap).
  - reflexivity.
  - discriminate.
  - simpl. lia.
  - unfold heads_accepted. simpl. repeat split; try lia; discriminate.
Defined.

End StackFacts.

(** ** Packing keeps what the experts hold *)

Section PackFacts.
Local Open Scope nat_scope.

Lemma has_param_in_place h h' shape p :
  in_place h h' -> has_param h shape p -> has_param h' shape p.
Proof.
  intros Hip (t & Ht & Hs & Hb). exists t.
  rewrite (in_place_param_data _ _ Hip). split; [exact Ht|].
  split; [exact Hs|]. eapply in_place_in_bounds; eauto.
Qed.

(** X19. Packing the experts the constructor's loop has built always
    succeeds in the fused layout, also after their weights have been
    written to, and keeps what they hold: every slice of a bank has the
    contents the expert's weight had before packing; the storages that
    existed before are left as they were; and no parameter other than
    the experts' gate/up and down weights is rebound. *)
Theorem pack_params_keeps_contents
    (tp hs isz : Z) (act : string) (lm : option LinearMethodBase) (rr : bool)
    (n : Z) (h0 h1 h : Heap) (es : list MLP.DeepseekMLP) :
  split_layout lm = false ->
  (1 <= n)%Z ->
  for_each (fun _ : Z => MLP.init tp hs isz act lm rr) (range n) h0 = (Ok es, h1) ->
  in_place h1 h ->
  exists bank1 bank2 h',
    MoE.pack_params es h = (Ok (bank1, bank2), h') /\
    (forall i e t1 t2, es !! i = Some e ->
       param_data h !! gate_up_weight e = Some t1 ->
       param_data h !! down_weight e = Some t2 ->
       contents h' (select0 bank1 i) = contents h t1 /\
       contents h' (select0 bank2 i) = contents h t2) /\
    (forall a c, storages h !! a = Some c -> storages h' !! a = Some c) /\
    (forall q, q ∉ map gate_up_weight es ++ map down_weight es ->
       param_data h' !! q = param_data h !! q).
Proof.
  intros Hlm Hn Hes Hip.
  assert (Hne : es <> []).
  { intros ->. apply for_each_ok_length in Hes. unfold range in Hes.
    rewrite length_map, length_seq in Hes. simpl in Hes. lia. }
  destruct (experts_built _ _ _ _ _ _ _ Hlm _ _ _ Hes)
    as (_ & Hfused & Hnd & Hs1 & Hs2 & _).
  assert (Hs1' : Forall (has_param h (gate_up_shape tp hs isz))
                   (map gate_up_weight es)).
  { eapply Forall_impl; [exact Hs1|]. intros p. now apply has_param_in_place. }
  assert (Hs2' : Forall (has_param h (down_shape tp hs isz))
                   (map down_weight es)).
  { eapply Forall_impl; [exact Hs2|]. intros p. now apply has_param_in_place. }
  destruct (pack_params_spec es h _ _ Hne Hfused Hnd Hs1' Hs2')
    as (bank1 & bank2 & h' & Hp & _ & _ & _ & _ & Hst & _ & Hother & Hcopy).
  exists bank1, bank2, h'. auto.
Qed.

Lemma pack_params_keeps_contents_witness :
  exists es h1,
    for_each (fun _ : Z => MLP.init 1 2 2 "silu" None false) (range 2) empty_heap
    = (Ok es, h1) /\
    let h := default_weight_loader h1 0 [1; 2; 3; 4; 5; 6; 7; 8]%Q in
    exists bank1 bank2 h',
      MoE.pack_params es h = (Ok (bank1, bank2), h') /\
      (forall i e t1 t2, es !! i = Some e ->
         param_data h !! gate_up_weight e = Some t1 ->
         param_data h !! down_weight e = Some t2 ->
         contents h' (select0 bank1 i) = contents h t1 /\
         contents h' (select0 bank2 i) = contents h t2) /\
      (forall a c, storages h !! a = Some c -> storages h' !! a = Some c) /\
      (forall q, q ∉ map gate_up_weight es ++ map down_weight es ->
         param_data h' !! q = param_data h !! q).
Proof.
  destruct (for_each (fun _ : Z => MLP.init 1 2 2 "silu" None false) (range 2)
              empty_heap) as [[es|e] h1] eqn:E; [|vm_compute in E; discriminate].
  exists es, h1. split; [reflexivity|].
  apply (pack_params_keeps_contents 1 2 2 "silu" None false 2 empty_heap h1
           (default_weight_loader h1 0 [1; 2; 3; 4; 5; 6; 7; 8]%Q) es).
  - reflexivity.
  - lia.
  - exact E.
  - apply default_weight_loader_in_place. constructor.
Defined.

(** The first expert's gate/up weight, loaded before packing, is what
    the first slice of the first bank holds after packing. *)
Example packed_slice_holds_loaded_weight :
  match for_each (fun _ : Z => MLP.init 1 2 2 "silu" None false) (range 2)
          empty_heap with
  | (Ok es, h1) =>
      let h := default_weight_loader h1 0 [1; 2; 3; 4; 5; 6; 7; 8]%Q in
      match MoE.pack_params es h with
      | (Ok (bank1, _), h') =>
          contents h' (select0 bank1 0) = [1; 2; 3; 4; 5; 6; 7; 8]%Q
      | (Raise _, _) => False
      end
  | (Raise _, _) => False
  end.
Proof. vm_compute. reflexivity. Qed.

End PackFacts.

(** ** The forward pass of a layer and of the stack *)

Section LayerForwardFacts.
Variable exp : Q -> Q.
Variable reduce_sum : list (list Q) -> list (list Q).
Variables Cache InputMetadata : Type.
Variable rotary_emb :
  list Z -> list (list Q) -> list (list Q) -> list (list Q) * list (list Q).
Variable attn :
  list (list Q) -> list (list Q) -> list (list Q) ->
  Cache -> Cache -> InputMetadata -> list (list Q).

Lemma MLP_forward_log tp hs isz act lm rr ha hb (m : MLP.DeepseekMLP)
    h x (log : Log) :
  MLP.init tp hs isz act lm rr ha = (Ok m, hb) ->
  exists y,
    MLP.forward exp reduce_sum h m x log
    = (Ok (if rr then reduce_sum y else y), if rr then log ++ [y] else log).
Proof.
  intros H. apply MLP_init_ok_inv in H as (Hmw & Hrr & Hproj).
  destruct (split_layout lm).
  - destruct Hproj as (_ & (g & Hg & Hgr) & (u & Hu & Hur)).
    rewrite (MLP_forward_split exp reduce_sum h m g u x log Hmw Hg Hu Hgr Hur).
    eexists. destruct rr.
    + now rewrite apply_linear_reduced.
    + now rewrite apply_linear_local.
  - destruct Hproj as (gu & Hgu & Hgur).
    rewrite (MLP_forward_fused exp reduce_sum h m gu x log Hmw Hgu Hgur).
    eexists. destruct rr.
    + now rewrite apply_linear_reduced.
    + now rewrite apply_linear_local.
Qed.


Lemma Attention_forward_log tp hidden heads kv lm h0 a h1
    h positions x kv_cache meta (log : Log) :
  Attention.init tp hidden heads kv lm h0 = (Ok a, h1) ->
  match Attention.forward reduce_sum Cache InputMetadata rotary_emb attn
          h a positions x kv_cache meta log with
  | (Ok y, log') => exists out, log' = log ++ [out] /\ y = reduce_sum out
  | (Raise e, log') => log' = log /\ split_layout lm = false
  end.
Proof.
  intros H.
  pose proof (Attention_init_projections _ _ _ _ _ _ _ _ H) as Hproj.
  apply Attention_init_ok_inv in H
    as (_ & _ & _ & _ & _ & _ & _ & _ & Hmw & Ho).
  destruct (split_layout lm); simpl in Hmw.
  - destruct Hproj as ((lq & Hq & Hqr) & (lk & Hk & Hkr) & (lv & Hv & Hvr)).
    rewrite (Attention_forward_split reduce_sum Cache InputMetadata rotary_emb
               attn h a lq lk lv positions x kv_cache meta log
               Hmw Hq Hk Hv Hqr Hkr Hvr Ho).
    eauto.
  - destruct Hproj as (l & Hl & Hlr).
    unfold Attention.forward. rewrite Hmw, Hl. unfold getattr.
    unfold bind at 1. unfold bind at 1. unfold ret at 1.
    unfold bind at 1. rewrite apply_linear_local by exact Hlr.
    unfold split3.
    destruct (forallb _ _).
    + unfold ret at 1.
      match goal with
      | |- context [rotary_emb ?p ?q ?k] => destruct (rotary_emb p q k) as [q' k']
      end.
      destruct kv_cache as [kc vc].
      rewrite apply_linear_reduced by exact Ho. eauto.
    + unfold raise. auto.
Qed.

Lemma MoE_forward_log tp cfg lm h0 moe h1 h x (log : Log) :
  MoE.init tp cfg lm h0 = (Ok moe, h1) ->
  match MoE.forward exp reduce_sum h moe x log with
  | (Ok y, log') => exists payload, log' = log ++ [payload] /\ y = reduce_sum payload
  | (Raise _, log') => log' = log
  end.
Proof.
  intros Hinit.
  apply MoE_init_ok_inv in Hinit
    as (n & Hn & Htp & Hcfg & Htopk & _ & _ & Hexp & _ & Hgate & Hshared).
  assert (Hfw : MoE.forward exp reduce_sum h moe x log
                = match n_shared_experts cfg with
                  | Some _ =>
                      bind (bind (getattr "shared_experts" (MoE.shared_experts moe))
                              (fun se =>
                                 bind (MLP.forward exp reduce_sum h se x)
                                   (fun y => ret (Some y))))
                        (after_shared exp reduce_sum h moe x) log
                  | None => after_shared exp reduce_sum h moe x None log
                  end).
  { unfold MoE.forward, after_shared. rewrite Hcfg.
    destruct (n_shared_experts cfg); reflexivity. }
  rewrite Hfw. clear Hfw.
  pose proof (after_shared_spec exp reduce_sum h moe x) as Hspec.
  destruct (n_shared_experts cfg) as [s|].
  - destruct Hshared as (se & ha & hb & Hse & Hbuilt).
    destruct (MLP_forward_local exp reduce_sum _ _ _ _ _ _ _ _ h x log Hbuilt)
      as (sy & Hsy).
    rewrite Hse.
    erewrite bind_ok; cycle 1.
    { erewrite bind_ok; [|reflexivity].
      erewrite bind_ok; [|exact Hsy]. reflexivity. }
    specialize (Hspec (Some sy) log Hgate). cbv zeta in Hspec.
    destruct (after_shared exp reduce_sum h moe x (Some sy) log) as [[y|e] log'];
      [|exact Hspec].
    destruct Hspec as (routing & _ & Hp & Hy). eauto.
  - specialize (Hspec None log Hgate). cbv zeta in Hspec.
    destruct (after_shared exp reduce_sum h moe x None log) as [[y|e] log'];
      [|exact Hspec].
    destruct Hspec as (routing & _ & Hp & Hy). eauto.
Qed.

Lemma feed_forward_log tp cfg lm (l : LayerForward.Normed) h x (log : Log) :
  constructed_layer tp cfg lm l ->
  match LayerForward.feed_forward exp reduce_sum h
          (DecoderLayer.mlp (LayerForward.layer l)) x log with
  | (Ok y, log') => exists payload, log' = log ++ [payload] /\ y = reduce_sum payload
  | (Raise _, log') => log' = log
  end.
Proof.
  intros (layer_idx & ha & hb & Hinit).
  apply DecoderLayer_init_inv in Hinit
    as (h1 & _ & [(_ & moe & Hm & Hmoe) | (_ & m & Hm & Hmlp)]);
    rewrite Hm; simpl.
  - eapply MoE_forward_log; exact Hmoe.
  - destruct (MLP_forward_log _ _ _ _ _ _ _ _ _ h x log Hmlp)
      as (y & ->). eauto.
Qed.

Lemma layer_forward_log tp cfg lm (l : LayerForward.Normed)
    h positions x kv_cache meta residual (log : Log) :
  constructed_layer tp cfg lm l ->
  match LayerForward.forward exp reduce_sum Cache InputMetadata rotary_emb attn
          h l positions x kv_cache meta residual log with
  | (Ok (y, r), log') =>
      exists attended payload,
        log' = log ++ [attended; payload] /\
        r = add_batch (reduce_sum attended) (residual_in x residual) /\
        y = reduce_sum payload
  | (Raise _, log') => log' = log \/ exists attended, log' = log ++ [attended]
  end.
Proof.
  intros Hl. pose proof Hl as (layer_idx & ha & hb & Hinit).
  apply DecoderLayer_init_inv in Hinit as (h1 & Hattn & _).
  unfold LayerForward.forward.
  set (start := match residual with
                | Some r => LayerForward.RMSNorm_residual
                              (LayerForward.input_layernorm l) x r
                | None => (LayerForward.RMSNorm (LayerForward.input_layernorm l) x, x)
                end).
  assert (Hstart : snd start = residual_in x residual).
  { unfold start. destruct residual; reflexivity. }
  destruct start as [x0 r0]. simpl in Hstart. subst r0.
  pose proof (Attention_forward_log _ _ _ _ _ _ _ _ h positions x0 kv_cache meta
                log Hattn) as Ha.
  unfold bind at 1.
  destruct (Attention.forward _ _ _ _ _ h _ positions x0 kv_cache meta log)
    as [[y1|e] log1].
  2:{ left. now destruct Ha. }
  destruct Ha as (attended & -> & ->).
  unfold LayerForward.RMSNorm_residual. cbv zeta.
  pose proof (feed_forward_log tp cfg lm l h
                (map (LayerForward.post_attention_layernorm l)
                   (add_batch (reduce_sum attended) (residual_in x residual)))
                (log ++ [attended]) Hl) as Hf.
  unfold bind at 1.
  destruct (LayerForward.feed_forward _ _ h _ _ (log ++ [attended]))
    as [[y2|e] log2].
  - destruct Hf as (payload & -> & ->). unfold ret.
    exists attended, payload. rewrite <- app_assoc. auto.
  - right. exists attended. exact Hf.
Qed.


Lemma index_ok {S A} (xs : list A) (i : nat) (s : S) :
  (i < length xs)%nat -> exists x, xs !! i = Some x /\ index xs i s = (Ok x, s).
Proof.
  intros Hi. destruct (lookup_lt_is_Some_2 xs i Hi) as (x & Hx).
  exists x. split; [exact Hx|]. unfold index. now rewrite Hx.
Qed.

Lemma index_out {S A} (xs : list A) (i : nat) (s : S) :
  (length xs <= i)%nat -> index xs i s = (Raise IndexError, s).
Proof.
  intros Hi. unfold index. now rewrite (lookup_ge_None_2 xs i Hi).
Qed.

Lemma forward_layers_fold tp cfg lm (layers : list LayerForward.Normed)
    h positions (kv_caches : list (Cache * Cache)) meta :
  Forall (constructed_layer tp cfg lm) layers ->
  forall (indices : list nat) state (log : Log),
    Forall (fun i => (i < length layers)%nat) indices ->
    match
      for_fold
        (fun (state : list (list Q) * option (list (list Q))) (i : nat) =>
           let '(hidden_states, residual) := state in
           bind (index layers i)
             (fun layer =>
                bind (index kv_caches i)
                  (fun kv_cache =>
                     bind (LayerForward.forward exp reduce_sum Cache InputMetadata
                             rotary_emb attn h layer positions hidden_states
                             kv_cache meta residual)
                       (fun out => ret (fst out, Some (snd out))))))
        indices state log
    with
    | (Ok (y, r), log') =>
        Forall (fun i => (i < length kv_caches)%nat) indices /\
        (indices = [] -> (y, r) = state) /\
        (indices <> [] -> r <> None) /\
        exists payloads,
          log' = log ++ payloads /\
          length payloads = (2 * length indices)%nat
    | (Raise _, log') =>
        exists payloads,
          log' = log ++ payloads /\
          (length payloads < 2 * length indices)%nat
    end.
Proof.
  intros Hall. induction indices as [|i indices IH]; intros [x residual] log Hin.
  - simpl. unfold ret. split; [constructor|]. split; [reflexivity|].
    split; [congruence|]. exists []. now rewrite app_nil_r.
  - inversion Hin as [|? ? Hi Hrest]; subst.
    cbn [for_fold]. unfold bind at 1.
    destruct (index_ok layers i log Hi) as (l & Hl & El).
    rewrite (bind_ok _ _ _ _ _ El).
    assert (Hcl : constructed_layer tp cfg lm l).
    { exact (Forall_lookup_1 _ _ _ _ Hall Hl). }
    destruct (le_lt_dec (length kv_caches) i) as [Hout|Hkv].
    + rewrite (bind_raise _ _ _ _ _ (index_out kv_caches i log Hout)).
      exists []. rewrite app_nil_r. split; [reflexivity|]. simpl. lia.
    + destruct (index_ok kv_caches i log Hkv) as (kv & _ & Ekv).
      rewrite (bind_ok _ _ _ _ _ Ekv).
      pose proof (layer_forward_log tp cfg lm l h positions x kv meta residual
                    log Hcl) as Hf.
      unfold bind at 1.
      destruct (LayerForward.forward _ _ _ _ _ _ h l positions x kv meta
                  residual log) as [[[y r]|e] log1].
      * destruct Hf as (attended & payload & -> & _ & _).
        unfold ret at 1. simpl fst. simpl snd.
        specialize (IH (y, Some r) (log ++ [attended; payload]) Hrest).
        match goal with
        | |- match ?t with _ => _ end =>
            destruct t as [[[y' r']|e'] log2]
        end.
        -- destruct IH as (Hkvs & Hnil & Hsome & payloads & -> & Hlen).
           split; [constructor; assumption|].
           split; [discriminate|].
           split.
           { intros _. destruct indices as [|j indices'].
             - specialize (Hnil eq_refl). inversion Hnil. discriminate.
             - apply Hsome. discriminate. }
           exists ([attended; payload] ++ payloads).
           rewrite <- app_assoc. split; [reflexivity|].
           rewrite length_app. simpl. lia.
        -- destruct IH as (payloads & -> & Hlen).
           exists ([attended; payload] ++ payloads).
           rewrite <- app_assoc. split; [reflexivity|].
           rewrite length_app. simpl. lia.
      * destruct Hf as [-> | (attended & ->)].
        -- exists []. rewrite app_nil_r. split; [reflexivity|]. simpl. lia.
        -- exists [attended]. split; [reflexivity|]. simpl. lia.
Qed.

(** X18. The loop over the layers of a constructed stack: when it
    returns there was a cache pair for every layer, every layer has
    issued its two all-reduces and nothing else has been logged, and
    the residual is [None] only for a stack with no layer, in which
    case the hidden states come back as they were.  With fewer cache
    pairs than layers it never returns; and a loop that raises has
    issued fewer than two all-reduces per layer. *)
Theorem forward_layers_two_all_reduces_per_layer
    (tp : Z) (cfg : PretrainedConfig) (lm : option LinearMethodBase)
    (layers : list LayerForward.Normed)
    (h : Heap) (positions : list Z) (kv_caches : list (Cache * Cache))
    (meta : InputMetadata) (x : list (list Q)) (log : Log) :
  Forall (constructed_layer tp cfg lm) layers ->
  match LayerForward.forward_layers exp reduce_sum Cache InputMetadata
          rotary_emb attn h layers positions kv_caches meta x log with
  | (Ok (y, r), log') =>
      (length layers <= length kv_caches)%nat /\
      (layers = [] -> y = x /\ r = None) /\
      (layers <> [] -> r <> None) /\
      exists payloads,
        log' = log ++ payloads /\ length payloads = (2 * length layers)%nat
  | (Raise _, log') =>
      layers <> [] /\
      exists payloads,
        log' = log ++ payloads /\ (length payloads < 2 * length layers)%nat
  end.
Proof.
  intros Hall. unfold LayerForward.forward_layers.
  pose proof (forward_layers_fold tp cfg lm layers h positions kv_caches meta
                Hall (seq 0 (length layers)) (x, None) log) as H.
  match type of H with
  | _ -> match ?t with _ => _ end =>
      change (match t with
              | (Ok (y, r), log') =>
                  (length layers <= length kv_caches)%nat /\
                  (layers = [] -> y = x /\ r = None) /\
                  (layers <> [] -> r <> None) /\
                  exists payloads,
                    log' = log ++ payloads /\
                    length payloads = (2 * length layers)%nat
              | (Raise _, log') =>
                  layers <> [] /\
                  exists payloads,
                    log' = log ++ payloads /\
                    (length payloads < 2 * length layers)%nat
              end);
      destruct t as [[[y r]|e] log']
  end.
  - destruct H as (Hkv & Hnil & Hsome & payloads & -> & Hlen).
    { rewrite List.Forall_forall. intros i Hi. apply in_seq in Hi. lia. }
    rewrite length_seq in Hlen.
    split.
    { destruct layers as [|l0 layers']; [simpl; lia|].
      rewrite List.Forall_forall in Hkv.
      specialize (Hkv (length layers')).
      assert (In (length layers') (seq 0 (length (l0 :: layers')))).
      { apply in_seq. simpl. lia. }
      specialize (Hkv H). simpl. lia. }
    split.
    { intros ->. specialize (Hnil eq_refl). now inversion Hnil. }
    split.
    { intros Hne. apply Hsome. destruct layers; [congruence | discriminate]. }
    now exists payloads.
  - destruct H as (payloads & -> & Hlen).
    { rewrite List.Forall_forall. intros i Hi. apply in_seq in Hi. lia. }
    rewrite length_seq in Hlen.
    split; [intros ->; simpl in Hlen; lia|].
    now exists payloads.
Qed.

End LayerForwardFacts.



Lemma init_layers_constructed tp cfg lm h layers h'
    (wrap : DecoderLayer.DeepseekDecoderLayer -> LayerForward.Normed) :
  (forall layer, LayerForward.layer (wrap layer) = layer) ->
  DecoderLayer.init_layers tp cfg lm h = (Ok layers, h') ->
  Forall (constructed_layer tp cfg lm) (map wrap layers).
Proof.
  intros Hwrap E.
  unfold DecoderLayer.init_layers in E. apply for_each_ok_built in E.
  apply Forall_map. eapply Forall_impl; [exact E|].
  simpl. intros layer (idx & s1 & s2 & H).
  exists idx, s1, s2. now rewrite Hwrap.
Qed.

Lemma demo_layers_constructed :
  Forall (constructed_layer 1 demo_config None) demo_layers.
Proof.
  unfold demo_layers.
  destruct (DecoderLayer.init_layers 1 demo_config None empty_heap)
    as [[layers|e] h'] eqn:E; [|constructor].
  apply (init_layers_constructed 1 demo_config None empty_heap layers h');
    [reflexivity | exact E].
Qed.

Lemma forward_layers_two_all_reduces_per_layer_witness :
  let x := [[1; 1; 1; 1; 1; 1; 1; 1]%Q] in
  match LayerForward.forward_layers exp_rational (fun t => t) unit unit
          demo_rotary demo_attn demo_layers_heap demo_layers [0]
          [(tt, tt); (tt, tt)] tt x [] with
  | (Ok (y, r), log') =>
      (length demo_layers <= length [(tt, tt); (tt, tt)])%nat /\
      (demo_layers = [] -> y = x /\ r = None) /\
      (demo_layers <> [] -> r <> None) /\
      exists payloads,
        log' = [] ++ payloads /\ length payloads = (2 * length demo_layers)%nat
  | (Raise _, log') =>
      demo_layers <> [] /\
      exists payloads,
        log' = [] ++ payloads /\ (length payloads < 2 * length demo_layers)%nat
  end.
Proof.
  apply (forward_layers_two_all_reduces_per_layer exp_rational (fun t => t)
           unit unit demo_rotary demo_attn 1 demo_config None demo_layers
           demo_layers_heap [0] [(tt, tt); (tt, tt)] tt
           [[1; 1; 1; 1; 1; 1; 1; 1]%Q] []).
  exact demo_layers_constructed.
Defined.

(** The two layers of the small configuration on one token: the loop
    returns, with four all-reduces in the log. *)
Example demo_layers_run :
  match LayerForward.forward_layers exp_rational (fun t => t) unit unit
          demo_rotary demo_attn demo_layers_heap demo_layers [0]
          [(tt, tt); (tt, tt)] tt [[1; 1; 1; 1; 1; 1; 1; 1]%Q] [] with
  | (Ok (_, r), log') => is_Some r /\ length log' = 4%nat
  | (Raise _, _) => False
  end.
Proof. vm_compute. split; [eauto | reflexivity]. Qed.

(** With one cache pair for two layers the loop raises [IndexError]
    after the first layer's two all-reduces. *)
Example demo_layers_short_caches :
  match LayerForward.forward_layers exp_rational (fun t => t) unit unit
          demo_rotary demo_attn demo_layers_heap demo_layers [0]
          [(tt, tt)] tt [[1; 1; 1; 1; 1; 1; 1; 1]%Q] [] with
  | (Raise e, log') => e = IndexError /\ length log' = 2%nat
  | (Ok _, _) => False
  end.
Proof. vm_compute. split; reflexivity. Qed.

(** ** Constructing the whole stack, and the range of [top_k] *)

Section StackTotal.

Lemma DecoderLayer_init_total tp cfg layer_idx lm h :
  heads_accepted tp (Config.hidden_size cfg) (num_attention_heads cfg)
    (num_key_value_heads cfg) ->
  hidden_act cfg = "silu"%string ->
  moe_layer_freq cfg <> 0 ->
  (Config.n_routed_experts cfg = None \/
   exists n, Config.n_routed_experts cfg = Some n /\ 1 <= n /\ tp <= n /\
             split_layout lm = false) ->
  exists layer h', DecoderLayer.init tp cfg layer_idx lm h = (Ok layer, h').
Proof.
  intros Hacc Hact Hfreq Hexp.
  destruct (Attention_init_total _ _ _ _ lm h Hacc) as (a & h1 & Ha).
  destruct (use_moe_total cfg layer_idx h1 Hfreq) as (b & Hb).
  unfold DecoderLayer.init.
  rewrite (bind_ok _ _ _ _ _ Ha), (bind_ok _ _ _ _ _ Hb).
  destruct b.
  - apply use_moe_spec in Hb as (_ & Hb).
    assert (Hs : sparse_layer cfg layer_idx) by now apply Hb.
    destruct Hexp as [Hnone | (n & Hn & H1 & Htp & Hlm)].
    { destruct Hs as (Hsome & _). contradiction. }
    destruct (MoE_init_builds tp cfg lm h1 n Hn H1 Htp Hact Hlm)
      as (moe & h2 & Hmoe & _).
    erewrite bind_ok; cycle 1.
    { erewrite bind_ok; [|exact Hmoe]. reflexivity. }
    unfold ret. eauto.
  - destruct (MLP_init_silu tp (Config.hidden_size cfg) (intermediate_size cfg)
                lm true h1) as (m & h2 & Hm & _).
    rewrite Hact.
    erewrite bind_ok; cycle 1.
    { erewrite bind_ok; [|exact Hm]. reflexivity. }
    unfold ret. eauto.
Qed.

(** X20. The whole layer stack is constructed, whatever the number of
    layers, when the head counts pass the attention checks, the
    activation is [silu], [moe_layer_freq] is not zero, and either no
    routed experts are configured or there is at least one, at least as
    many as workers, with a backend that permits fused layouts. *)
Theorem layer_stack_constructed
    (tp : Z) (cfg : PretrainedConfig) (lm : option LinearMethodBase) (h : Heap) :
  heads_accepted tp (Config.hidden_size cfg) (num_attention_heads cfg)
    (num_key_value_heads cfg) ->
  hidden_act cfg = "silu"%string ->
  moe_layer_freq cfg <> 0 ->
  (Config.n_routed_experts cfg = None \/
   exists n, Config.n_routed_experts cfg = Some n /\ 1 <= n /\ tp <= n /\
             split_layout lm = false) ->
  exists layers h',
    DecoderLayer.init_layers tp cfg lm h = (Ok layers, h') /\
    length layers = Z.to_nat (num_hidden_layers cfg).
Proof.
  intros Hacc Hact Hfreq Hexp. unfold DecoderLayer.init_layers.
  destruct (for_each_total
              (fun layer_idx => DecoderLayer.init tp cfg layer_idx lm)
              (range (num_hidden_layers cfg)) h) as (layers & h' & H).
  { intros x s1. now apply DecoderLayer_init_total. }
  exists layers, h'. split; [exact H|].
  apply for_each_ok_length in H. rewrite H. unfold range.
  now rewrite length_map, length_seq.
Qed.

Lemma layer_stack_constructed_witness :
  exists layers h',
    DecoderLayer.init_layers 1 demo_config None empty_heap = (Ok layers, h') /\
    length layers = Z.to_nat (num_hidden_layers demo_config).
Proof.
  apply (layer_stack_constructed 1 demo_config None empty_heap).
  - unfold heads_accepted. simpl. repeat split; try lia; discriminate.
  - reflexivity.
  - simpl. lia.
  - right. exists 2. simpl. repeat split; lia.
Defined.

End StackTotal.

Section TopKRange.
Variable exp : Q -> Q.
Variable reduce_sum : list (list Q) -> list (list Q).

Lemma route_out_of_range k norm row (log : Log) :
  (k < 0 \/ Z.of_nat (length row) < k) ->
  MoE.route exp k norm row log
  = (Raise (RuntimeError "selected index k out of range"), log).
Proof.
  intros Hk. unfold MoE.route, topk. rewrite softmax_length.
  unfold bind.
  destruct ((k <? 0) || (Z.of_nat (length row) <? k)) eqn:E; [reflexivity|].
  apply orb_false_iff in E as (A & B). lia.
Qed.

(** X21. A constructed sparse block whose [top_k] is negative or
    exceeds the number of router outputs raises on every batch that has
    a token, before any all-reduce. *)
Theorem moe_forward_top_k_out_of_range
    (tp : Z) (cfg : PretrainedConfig) (lm : option LinearMethodBase)
    (h0 h1 : Heap) (moe : MoE.DeepseekMoE)
    (h : Heap) (x : list (list Q)) (log : Log) :
  MoE.init tp cfg lm h0 = (Ok moe, h1) ->
  x <> [] ->
  (num_experts_per_tok cfg < 0 \/
   Z.of_nat (length (weight_matrix h (MoE.gate moe))) < num_experts_per_tok cfg) ->
  MoE.forward exp reduce_sum h moe x log
  = (Raise (RuntimeError "selected index k out of range"), log).
Proof.
  intros Hinit Hx Hk.
  apply MoE_init_ok_inv in Hinit
    as (n & Hn & Htp & Hcfg & Htopk & _ & _ & Hexp & _ & Hgate & Hshared).
  assert (Hafter : forall shared,
            after_shared exp reduce_sum h moe x shared log
            = (Raise (RuntimeError "selected index k out of range"), log)).
  { intros shared. unfold after_shared.
    rewrite (bind_ok _ _ _ _ _ (apply_linear_local reduce_sum h _ x log Hgate)).
    apply bind_raise.
    destruct x as [|row x']; [congruence|]. cbn [map for_each].
    apply bind_raise. apply route_out_of_range.
    rewrite Htopk, matvec_length. exact Hk. }
  assert (Hfw : MoE.forward exp reduce_sum h moe x log
                = match n_shared_experts cfg with
                  | Some _ =>
                      bind (bind (getattr "shared_experts" (MoE.shared_experts moe))
                              (fun se =>
                                 bind (MLP.forward exp reduce_sum h se x)
                                   (fun y => ret (Some y))))
                        (after_shared exp reduce_sum h moe x) log
                  | None => after_shared exp reduce_sum h moe x None log
                  end).
  { unfold MoE.forward, after_shared. rewrite Hcfg.
    destruct (n_shared_experts cfg); reflexivity. }
  rewrite Hfw. clear Hfw.
  destruct (n_shared_experts cfg) as [s|]; [|apply Hafter].
  destruct Hshared as (se & ha & hb & Hse & Hbuilt).
  destruct (MLP_forward_local exp reduce_sum _ _ _ _ _ _ _ _ h x log Hbuilt)
    as (sy & Hsy).
  rewrite Hse.
  erewrite bind_ok; cycle 1.
  { erewrite bind_ok; [|reflexivity].
    erewrite bind_ok; [|exact Hsy]. reflexivity. }
  apply Hafter.
Qed.

End TopKRange.

Lemma moe_forward_top_k_out_of_range_witness :
  exists moe h1,
    MoE.init 2 greedy_config None empty_heap = (Ok moe, h1) /\
    MoE.forward exp_rational (fun t => t) h1 moe
      [[1; 1; 1; 1; 1; 1; 1; 1]%Q] []
    = (Raise (RuntimeError "selected index k out of range"), []).
Proof.
  destruct (MoE.init 2 greedy_config None empty_heap) as [[moe|e] h1] eqn:E;
    [|vm_compute in E; discriminate].
  exists moe, h1. split; [reflexivity|].
  apply (moe_forward_top_k_out_of_range exp_rational (fun t => t)
           2 greedy_config None empty_heap h1 moe h1
           [[1; 1; 1; 1; 1; 1; 1; 1]%Q] [] E).
  - discriminate.
  - right. pose proof E as E'. vm_compute in E'. inversion E'; subst moe h1.
    vm_compute. reflexivity.
Defined.

Section LoaderSplit.
Import Loader.
Local Open Scope string_scope.

(** X22. With a backend that disallows fused layouts the stacking table
    is empty: every entry that is loaded is loaded under its own name,
    with no shard id, into a parameter the model has; and a name the
    model lacks is an error unless it is skipped. *)
Theorem split_backend_loads_names_unchanged
    (lm : option LinearMethodBase) (params : gmap string Param) (name : string) :
  split_layout lm = true ->
  load_entry lm params name = Skipped \/
  load_entry lm params name = Fatal (KeyError name) \/
  exists l, load_entry lm params name = Call name l None /\
            in_dict params name = true.
Proof.
  intros Hlm. unfold load_entry, active_mapping. rewrite Hlm.
  destruct (contains "rotary_emb.inv_freq" name); [now left|].
  cbn [load_stacked]. unfold load_unstacked, in_dict.
  destruct (extra_bias params name); [now left|].
  destruct (foreign_expert params name); [now left|].
  destruct (params !! name) as [p|]; [|right; now left].
  right. right. eexists. split; reflexivity.
Qed.

Lemma split_backend_loads_names_unchanged_witness :
  load_entry split_backend demo_params "model.layers.0.mlp.gate_proj.weight" = Skipped \/
  load_entry split_backend demo_params "model.layers.0.mlp.gate_proj.weight"
  = Fatal (KeyError "model.layers.0.mlp.gate_proj.weight") \/
  exists l,
    load_entry split_backend demo_params "model.layers.0.mlp.gate_proj.weight"
    = Call "model.layers.0.mlp.gate_proj.weight" l None /\
    in_dict demo_params "model.layers.0.mlp.gate_proj.weight" = true.
Proof.
  apply (split_backend_loads_names_unchanged split_backend demo_params
           "model.layers.0.mlp.gate_proj.weight").
  reflexivity.
Defined.

End LoaderSplit.

(** ** The loading protocol as amended *)

Section LoaderAmended.
Import Loader.
Local Open Scope string_scope.




(** What that checkpoint leads to: one skip, a sharded call, a skipped
    bias, a default-loader call, then the lookup error that ends the
    loop before the last entry. *)
Example demo_checkpoint_run :
  load_weights None demo_params
    [ ("model.layers.0.self_attn.rotary_emb.inv_freq", 0%nat);
      ("model.layers.0.self_attn.q_proj.weight", 1%nat);
      ("model.layers.0.self_attn.q_proj.bias", 2%nat);
      ("model.norm.weight", 3%nat);
      ("lm_head.weight", 4%nat);
      ("model.layers.0.mlp.up_proj.weight", 5%nat) ]
  = ([ ("model.layers.0.self_attn.qkv_proj.weight", Attached "qkv_loader",
        Some (ShardName "q"), 1%nat);
       ("model.norm.weight", DefaultLoader, None, 3%nat) ],
     Some (KeyError "lm_head.weight")).
Proof. reflexivity. Qed.


End LoaderAmended.

(** ** Routing in float32 *)

Section Float32Facts.
Import Float32.

(** *** The order of the floats *)






(** *** Sorting and the selection *)
















Section Kernel.
Variable expf : float32 -> float32.
Variable sum : list float32 -> float32.



End Kernel.



End Float32Facts.

(** ** The widths of the attention projections *)

Section ProjectionWidths.

Lemma chunks_length cols rows l : length (chunks cols rows l) = rows.
Proof. revert l. induction rows as [|r IH]; simpl; intros l; [|rewrite IH]; reflexivity. Qed.

(** A weight bound to a two-dimensional tensor has as many rows as the
    tensor's shape says, whatever has been written to it. *)
Lemma weight_matrix_rows h1 h rows cols (l : Linear) :
  has_param h1 (dims rows cols) (weight l) -> in_place h1 h ->
  length (weight_matrix h l) = Z.to_nat rows.
Proof.
  intros (t & Ht & Hs & _) Hip. unfold weight_matrix.
  rewrite (in_place_param_data _ _ Hip), Ht. unfold matrix. rewrite Hs.
  unfold dims. apply chunks_length.
Qed.

Lemma ColumnParallelLinear_inv tp i o h l h' :
  ColumnParallelLinear tp i o h = (Ok l, h') ->
  extends h h' /\ has_param h' (dims (o / tp) i) (weight l).
Proof.
  unfold ColumnParallelLinear. intros H.
  apply bind_inv_ok in H as (w & h1 & Hw & H).
  unfold ret in H. inversion H; subst; clear H. simpl.
  now apply new_parameter_inv in Hw as (_ & He & Hp).
Qed.

Lemma RowParallelLinear_extends tp i o r h l h' :
  RowParallelLinear tp i o r h = (Ok l, h') -> extends h h'.
Proof.
  unfold RowParallelLinear. intros H.
  apply bind_inv_ok in H as (w & h1 & Hw & H).
  unfold ret in H. inversion H; subst; clear H.
  now apply new_parameter_inv in Hw as (_ & He & _).
Qed.

Lemma Attention_init_shapes tp hidden heads kv lm h a h1 :
  Attention.init tp hidden heads kv lm h = (Ok a, h1) ->
  if split_layout lm
  then exists lq lk lv,
         Attention.q_proj a = Some lq /\ Attention.k_proj a = Some lk /\
         Attention.v_proj a = Some lv /\
         has_param h1 (dims (Attention.q_size a / tp) hidden) (weight lq) /\
         has_param h1 (dims (Attention.kv_size a / tp) hidden) (weight lk) /\
         has_param h1 (dims (Attention.kv_size a / tp) hidden) (weight lv)
  else exists l,
         Attention.qkv_proj a = Some l /\
         has_param h1
           (dims ((Attention.num_heads a + 2 * Attention.num_kv_heads a)
                  * Attention.head_dim a) hidden) (weight l).
Proof.
  unfold Attention.init. intros H.
  apply bind_inv_ok in H as (r1 & s1 & _ & H).
  apply bind_inv_ok in H as (u1 & s2 & _ & H).
  apply bind_inv_ok in H as (nh & s3 & Hnh & H).
  apply bind_inv_ok in H as (u2 & s4 & _ & H).
  apply bind_inv_ok in H as (kvs & s5 & Hkvs & H).
  apply bind_inv_ok in H as (hd & s6 & Hhd & H).
  apply bind_inv_ok in H as (u3 & s7 & _ & H).
  apply bind_inv_ok in H as (proj & s8 & Hproj & H).
  apply bind_inv_ok in H as (o & s9 & Ho & H).
  apply RowParallelLinear_extends in Ho.
  assert (Hnh' : nh = heads / tp).
  { unfold lift, floordiv in Hnh. destruct (tp =? 0); inversion Hnh; auto. }
  assert (Hkvs' : kvs = kv / tp).
  { unfold lift, floordiv in Hkvs. destruct (tp =? 0); inversion Hkvs; auto. }
  destruct (split_layout lm).
  - apply bind_inv_ok in Hproj as (q & t1 & Hq & Hproj).
    apply bind_inv_ok in Hproj as (k & t2 & Hk & Hproj).
    apply bind_inv_ok in Hproj as (v & t3 & Hv & Hproj).
    unfold ret in Hproj. inversion Hproj; subst proj s8; clear Hproj.
    unfold ret in H. inversion H; subst; clear H. simpl.
    apply ColumnParallelLinear_inv in Hq as (_ & Hq).
    apply ColumnParallelLinear_inv in Hk as (Hek & Hk).
    apply ColumnParallelLinear_inv in Hv as (Hev & Hv).
    exists q, k, v. repeat (split; [reflexivity|]).
    split; [|split].
    + eauto using has_param_extends.
    + eauto using has_param_extends.
    + eauto using has_param_extends.
  - apply bind_inv_ok in Hproj as (qkv & t1 & Hqkv & Hproj).
    unfold ret in Hproj. inversion Hproj; subst proj s8; clear Hproj.
    unfold ret in H. inversion H; subst; clear H. simpl.
    unfold QKVParallelLinear in Hqkv.
    apply bind_inv_ok in Hqkv as (w & t2 & Hw & Hr).
    unfold ret in Hr. inversion Hr; subst; clear Hr. simpl.
    apply new_parameter_inv in Hw as (_ & _ & Hp).
    exists {| class := QKVParallel; weight := w; reduce_results := false |}.
    split; [reflexivity|]. simpl. eauto using has_param_extends.
Qed.

Variable reduce_sum : list (list Q) -> list (list Q).
Variables Cache InputMetadata : Type.
Variable rotary_emb :
  list Z -> list (list Q) -> list (list Q) -> list (list Q) * list (list Q).
Variable attn :
  list (list Q) -> list (list Q) -> list (list Q) ->
  Cache -> Cache -> InputMetadata -> list (list Q).

(** C8. For an attention block that has been constructed, on the heap
    construction leaves and on any heap reached from it by in-place
    writes (weight loading), a forward pass computes the query, key and
    value projections, applies the rotary encoding at the caller's
    positions to the query and the key only, hands these and the value
    as projected to the paged-attention operator with the caller's
    cache, and passes the result through the output projection, which
    issues the pass's one all-reduce.  In fused mode the three are the
    consecutive row blocks of the one weight, of [q_size], [kv_size] and
    [kv_size] rows.  In split mode the three weights have
    [q_size // tp], [kv_size // tp] and [kv_size // tp] rows: the
    per-worker sizes handed to the column-parallel layers are divided
    by the worker count once more. *)
Theorem attention_forward_projection_widths
    (tp hidden heads kv : Z) (lm : option LinearMethodBase) (h0 h1 : Heap)
    (a : Attention.DeepseekAttention) (h : Heap)
    (positions : list Z) (x : list (list Q))
    (kv_cache : Cache * Cache) (meta : InputMetadata) (log : Log) :
  1 <= tp -> 0 <= heads -> 0 <= hidden ->
  Attention.init tp hidden heads kv lm h0 = (Ok a, h1) ->
  in_place h1 h ->
  Attention.q_size a = Attention.num_heads a * Attention.head_dim a /\
  Attention.kv_size a = Attention.num_kv_heads a * Attention.head_dim a /\
  exists Wq Wk Wv,
    (let out := attention_spec rotary_emb attn Wq Wk Wv
                  (weight_matrix h (Attention.o_proj a))
                  positions x kv_cache meta in
     Attention.forward reduce_sum Cache InputMetadata rotary_emb attn
       h a positions x kv_cache meta log
     = (Ok (reduce_sum out), log ++ [out])) /\
    if split_layout lm
    then exists lq lk lv,
           Attention.q_proj a = Some lq /\ Attention.k_proj a = Some lk /\
           Attention.v_proj a = Some lv /\
           Wq = weight_matrix h lq /\ Wk = weight_matrix h lk /\
           Wv = weight_matrix h lv /\
           length Wq = Z.to_nat (Attention.q_size a / tp) /\
           length Wk = Z.to_nat (Attention.kv_size a / tp) /\
           length Wv = Z.to_nat (Attention.kv_size a / tp)
    else exists l,
           Attention.qkv_proj a = Some l /\
           weight_matrix h l = Wq ++ Wk ++ Wv /\
           length Wq = Z.to_nat (Attention.q_size a) /\
           length Wk = Z.to_nat (Attention.kv_size a) /\
           length Wv = Z.to_nat (Attention.kv_size a).
Proof.
  intros Htp Hheads Hhidden Hinit Hip.
  pose proof (Attention_init_projections _ _ _ _ _ _ _ _ Hinit) as Hproj.
  pose proof (Attention_init_shapes _ _ _ _ _ _ _ _ Hinit) as Hshape.
  apply Attention_init_ok_inv in Hinit
    as (Hacc & _ & Hnh & _ & Hnkv & Hhd & Hqs & Hkvs & Hmw & Hro).
  split; [now rewrite Hqs, Hnh, Hhd|].
  split; [now rewrite Hkvs, Hnkv, Hhd|].
  destruct (split_layout lm); simpl in Hmw.
  - destruct Hproj as ((lq & Hq & Hrq) & (lk & Hk & Hrk) & (lv & Hv & Hrv)).
    destruct Hshape as (lq' & lk' & lv' & Hq' & Hk' & Hv' & Sq & Sk & Sv).
    rewrite Hq in Hq'. rewrite Hk in Hk'. rewrite Hv in Hv'.
    inversion Hq'; inversion Hk'; inversion Hv'; subst lq' lk' lv'.
    exists (weight_matrix h lq), (weight_matrix h lk), (weight_matrix h lv).
    split.
    { exact (Attention_forward_split reduce_sum Cache InputMetadata rotary_emb
               attn h a lq lk lv positions x kv_cache meta log
               Hmw Hq Hk Hv Hrq Hrk Hrv Hro). }
    exists lq, lk, lv.
    split; [exact Hq|]. split; [exact Hk|]. split; [exact Hv|].
    repeat (split; [reflexivity|]).
    split; [|split]; eapply weight_matrix_rows; eauto.
  - destruct Hproj as (l & Hl & Hrl).
    destruct Hshape as (l' & Hl' & Sl).
    rewrite Hl in Hl'. inversion Hl'; subst l'.
    pose proof (weight_matrix_rows _ _ _ _ _ Sl Hip) as Hrows.
    set (W := weight_matrix h l) in *.
    set (nq := Z.to_nat (Attention.q_size a)).
    set (nk := Z.to_nat (Attention.kv_size a)).
    assert (Hnn : 0 <= Attention.q_size a /\ 0 <= Attention.kv_size a).
    { rewrite Hqs, Hkvs.
      destruct Hacc as (_ & _ & _ & Hh0 & _).
      assert (0 <= heads / tp) by (apply Z.div_pos; lia).
      assert (0 <= hidden / heads) by (apply Z.div_pos; lia).
      split; apply Z.mul_nonneg_nonneg; lia. }
    assert (Htotal : length W = (nq + nk + nk)%nat).
    { rewrite Hrows. unfold nq, nk.
      rewrite <- !Z2Nat.inj_add by lia. f_equal.
      rewrite Hqs, Hkvs, Hnh, Hnkv, Hhd. ring. }
    exists (take nq W), (take nk (drop nq W)), (drop (nq + nk) W).
    assert (HW : W = take nq W ++ take nk (drop nq W) ++ drop (nq + nk) W).
    { rewrite <- (take_drop nq W) at 1. f_equal.
      rewrite <- (take_drop nk (drop nq W)) at 1. f_equal.
      now rewrite drop_drop. }
    assert (L1 : length (take nq W) = nq) by (rewrite length_take; lia).
    assert (L2 : length (take nk (drop nq W)) = nk)
      by (rewrite length_take, length_drop; lia).
    assert (L3 : length (drop (nq + nk) W) = nk) by (rewrite length_drop; lia).
    split.
    { exact (Attention_forward_fused reduce_sum Cache InputMetadata rotary_emb
               attn h a l _ _ _ positions x kv_cache meta log
               Hmw Hl Hrl Hro HW L1 L2 L3). }
    exists l. split; [exact Hl|]. split; [exact HW|]. auto.
Qed.


End ProjectionWidths.

(** Two workers, split layout: the constructor computes [q_size = 4] and
    [kv_size = 2], and the three projections have 2, 1 and 1 rows. *)
Lemma attention_forward_projection_widths_witness :
  exists a h1,
    Attention.init 2 8 4 2 split_backend empty_heap = (Ok a, h1) /\
    Attention.q_size a = 4 /\ Attention.kv_size a = 2 /\
    exists Wq Wk Wv,
      Attention.forward (fun y => y) unit unit demo_rotary demo_attn
        h1 a [0] [[1; 2; 3; 4; 5; 6; 7; 8]%Q] (tt, tt) tt []
      = (Ok (attention_spec demo_rotary demo_attn Wq Wk Wv
               (weight_matrix h1 (Attention.o_proj a))
               [0] [[1; 2; 3; 4; 5; 6; 7; 8]%Q] (tt, tt) tt),
         [] ++ [attention_spec demo_rotary demo_attn Wq Wk Wv
                  (weight_matrix h1 (Attention.o_proj a))
                  [0] [[1; 2; 3; 4; 5; 6; 7; 8]%Q] (tt, tt) tt]) /\
      length Wq = 2%nat /\ length Wk = 1%nat /\ length Wv = 1%nat.
Proof.
  destruct (Attention.init 2 8 4 2 split_backend empty_heap)
    as [[a|e] h1] eqn:E; [|vm_compute in E; discriminate].
  exists a, h1. split; [reflexivity|].
  destruct (attention_forward_projection_widths (fun y => y) unit unit
              demo_rotary demo_attn 2 8 4 2 split_backend empty_heap h1 a h1
              [0] [[1; 2; 3; 4; 5; 6; 7; 8]%Q] (tt, tt) tt [])
    as (Hq & Hk & Wq & Wk & Wv & Hfw & Hsplit);
    [lia | lia | lia | exact E | constructor |].
  simpl in Hsplit.
  destruct Hsplit as (lq & lk & lv & _ & _ & _ & _ & _ & _ & Lq & Lk & Lv).
  pose proof E as E'. vm_compute in E'. inversion E'; subst a h1; clear E'.
  split; [reflexivity|]. split; [reflexivity|].
  exists Wq, Wk, Wv. split; [exact Hfw|]. auto.
Defined.

